(** * Video Shazam: fingerprint extraction, matching and the fingerprint store

    A shallow embedding of [fingerprinter.py], [reference_store.py] and the
    two commands of [main.py].

    Conventions of the embedding.
    - A Python [int] is a [Z]; a Python [list] is a [list].
    - The values of a fingerprint are given twice.  Where no arithmetic is
      rounded (selecting a maximum, rounding to a tenth, lengths, sentinels,
      distances that are exactly zero) a finite [float] is the exact
      rational it denotes ([Q]), and [math.inf] is the extra constructor
      [Inf] of [pyfloat].  What depends on the distances that the matcher
      adds up and compares is stated on the binary64 floats of the kernel,
      in the module [Binary64], with the rounding, the overflow and the
      [nan] of the interpreter.
    - A Python exception is the [Raise] constructor of [result]; code that
      can raise is written in the error monad.
    - The file system is an explicit state, threaded through the store's
      operations.  A character of a name is a code point below 256. *)

From Stdlib Require Import List ZArith QArith Qabs Qround Lia Bool.
From Stdlib Require Import String Ascii Permutation Sorted.
From Stdlib Require Decimal DecimalFacts DecimalString DecimalZ DecimalPos DecimalN.
From Stdlib Require Floats.
Import ListNotations.

Local Open Scope Z_scope.

(** ** Exceptions and the error monad *)

Inductive exn : Type :=
| IndexError
| ValueError
| FileNotFoundError
| FileExistsError
| NotADirectoryError
| IsADirectoryError
| JSONDecodeError.

Inductive result (A : Type) : Type :=
| Ok (a : A)
| Raise (e : exn).

Arguments Ok {A} a.
Arguments Raise {A} e.

Definition bind {A B : Type} (c : result A) (k : A -> result B) : result B :=
  match c with
  | Ok a => k a
  | Raise e => Raise e
  end.

Declare Scope py_scope.
Delimit Scope py_scope with py.

Notation "x <- c ;; k" := (bind c (fun x => k))
  (at level 61, c at next level, right associativity) : py_scope.
Notation "' pat <- c ;; k" := (bind c (fun x => match x with pat => k end))
  (at level 61, pat pattern, c at next level, right associativity) : py_scope.

Local Open Scope py_scope.

(** [mapM f l] is the list comprehension [[f x for x in l]] when [f] can
    raise: elements are evaluated left to right and the first exception
    aborts the comprehension. *)
Fixpoint mapM {A B : Type} (f : A -> result B) (l : list A) : result (list B) :=
  match l with
  | [] => Ok []
  | x :: l' => y <- f x ;; ys <- mapM f l' ;; Ok (y :: ys)
  end.

(** [foldM body l s] is the loop [for x in l: s = body(s, x)]. *)
Fixpoint foldM {A S : Type} (body : S -> A -> result S) (l : list A) (s : S)
  : result S :=
  match l with
  | [] => Ok s
  | x :: l' => s' <- body s x ;; foldM body l' s'
  end.

(** ** Python and NumPy primitives used by the program *)

Module Py.

Definition len {A : Type} (l : list A) : Z := Z.of_nat (List.length l).

(** [range(stop)]. *)
Definition range1 (stop : Z) : list Z :=
  map Z.of_nat (seq 0 (Z.to_nat stop)).

(** Number of elements of [range(start, stop, step)], as CPython
    computes it. *)
Definition range_len (start stop step : Z) : Z :=
  if 0 <? step then
    if start <? stop then (stop - start - 1) / step + 1 else 0
  else
    if stop <? start then (start - stop - 1) / (- step) + 1 else 0.

(** [range(start, stop, step)]; a zero step raises [ValueError]. *)
Definition range3 (start stop step : Z) : result (list Z) :=
  if step =? 0 then Raise ValueError
  else Ok (map (fun i => start + Z.of_nat i * step)
               (seq 0 (Z.to_nat (range_len start stop step)))).

(** A slice bound is taken from the end when negative and clipped to the
    sequence. *)
Definition clip (n i : Z) : Z :=
  if i <? 0 then Z.max 0 (i + n) else Z.min i n.

(** [l[a:b]]. *)
Definition slice {A : Type} (l : list A) (a b : Z) : list A :=
  let a' := clip (len l) a in
  let b' := clip (len l) b in
  firstn (Z.to_nat (b' - a')) (skipn (Z.to_nat a') l).

(** [l[i]]: a negative index counts from the end; out of range raises
    [IndexError]. *)
Definition index {A : Type} (l : list A) (i : Z) : result A :=
  let j := if i <? 0 then i + len l else i in
  if j <? 0 then Raise IndexError
  else match nth_error l (Z.to_nat j) with
       | Some x => Ok x
       | None => Raise IndexError
       end.

(** [l.pop()]: the removed last element and the remaining list;
    [IndexError] on the empty list. *)
Definition pop {A : Type} (l : list A) : result (A * list A) :=
  match rev l with
  | [] => Raise IndexError
  | x :: r => Ok (x, rev r)
  end.

(** [enumerate(l)]. *)
Definition enumerate {A : Type} (l : list A) : list (Z * A) :=
  combine (range1 (len l)) l.

(** [sum(l)]: starts from [0] and adds from the left. *)
Definition sum (l : list Q) : Q := fold_left Qplus l 0%Q.

(** [np.abs] on an array. *)
Definition np_abs (l : list Q) : list Q := map Qabs l.

Definition qmax (a b : Q) : Q := if Qle_bool a b then b else a.

(** [np.max] on an array; the empty array raises [ValueError]. *)
Definition np_max (l : list Q) : result Q :=
  match l with
  | [] => Raise ValueError
  | x :: l' => Ok (fold_left qmax l' x)
  end.

(** [round(x, 1)]: the nearest multiple of one tenth, a tie going to the
    even multiple. *)
Definition round1 (x : Q) : Q :=
  let t := (x * inject_Z 10)%Q in
  let f := Qfloor t in
  let k := match (t - inject_Z f ?= 1 # 2)%Q with
           | Lt => f
           | Gt => f + 1
           | Eq => if Z.even f then f else f + 1
           end in
  Qmake k 10.

End Py.

(** ** fingerprinter.py *)

Section Extraction.

(** [librosa.load]: the audio decoder, an external collaborator.  It
    returns the samples and the sample rate, or raises. *)
Variable librosa_load : string -> result (list Q * Z).

Definition extract_fingerprint (audio_path : string) : result (list Q) :=
  '(y, sr) <- librosa_load audio_path ;;
  offsets <- Py.range3 0 (Py.len y) sr ;;
  let chunks := map (fun offset => Py.slice y offset (offset + sr)) offsets in
  '(_, chunks) <- Py.pop chunks ;;
  mapM (fun chunk => m <- Py.np_max (Py.np_abs chunk) ;; Ok (Py.round1 m))
       chunks.

End Extraction.

(** [math.inf] and the finite floats. *)
Inductive pyfloat : Type :=
| Fin (q : Q)
| Inf.

Definition Qlt_bool (x y : Q) : bool := negb (Qle_bool y x).

(** The comparison [a < b] of two floats. *)
Definition float_lt (a b : pyfloat) : bool :=
  match a, b with
  | Fin x, Fin y => Qlt_bool x y
  | Fin _, Inf => true
  | Inf, _ => false
  end.

(** The matcher on exact values: differences and sums are those of the
    rationals, without rounding.  [Binary64] below has the arithmetic of
    the interpreter. *)
Definition _l1_distance (query reference : list Q) (offset : Z) : result Q :=
  terms <- mapM (fun '(j, q) =>
                   r <- Py.index reference (offset + j) ;;
                   Ok (Qabs (q - r)))
                (Py.enumerate query) ;;
  Ok (Py.sum terms).

(** [best_match_position], with the distance of a window as a parameter:
    the program passes [_l1_distance]. *)
Definition best_match_position_with
    (window_distance : list Q -> list Q -> Z -> result Q)
    (query reference : list Q) : result (Z * pyfloat) :=
  let max_offset := Py.len reference - Py.len query in
  if max_offset <? 0 then Ok (-1, Inf)
  else
    foldM (fun '(best_offset, best_distance) offset =>
             dist <- window_distance query reference offset ;;
             if float_lt (Fin dist) best_distance
             then Ok (offset, Fin dist)
             else Ok (best_offset, best_distance))
          (Py.range1 (max_offset + 1))
          (-1, Inf).

Definition best_match_position : list Q -> list Q -> result (Z * pyfloat) :=
  best_match_position_with _l1_distance.

Definition find_best_video (query : list Q) (references : list (list Q))
  : result (Z * Z * pyfloat) :=
  foldM (fun '(best_video, best_frame, best_distance) '(video_idx, ref) =>
           '(frame, dist) <- best_match_position query ref ;;
           if float_lt dist best_distance
           then Ok (video_idx, frame, dist)
           else Ok (best_video, best_frame, best_distance))
        (Py.enumerate references)
        (-1, -1, Inf).

(** ** fingerprinter.py: the matcher in binary64

    The matcher above computes on exact values.  The interpreter computes
    in binary64: every difference and every partial sum is rounded to the
    nearest float, a result beyond the range is an infinity, and a
    comparison with [nan] is false.  This module is the matcher on the
    binary64 numbers of the kernel, operation by operation; every statement
    about the distances the program compares is made on it. *)

Module Binary64.
Import PrimFloat.

(** [sum(terms)] on floats: it starts from the integer [0], which the
    first addition converts to [0.0], and adds from the left. *)
Definition sum (terms : list float) : float := fold_left add terms zero.

Definition _l1_distance (query reference : list float) (offset : Z)
  : result float :=
  terms <- mapM (fun '(j, q) =>
                   r <- Py.index reference (offset + j) ;;
                   Ok (abs (q - r)%float))
                (Py.enumerate query) ;;
  Ok (sum terms).

(** [best_match_position], with the distance of a window as a parameter:
    the program passes [_l1_distance]. *)
Definition best_match_position_with
    (window_distance : list float -> list float -> Z -> result float)
    (query reference : list float) : result (Z * float) :=
  let max_offset := Py.len reference - Py.len query in
  if max_offset <? 0 then Ok (-1, infinity)
  else
    foldM (fun '(best_offset, best_distance) offset =>
             dist <- window_distance query reference offset ;;
             if (dist <? best_distance)%float
             then Ok (offset, dist)
             else Ok (best_offset, best_distance))
          (Py.range1 (max_offset + 1))
          (-1, infinity).

Definition best_match_position
  : list float -> list float -> result (Z * float) :=
  best_match_position_with _l1_distance.

Definition find_best_video (query : list float) (references : list (list float))
  : result (Z * Z * float) :=
  foldM (fun '(best_video, best_frame, best_distance) '(video_idx, ref) =>
           '(frame, dist) <- best_match_position query ref ;;
           if (dist <? best_distance)%float
           then Ok (video_idx, frame, dist)
           else Ok (best_video, best_frame, best_distance))
        (Py.enumerate references)
        (-1, -1, infinity).

(** *** Specification-side definitions *)

(** The distance of the window of [reference] at [offset] as the program
    computes it: the terms [|query[j] - reference[offset + j]|], for [j]
    from [0], each rounded, added from the left with a rounding at each
    addition. *)
Definition l1_window (query reference : list float) (offset : Z) : float :=
  sum (map (fun j => abs (nth j query zero
                          - nth (Z.to_nat offset + j) reference zero)%float)
           (seq 0 (List.length query))).


(** One step of a scan that replaces the best candidate only by a strictly
    better one, for the comparison of floats. *)
Definition improve {K : Type} (best cand : K * float) : K * float :=
  if (snd cand <? snd best)%float then cand else best.

(** The pair returned by [best_match_position], which never raises. *)
Definition bmp_value (query reference : list float) : Z * float :=
  match best_match_position query reference with
  | Ok x => x
  | Raise _ => (-1, infinity)
  end.

End Binary64.

(** ** The file system

    A path is the list of its components below the working directory; the
    file system is an association list from paths to nodes, whose order is
    the order in which the file system enumerates its entries. *)

Module Fs.

Definition path : Type := list string.

Inductive node : Type :=
| Dir
| File (content : string).

Definition t : Type := list (path * node).

Definition path_eqb (p q : path) : bool :=
  if list_eq_dec string_dec p q then true else false.

Fixpoint lookup (fs : t) (p : path) : option node :=
  match fs with
  | [] => None
  | (q, n) :: fs' => if path_eqb q p then Some n else lookup fs' p
  end.

(** The working directory itself always exists. *)
Definition stat (fs : t) (p : path) : option node :=
  match p with
  | [] => Some Dir
  | _ => lookup fs p
  end.

(** [p.exists()]. *)
Definition exists_ (fs : t) (p : path) : bool :=
  match stat fs p with
  | Some _ => true
  | None => false
  end.

(** [p.parent] and [p / name]. *)
Definition parent (p : path) : path := removelast p.
Definition join (p : path) (name : string) : path := p ++ [name].

(** [p.mkdir(parents=True, exist_ok=True)]: every missing ancestor is
    created, outermost first; an ancestor that is a regular file raises
    [NotADirectoryError], and [p] itself being a regular file raises
    [FileExistsError]. *)
Fixpoint mkdir_from (fs : t) (done todo : path) : result t :=
  match todo with
  | [] => Ok fs
  | c :: todo' =>
      let q := done ++ [c] in
      match lookup fs q with
      | Some Dir => mkdir_from fs q todo'
      | Some (File _) =>
          match todo' with
          | [] => Raise FileExistsError
          | _ => Raise NotADirectoryError
          end
      | None => mkdir_from (fs ++ [(q, Dir)]) q todo'
      end
  end.

Definition mkdir_parents_exist_ok (fs : t) (p : path) : result t :=
  mkdir_from fs [] p.

Fixpoint replace (fs : t) (p : path) (n : node) : t :=
  match fs with
  | [] => []
  | (q, m) :: fs' =>
      if path_eqb q p then (q, n) :: fs' else (q, m) :: replace fs' p n
  end.

(** The error of opening a path of which a component has no entry: the
    components are resolved from the working directory down, and the first
    one that is not a directory decides, [NotADirectoryError] when it is a
    regular file and [FileNotFoundError] when it is missing. *)
Fixpoint missing_error (fs : t) (done todo : path) : exn :=
  match todo with
  | [] => FileNotFoundError
  | c :: todo' =>
      let q := done ++ [c] in
      match lookup fs q with
      | Some Dir => missing_error fs q todo'
      | Some (File _) => NotADirectoryError
      | None => FileNotFoundError
      end
  end.

(** [p.write_text(content)]: the parent must be a directory and [p] must
    not be one; an existing file is overwritten in place, a new file is
    a new entry. *)
Definition write_text (fs : t) (p : path) (content : string) : result t :=
  match p with
  | [] => Raise IsADirectoryError
  | _ =>
      match stat fs (parent p) with
      | None => Raise (missing_error fs [] (parent p))
      | Some (File _) => Raise NotADirectoryError
      | Some Dir =>
          match lookup fs p with
          | Some Dir => Raise IsADirectoryError
          | Some (File _) => Ok (replace fs p (File content))
          | None => Ok (fs ++ [(p, File content)])
          end
      end
  end.

(** [p.read_text()]: the text of a regular file; a directory raises
    [IsADirectoryError], and a path without an entry the error of the first
    component of its parent that is not a directory. *)
Definition read_text (fs : t) (p : path) : result string :=
  match stat fs p with
  | Some (File content) => Ok content
  | Some Dir => Raise IsADirectoryError
  | None => Raise (missing_error fs [] (parent p))
  end.

(** The names of the entries whose parent is [d], in the order of the file
    system. *)
Definition children (fs : t) (d : path) : list string :=
  flat_map (fun '(q, _) =>
              match rev q with
              | name :: rd => if path_eqb (rev rd) d then [name] else []
              | [] => []
              end) fs.

(** The entries directly inside the directory [d]; nothing when [d] is
    not a directory. *)
Definition listdir (fs : t) (d : path) : list string :=
  match stat fs d with
  | Some Dir => children fs d
  | _ => []
  end.

Definition suffix (s1 s2 : string) : bool :=
  (String.length s1 <=? String.length s2)%nat
  && String.eqb s1 (substring (String.length s2 - String.length s1)
                              (String.length s1) s2).

(** [d.glob(pre + "*" + suf)], for a pattern with a single star. *)
Definition glob (fs : t) (d : path) (pre suf : string) : list path :=
  map (join d)
      (filter (fun name =>
                 prefix pre name && suffix suf name
                 && (String.length pre + String.length suf
                     <=? String.length name)%nat)
              (listdir fs d)).

End Fs.

(** ** Strings and integers *)

(** [str(n)] for an integer. *)
Definition str (n : Z) : string := DecimalString.NilZero.string_of_int (Z.to_int n).

(** A character of a name is a code point below 256.  The decimal digits
    are the characters [0] to [9]. *)
Definition isdecimal (c : ascii) : bool :=
  (48 <=? nat_of_ascii c)%nat && (nat_of_ascii c <=? 57)%nat.

(** [str.isdigit] of a character: below 256 it holds of the decimal digits
    and of the superscript digits two, three and one (code points 178, 179
    and 185), which [int] does not read. *)
Definition isdigit (c : ascii) : bool :=
  isdecimal c
  || (nat_of_ascii c =? 178)%nat || (nat_of_ascii c =? 179)%nat
  || (nat_of_ascii c =? 185)%nat.

(** ["".join(filter(f, s))]. *)
Fixpoint filter_string (f : ascii -> bool) (s : string) : string :=
  match s with
  | EmptyString => EmptyString
  | String c s' =>
      if f c then String c (filter_string f s') else filter_string f s'
  end.

(** [int(s)] for a string of decimal digits; anything else raises
    [ValueError]. *)
Definition int_of_string (s : string) : result Z :=
  match s with
  | EmptyString => Raise ValueError
  | _ => match DecimalString.NilEmpty.uint_of_string s with
         | Some u => Ok (Z.of_uint u)
         | None => Raise ValueError
         end
  end.

(** Position of the last dot of a name. *)
Fixpoint rfind_dot (s : string) : option nat :=
  match s with
  | EmptyString => None
  | String c s' =>
      match rfind_dot s' with
      | Some i => Some (S i)
      | None => if Ascii.eqb c "." then Some O else None
      end
  end.

(** [p.stem]: the final component without its last suffix; a leading or a
    trailing dot does not start a suffix. *)
Definition stem (p : Fs.path) : string :=
  let name := last p EmptyString in
  match rfind_dot name with
  | Some i =>
      if (0 <? i)%nat && (i <? String.length name - 1)%nat
      then substring 0 i name
      else name
  | None => name
  end.

(** [sorted(l, key=key)]: the key of every element is computed first, in
    order (an exception of [key] aborts the call), then the elements are
    sorted by ascending key, elements of equal keys keeping their order. *)
Section Sorted.
Context {A : Type}.

Fixpoint insert_by (x : Z * A) (l : list (Z * A)) : list (Z * A) :=
  match l with
  | [] => [x]
  | y :: l' => if fst x <=? fst y then x :: l else y :: insert_by x l'
  end.

Definition stable_sort (l : list (Z * A)) : list (Z * A) :=
  fold_right insert_by [] l.

Definition sorted (key : A -> result Z) (l : list A) : result (list A) :=
  keys <- mapM key l ;;
  Ok (map snd (stable_sort (combine keys l))).
End Sorted.

(** ** reference_store.py *)

Definition FINGERPRINT_DIR : Fs.path := ["fingerprints"%string].

Section Store.

(** [json.dumps(_, separators=(",", ":"))] and [json.loads] of the
    standard library, on fingerprints. *)
Variable json_dumps : list Q -> string.
Variable json_loads : string -> result (list Q).

Definition _path_for (video_index : Z) (directory : Fs.path) : Fs.path :=
  Fs.join directory ("video" ++ str video_index ++ ".json")%string.

Definition save_fingerprint (fingerprint : list Q) (video_index : Z)
    (directory : Fs.path) (fs : Fs.t) : result Fs.t :=
  fs <- Fs.mkdir_parents_exist_ok fs directory ;;
  let path := _path_for video_index directory in
  Fs.write_text fs path (json_dumps fingerprint).

Definition load_fingerprint (video_index : Z) (directory : Fs.path)
    (fs : Fs.t) : result (list Q) :=
  let path := _path_for video_index directory in
  text <- Fs.read_text fs path ;;
  json_loads text.

Definition _index (p : Fs.path) : result Z :=
  match filter_string isdigit (stem p) with
  | EmptyString => Ok (-1)
  | digits => int_of_string digits
  end.

Definition load_all_fingerprints (directory : Fs.path) (fs : Fs.t)
  : result (list (list Q)) :=
  if negb (Fs.exists_ fs directory) then Ok []
  else
    paths <- sorted _index (Fs.glob fs directory "video" ".json") ;;
    mapM (fun p => text <- Fs.read_text fs p ;; json_loads text) paths.

End Store.

(** ** A concrete JSON codec for fingerprints

    The store treats [json] as a black box.  This module gives the codec on
    the documents the store actually holds: arrays of numbers with one
    decimal, such as [[0.1,0.4,0.9,0.2]]. *)

Module Json.

(** [repr] of a float that is a multiple of one tenth, as every value of
    a fingerprint is: the integer part, a dot and one digit.  (On another
    value the model prints the tenths below it.) *)
Definition float_repr (q : Q) : string :=
  let k := Qfloor (q * inject_Z 10) in
  let sign := if k <? 0 then "-"%string else EmptyString in
  let int_part := str (Z.abs k / 10) in
  let digit := str (Z.abs k mod 10) in
  (sign ++ int_part ++ "." ++ digit)%string.

Definition dumps (l : list Q) : string :=
  ("[" ++ String.concat "," (map float_repr l) ++ "]")%string.

(** [s.split(c)]. *)
Fixpoint split_on (c : ascii) (s : string) : list string :=
  match s with
  | EmptyString => [EmptyString]
  | String a s' =>
      if Ascii.eqb a c then EmptyString :: split_on c s'
      else match split_on c s' with
           | w :: ws => String a w :: ws
           | [] => [String a EmptyString]
           end
  end.

Definition decode (r : result Z) : result Z :=
  match r with
  | Ok z => Ok z
  | Raise _ => Raise JSONDecodeError
  end.

(** A JSON number without exponent: an optional sign, digits, and
    optionally a dot and more digits. *)
Definition parse_number (t : string) : result Q :=
  let '(sign, t) := match t with
                    | String "-" r => (-1, r)
                    | _ => (1, t)
                    end in
  match split_on "." t with
  | [ip] => i <- decode (int_of_string ip) ;; Ok (Qmake (sign * i) 1)
  | [ip; fp] =>
      i <- decode (int_of_string ip) ;;
      f <- decode (int_of_string fp) ;;
      let scale := 10 ^ Z.of_nat (String.length fp) in
      Ok (Qmake (sign * (i * scale + f)) (Z.to_pos scale))
  | _ => Raise JSONDecodeError
  end.

Definition loads (s : string) : result (list Q) :=
  match s with
  | String "[" r =>
      if Fs.suffix "]" r then
        let body := substring 0 (String.length r - 1) r in
        match body with
        | EmptyString => Ok []
        | _ => mapM parse_number (split_on "," body)
        end
      else Raise JSONDecodeError
  | _ => Raise JSONDecodeError
  end.

End Json.

(** ** Specification-side definitions *)

(** The L1 distance of the window of [reference] at [offset], as the
    specification words it: the sum over [j] in [[0, len(query))] of
    [|query[j] - reference[offset + j]|]. *)
Definition l1_window (query reference : list Q) (offset : Z) : Q :=
  Py.sum (map (fun j => Qabs (nth j query 0%Q
                              - nth (Z.to_nat offset + j) reference 0%Q)%Q)
              (seq 0 (List.length query))).

(** The order of floats, [math.inf] being the greatest. *)
Definition fle (a b : pyfloat) : Prop :=
  match a, b with
  | Fin x, Fin y => (x <= y)%Q
  | _, Inf => True
  | Inf, Fin _ => False
  end.

Definition flt (a b : pyfloat) : Prop :=
  match a, b with
  | Fin x, Fin y => (x < y)%Q
  | Fin _, Inf => True
  | Inf, _ => False
  end.

(** One step of a scan that keeps the best candidate seen so far and
    replaces it only by a strictly better one; both loops of the matcher
    are folds of this step. *)
Definition improve {K : Type} (best cand : K * pyfloat) : K * pyfloat :=
  if float_lt (snd cand) (snd best) then cand else best.

(** The pair returned by [best_match_position], which never raises (see
    [best_match_position_value]). *)
Definition bmp_value (query reference : list Q) : Z * pyfloat :=
  match best_match_position query reference with
  | Ok x => x
  | Raise _ => (-1, Inf)
  end.

(** The index read from the name of a record, for sorting. *)
Definition index_value (p : Fs.path) : Z :=
  match _index p with
  | Ok z => z
  | Raise _ => -1
  end.

(** Every character of [s] that [str.isdigit] takes for a digit is a
    decimal digit, one that [int] reads. *)
Fixpoint decimal_digits (s : string) : bool :=
  match s with
  | EmptyString => true
  | String c s' => (negb (isdigit c) || isdecimal c) && decimal_digits s'
  end.

(** The fingerprint of index [i] in a reference database. *)
Definition stored (db : list (Z * list Q)) (i : Z) : list Q :=
  match find (fun r => fst r =? i) db with
  | Some r => snd r
  | None => []
  end.

(** A directory holds the reference database [db] when its matching
    records are exactly the records [video<i>.json] of the indices of [db],
    in whatever order the file system enumerates them, each containing the
    JSON document of its fingerprint.  Indices are natural numbers and no
    index occurs twice. *)
Definition holds (json_dumps : list Q -> string) (fs : Fs.t) (d : Fs.path)
    (db : list (Z * list Q)) : Prop :=
  NoDup (map fst db)
  /\ Permutation (Fs.glob fs d "video" ".json")
                 (map (fun r => _path_for (fst r) d) db)
  /\ forall i fp, In (i, fp) db ->
                  0 <= i
                  /\ Fs.read_text fs (_path_for i d) = Ok (json_dumps fp).

(** The file system after saving, from scratch, the fingerprints of the
    videos 3, 1 and 2, in this order. *)
Definition fs_312 : Fs.t :=
  Eval vm_compute in
    match
      (fs <- save_fingerprint Json.dumps [3#10; 3#10]%Q 3 FINGERPRINT_DIR [] ;;
       fs <- save_fingerprint Json.dumps [1#10]%Q 1 FINGERPRINT_DIR fs ;;
       save_fingerprint Json.dumps [2#10; 0#10]%Q 2 FINGERPRINT_DIR fs)
    with
    | Ok fs => fs
    | Raise _ => []
    end.

(** The invariant of the data model: every value of a fingerprint is a
    non-negative number of tenths. *)
Definition fingerprint (f : list Q) : Prop :=
  Forall (fun v => exists k, 0 <= k /\ v = Qmake k 10) f.

(** [avoids c s]: the character [c] does not occur in [s]. *)
Fixpoint avoids (c : ascii) (s : string) : Prop :=
  match s with
  | EmptyString => True
  | String a s' => a <> c /\ avoids c s'
  end.

(** Saving a record in a reference database: the fingerprint of an index
    already present is replaced in place, a new index comes last. *)
Fixpoint db_save (db : list (Z * list Q)) (i : Z) (f : list Q)
  : list (Z * list Q) :=
  match db with
  | [] => [(i, f)]
  | (j, g) :: db' => if j =? i then (j, f) :: db' else (j, g) :: db_save db' i f
  end.

(** Saving a sequence of records, one after the other, as the index build
    of [main.py] does. *)
Definition save_all (json_dumps : list Q -> string)
    (records : list (Z * list Q)) (d : Fs.path) (fs : Fs.t) : result Fs.t :=
  foldM (fun fs '(i, f) => save_fingerprint json_dumps f i d fs) records fs.

(** The invariant of a directory that is only written by
    [save_fingerprint]: the matching entries below [d], whether or not [d]
    exists yet, are the records of [db], in the order of [db], and each
    record holds the JSON document of its fingerprint. *)
Definition written (json_dumps : list Q -> string) (fs : Fs.t) (d : Fs.path)
    (db : list (Z * list Q)) : Prop :=
  NoDup (map fst db)
  /\ map (Fs.join d)
         (filter (fun name =>
                    prefix "video" name && Fs.suffix ".json" name
                    && (String.length "video" + String.length ".json"
                        <=? String.length name)%nat)
                 (Fs.children fs d))
     = map (fun r => _path_for (fst r) d) db
  /\ forall i fp, In (i, fp) db ->
                  0 <= i
                  /\ Fs.lookup fs (_path_for i d) = Some (Fs.File (json_dumps fp)).

(** ** reference_store.py: the reference videos *)

(** [range(start, stop)]. *)
Definition range2 (start stop : Z) : list Z :=
  map (fun i => start + Z.of_nat i) (seq 0 (Z.to_nat (stop - start))).

(** The generator [iter_video_paths], as the list of the pairs it yields. *)
Definition iter_video_paths (video_dir : Fs.path) (count : Z)
    (extension : string) : list (Z * Fs.path) :=
  map (fun i => (i, Fs.join video_dir ("video" ++ str i ++ extension)%string))
      (range2 1 (count + 1)).

(** ** main.py

    The script acts on the file system, writes on the standard output and
    opens the player.  A run ends by returning, by an exception or by
    [sys.exit]; in each case the world reached so far remains. *)

Record world : Type := World {
  w_fs : Fs.t;
  w_stdout : list string;
  w_player : list (string * Z)
}.

Inductive exit_status : Type :=
| ExitCode (n : Z)
| ExitMessage (msg : string).

Inductive signal : Type :=
| Exception (e : exn)
| SystemExit (status : exit_status).

Inductive outcome (A : Type) : Type :=
| Return (a : A) (w : world)
| Abort (s : signal) (w : world).

Arguments Return {A} a w.
Arguments Abort {A} s w.

Definition prog (A : Type) : Type := world -> outcome A.

Definition ret {A : Type} (a : A) : prog A := fun w => Return a w.

Definition bind_prog {A B : Type} (c : prog A) (k : A -> prog B) : prog B :=
  fun w =>
    match c w with
    | Return a w' => k a w'
    | Abort s w' => Abort s w'
    end.

Notation "' pat <~ c ;; k" :=
  (bind_prog c (fun x => match x with pat => k end))
  (at level 61, pat pattern, c at next level, right associativity) : py_scope.
Notation "x <~ c ;; k" := (bind_prog c (fun x => k))
  (at level 61, c at next level, right associativity) : py_scope.

(** A computation that does not touch the world. *)
Definition lift {A : Type} (r : result A) : prog A :=
  fun w =>
    match r with
    | Ok a => Return a w
    | Raise e => Abort (Exception e) w
    end.

(** Reading from, and acting on, the file system; an operation that raises
    leaves the file system as it was. *)
Definition read_fs {A : Type} (f : Fs.t -> A) : prog A :=
  fun w => Return (f (w_fs w)) w.

Definition update_fs (op : Fs.t -> result Fs.t) : prog unit :=
  fun w =>
    match op (w_fs w) with
    | Ok fs' => Return tt (World fs' (w_stdout w) (w_player w))
    | Raise e => Abort (Exception e) w
    end.

(** [print(text, end=end_)]. *)
Definition print (text end_ : string) : prog unit :=
  fun w =>
    Return tt (World (w_fs w) (w_stdout w ++ [(text ++ end_)%string])
                     (w_player w)).

Definition newline : string := String "010"%char EmptyString.

(** [sys.exit(status)]. *)
Definition sys_exit {A : Type} (status : exit_status) : prog A :=
  fun w => Abort (SystemExit status) w.

(** [for x in l: body(x)]. *)
Fixpoint for_each {A : Type} (l : list A) (body : A -> prog unit) : prog unit :=
  match l with
  | [] => ret tt
  | x :: l' => 'tt <~ body x ;; for_each l' body
  end.

(** [str(p)] and [p.name] of a path. *)
Definition path_str (p : Fs.path) : string :=
  match p with
  | [] => "."%string
  | _ => String.concat "/" p
  end.

Definition path_name (p : Fs.path) : string := last p EmptyString.

(** [f"{x:.2f}"]: two decimals, a tie going to the even hundredth;
    [math.inf] prints as [inf]. *)
Definition format_2f (x : pyfloat) : string :=
  match x with
  | Inf => "inf"%string
  | Fin q =>
      let t := (Qabs q * inject_Z 100)%Q in
      let f := Qfloor t in
      let k := match (t - inject_Z f ?= 1 # 2)%Q with
               | Lt => f
               | Gt => f + 1
               | Eq => if Z.even f then f else f + 1
               end in
      let sign := if Qlt_bool q 0 then "-"%string else EmptyString in
      let cents := k mod 100 in
      let pad := if cents <? 10 then "0"%string else EmptyString in
      (sign ++ str (k / 100) ++ "." ++ pad ++ str cents)%string
  end.

Section Main.

(** The collaborators of the script: the audio decoder, the JSON codec, and
    the Qt application running the player, of which only the exit code
    matters here. *)
Variable librosa_load : string -> result (list Q * Z).
Variable json_dumps : list Q -> string.
Variable json_loads : string -> result (list Q).
Variable qt_exec : string -> Z -> Z.

(** The functions imported from [fingerprinter] and [reference_store], as
    the script runs them. *)
Definition extract_fingerprint_io (audio_path : Fs.path) : prog (list Q) :=
  lift (extract_fingerprint librosa_load (path_str audio_path)).

Definition save_fingerprint_io (fingerprint : list Q) (video_index : Z)
    (directory : Fs.path) : prog unit :=
  'tt <~ update_fs (fun fs => Fs.mkdir_parents_exist_ok fs directory) ;;
  let path := _path_for video_index directory in
  update_fs (fun fs => Fs.write_text fs path (json_dumps fingerprint)).

Definition load_all_fingerprints_io (directory : Fs.path)
  : prog (list (list Q)) :=
  fun w => lift (load_all_fingerprints json_loads directory (w_fs w)) w.

Definition build_index (audio_dir : Fs.path) (count : Z) : prog unit :=
  'tt <~ print ("Building fingerprint index from " ++ path_str audio_dir
                ++ " (" ++ str count ++ " videos)…") newline ;;
  'tt <~ for_each (iter_video_paths audio_dir count ".wav")
           (fun '(idx, audio_path) =>
              present <~ read_fs (fun fs => Fs.exists_ fs audio_path) ;;
              if negb present then
                print ("  [SKIP] " ++ path_str audio_path ++ " not found.")
                      newline
              else
                'tt <~ print ("  Indexing video " ++ str idx ++ ": "
                              ++ path_name audio_path) "" ;;
                fingerprint <~ extract_fingerprint_io audio_path ;;
                'tt <~ save_fingerprint_io fingerprint idx FINGERPRINT_DIR ;;
                print ("  (" ++ str (Py.len fingerprint) ++ " seconds)")
                      newline) ;;
  print ("Done. Fingerprints saved to '" ++ path_str FINGERPRINT_DIR ++ "/'.")
        newline.

(** [_launch_player]: the player is built on the video, the application
    runs, and the script exits with its code. *)
Definition _launch_player {A : Type} (video_path : string) (start_second : Z)
  : prog A :=
  fun w =>
    Abort (SystemExit (ExitCode (qt_exec video_path start_second)))
          (World (w_fs w) (w_stdout w)
                 (w_player w ++ [(video_path, start_second)])).

Definition run_query (query_audio query_video : Fs.path) : prog unit :=
  references <~ load_all_fingerprints_io FINGERPRINT_DIR ;;
  match references with
  | [] =>
      sys_exit (ExitMessage ("No fingerprints found in '"
                             ++ path_str FINGERPRINT_DIR
                             ++ "/'. Run with --build-index first."))
  | _ =>
      'tt <~ print ("Loaded " ++ str (Py.len references)
                    ++ " reference fingerprints.") newline ;;
      'tt <~ print ("Extracting query fingerprint from '"
                    ++ path_str query_audio ++ "'…") newline ;;
      query_fp <~ extract_fingerprint_io query_audio ;;
      'tt <~ print ("Query length: " ++ str (Py.len query_fp) ++ " second(s).")
                   newline ;;
      '(video_idx, frame, distance) <~
         lift (find_best_video query_fp references) ;;
      let video_number := video_idx + 1 in
      'tt <~ print (newline ++ "— Match found —") newline ;;
      'tt <~ print ("  Video   : video" ++ str video_number ++ ".mp4") newline ;;
      'tt <~ print ("  Frame   : " ++ str frame ++ "s") newline ;;
      'tt <~ print ("  L1 cost : " ++ format_2f distance) newline ;;
      _launch_player ("video" ++ str video_number ++ ".mp4") frame
  end.

End Main.

(** ** Specification-side definitions for the properties of the script *)

(** The peak of a second of audio that [np.max(np.abs(chunk))] must find. *)
Definition is_peak (y : list Q) (lo hi : Z) (m : Q) : Prop :=
  (exists j, lo <= j < hi /\ m = Qabs (nth (Z.to_nat j) y 0%Q))
  /\ forall j, lo <= j < hi -> (Qabs (nth (Z.to_nat j) y 0%Q) <= m)%Q.

(** The window of [reference] at [offset] is the query, value by value. *)
Definition window_is (query reference : list Q) (offset : Z) : Prop :=
  forall j, (j < List.length query)%nat ->
            (nth j query 0 == nth (Z.to_nat offset + j) reference 0)%Q.

(** The reference database [build_index] is to write: one record per audio
    file that exists, holding its fingerprint. *)
Definition indexed (librosa_load : string -> result (list Q * Z))
    (fs : Fs.t) (audio_dir : Fs.path) (count : Z) : list (Z * list Q) :=
  flat_map (fun '(idx, audio_path) =>
              if Fs.exists_ fs audio_path then
                match extract_fingerprint librosa_load (path_str audio_path) with
                | Ok fingerprint => [(idx, fingerprint)]
                | Raise _ => []
                end
              else [])
           (iter_video_paths audio_dir count ".wav").

(** The file system after saving, from scratch, the fingerprints of the
    videos 3 and 1: there is no record for the video 2. *)
Definition fs_13 : Fs.t :=
  Eval vm_compute in
    match
      (fs <- save_fingerprint Json.dumps [3#10; 3#10]%Q 3 FINGERPRINT_DIR [] ;;
       save_fingerprint Json.dumps [1#10]%Q 1 FINGERPRINT_DIR fs)
    with
    | Ok fs => fs
    | Raise _ => []
    end.

(** A path that [save_fingerprint] into [d] never creates. *)
Definition foreign_to (d p : Fs.path) : Prop :=
  (forall j, p <> _path_for j d) /\ (forall k, p <> firstn k d).

(** A small world for examples: of three expected audio files the second is
    missing, and the decoder returns two seconds of audio for the first and
    three for the third. *)
Definition fs_audio : Fs.t :=
  [ (["audio"], Fs.Dir);
    (["audio"; "video1.wav"], Fs.File "RIFF-1");
    (["audio"; "video3.wav"], Fs.File "RIFF-3") ]%string.

Definition decode_audio (path : string) : result (list Q * Z) :=
  if String.eqb path "audio/video1.wav" then
    Ok ([1#4; -3#4; 1#10; 1#20; 9#10]%Q, 2)
  else if String.eqb path "audio/video3.wav" then
    Ok ([1#2; -1; 1#4; 1#8]%Q, 1)
  else Raise FileNotFoundError.

(** The same decoder, but the third audio file holds no sample. *)
Definition decode_silent (path : string) : result (list Q * Z) :=
  if String.eqb path "audio/video3.wav" then Ok ([], 22050)
  else decode_audio path.

(** * Properties *)

Example extract_example :
  extract_fingerprint (fun _ => Ok ([1#4; -3#4; 1#10; 1#20; 9#10]%Q, 2)) "a.wav"
  = Ok [8#10; 1#10]%Q.
Proof. reflexivity. Qed.

Example best_match_position_example :
  exists d,
    best_match_position [1#10; 2#10]%Q [5#10; 1#10; 2#10; 9#10]%Q = Ok (1, Fin d)
    /\ (d == 0)%Q.
Proof. eexists. split; [lazy; reflexivity | reflexivity]. Qed.

Example best_match_position_self_example :
  exists d,
    best_match_position [3#10; 0#10; 7#10]%Q [3#10; 0#10; 7#10]%Q = Ok (0, Fin d)
    /\ (d == 0)%Q.
Proof. eexists. split; [lazy; reflexivity | reflexivity]. Qed.

Example json_example :
  Json.dumps [1#10; 4#10; 9#10; 12#10; 0#10]%Q = "[0.1,0.4,0.9,1.2,0.0]"%string
  /\ Json.loads "[0.1,0.4,0.9,1.2,0.0]" = Ok [1#10; 4#10; 9#10; 12#10; 0#10]%Q
  /\ Json.loads (Json.dumps []) = Ok [].
Proof. vm_compute. auto. Qed.

Example store_example :
  let fs0 : Fs.t := [] in
  let save := save_fingerprint Json.dumps in
  (fs1 <- save [3#10]%Q 3 FINGERPRINT_DIR fs0 ;;
   fs2 <- save [1#10]%Q 1 FINGERPRINT_DIR fs1 ;;
   fs3 <- save [2#10]%Q 2 FINGERPRINT_DIR fs2 ;;
   fs4 <- save [5#10]%Q 10 FINGERPRINT_DIR fs3 ;;
   load_all_fingerprints Json.loads FINGERPRINT_DIR fs4)
  = Ok [[1#10]; [2#10]; [3#10]; [5#10]]%Q.
Proof. vm_compute. reflexivity. Qed.

(** ** The error monad *)

Lemma bind_Ok_inv {A B : Type} (c : result A) (k : A -> result B) (b : B) :
  bind c k = Ok b -> exists a, c = Ok a /\ k a = Ok b.
Proof. destruct c as [a|e]; simpl; intros H; [eauto | discriminate]. Qed.

Lemma mapM_Forall2 {A B : Type} (f : A -> result B) (l : list A) (ys : list B) :
  mapM f l = Ok ys <-> Forall2 (fun x y => f x = Ok y) l ys.
Proof.
  revert ys; induction l as [|x l IH]; intros ys; simpl.
  - split; intros H.
    + injection H as <-. constructor.
    + inversion H. reflexivity.
  - split; intros H.
    + apply bind_Ok_inv in H as (y & Hy & H).
      apply bind_Ok_inv in H as (ys' & Hys & H).
      injection H as <-. constructor; [assumption|]. now apply IH.
    + inversion H as [|x' y l' ys' Hy Hys]; subst.
      rewrite Hy; simpl. apply IH in Hys. rewrite Hys. reflexivity.
Qed.

Lemma mapM_total {A B : Type} (f : A -> result B) (l : list A) :
  Forall (fun x => exists y, f x = Ok y) l -> exists ys, mapM f l = Ok ys.
Proof.
  induction 1 as [|x l (y & Hy) _ (ys & Hys)]; simpl.
  - eauto.
  - rewrite Hy, Hys. simpl. eauto.
Qed.

Lemma mapM_length {A B : Type} (f : A -> result B) (l : list A) (ys : list B) :
  mapM f l = Ok ys -> List.length ys = List.length l.
Proof.
  intros H. apply mapM_Forall2 in H. symmetry. eapply Forall2_length; eauto.
Qed.

(** ** Python primitives *)

Lemma pop_snoc {A : Type} (l : list A) (x : A) : Py.pop (l ++ [x]) = Ok (x, l).
Proof. unfold Py.pop. rewrite rev_app_distr. simpl. now rewrite rev_involutive. Qed.

Lemma range3_pos (n step : Z) :
  0 < step ->
  Py.range3 0 n step
  = Ok (map (fun i => Z.of_nat i * step)
            (seq 0 (Z.to_nat (if 0 <? n then (n - 1) / step + 1 else 0)))).
Proof.
  intros Hs. unfold Py.range3, Py.range_len.
  destruct (Z.eqb_spec step 0) as [->|_]; [lia|].
  destruct (Z.ltb_spec 0 step) as [_|]; [|lia].
  rewrite Z.sub_0_r. reflexivity.
Qed.

Lemma slice_nonempty {A : Type} (l : list A) (a b : Z) :
  0 <= a < Py.len l -> a < b -> Py.slice l a b <> [].
Proof.
  unfold Py.slice, Py.len, Py.clip. intros Ha Hb.
  destruct (Z.ltb_spec a 0); [lia|]. destruct (Z.ltb_spec b 0); [lia|].
  intros E. apply (f_equal (@List.length A)) in E.
  rewrite length_firstn, length_skipn in E. simpl in E. lia.
Qed.

(** ** The envelope extractor *)

Lemma np_max_In (l : list Q) (m : Q) : Py.np_max l = Ok m -> In m l.
Proof.
  destruct l as [|x l]; simpl; [discriminate|]. intros H; injection H as <-.
  revert x. induction l as [|y l IH]; intros x; simpl; [now left|].
  destruct (IH (Py.qmax x y)) as [E|HIn]; [|now right; right].
  rewrite <- E. unfold Py.qmax. destruct (Qle_bool x y); auto.
Qed.

Lemma np_max_abs_nonneg (chunk : list Q) (m : Q) :
  Py.np_max (Py.np_abs chunk) = Ok m -> (0 <= m)%Q.
Proof.
  intros H. apply np_max_In in H. unfold Py.np_abs in H.
  apply in_map_iff in H as (x & <- & _). apply Qabs_nonneg.
Qed.

Lemma np_max_total (l : list Q) : l <> [] -> exists m, Py.np_max l = Ok m.
Proof. destruct l; [congruence|]. simpl; eauto. Qed.

(** [round1] always yields a fraction over ten. *)
Lemma round1_tenths (x : Q) : exists k, Py.round1 x = Qmake k 10.
Proof. unfold Py.round1. eauto. Qed.

Lemma round1_of_tenths (k : Z) : Py.round1 (Qmake k 10) = Qmake k 10.
Proof.
  unfold Py.round1.
  assert (Hf : Qfloor (Qmake k 10 * inject_Z 10) = k).
  { unfold Qfloor, Qmult, inject_Z; simpl. now rewrite Z.div_mul. }
  rewrite Hf.
  assert (Hlt : ((Qmake k 10 * inject_Z 10 - inject_Z k)%Q ?= 1 # 2)%Q = Lt).
  { rewrite <- Qlt_alt. unfold Qlt, Qminus, Qplus, Qopp, Qmult, inject_Z; simpl. lia. }
  now rewrite Hlt.
Qed.

Lemma round1_idempotent (x : Q) : Py.round1 (Py.round1 x) = Py.round1 x.
Proof. destruct (round1_tenths x) as (k & ->). apply round1_of_tenths. Qed.

Lemma round1_nonneg (x : Q) : (0 <= x)%Q -> (0 <= Py.round1 x)%Q.
Proof.
  intros Hx. unfold Py.round1.
  assert (Hf : 0 <= Qfloor (x * inject_Z 10)).
  { change 0 with (Qfloor 0). apply Qfloor_resp_le.
    apply Qmult_le_0_compat; [assumption | discriminate]. }
  set (f := Qfloor (x * inject_Z 10)) in *.
  destruct (_ ?= _)%Q; [destruct (Z.even f)| |]; unfold Qle; simpl; lia.
Qed.

(** With at least one sample, the extractor succeeds and yields one value
    per chunk except the last one. *)
Lemma extract_fingerprint_nonempty
    (librosa_load : string -> result (list Q * Z)) (audio_path : string)
    (y : list Q) (sr : Z) :
  librosa_load audio_path = Ok (y, sr) ->
  0 < sr -> 0 < Py.len y ->
  exists fp, extract_fingerprint librosa_load audio_path = Ok fp
             /\ Py.len fp = (Py.len y - 1) / sr.
Proof.
  intros Hload Hsr Hy. unfold extract_fingerprint.
  rewrite Hload; simpl. rewrite (range3_pos _ _ Hsr); simpl.
  destruct (Z.ltb_spec 0 (Py.len y)) as [_|]; [|lia].
  set (c := (Py.len y - 1) / sr).
  assert (Hc : 0 <= c) by (apply Z.div_pos; lia).
  assert (Hmul : sr * c <= Py.len y - 1) by (apply Z.mul_div_le; lia).
  replace (Z.to_nat (c + 1)) with (S (Z.to_nat c)) by lia.
  rewrite seq_S, !map_app; simpl. rewrite pop_snoc; simpl.
  match goal with |- exists fp, mapM ?f ?l = _ /\ _ =>
    destruct (mapM_total f l) as (fp & Hfp)
  end.
  - apply Forall_forall. intros chunk Hin.
    apply in_map_iff in Hin as (offset & <- & Hin).
    apply in_map_iff in Hin as (i & <- & Hin).
    apply in_seq in Hin.
    destruct (np_max_total
                (Py.np_abs (Py.slice y (Z.of_nat i * sr) (Z.of_nat i * sr + sr))))
      as (m & Hm).
    + unfold Py.np_abs. intros E. apply map_eq_nil in E. revert E.
      apply slice_nonempty; nia.
    + rewrite Hm; simpl. eauto.
  - exists fp. split; [assumption|].
    apply mapM_length in Hfp. unfold Py.len at 1.
    rewrite Hfp, !length_map, length_seq. lia.
Qed.

(** Audio shorter than one second, but not empty, gives the empty
    fingerprint. *)
Lemma extract_fingerprint_short
    (librosa_load : string -> result (list Q * Z)) (audio_path : string)
    (y : list Q) (sr : Z) :
  librosa_load audio_path = Ok (y, sr) ->
  0 < Py.len y < sr ->
  extract_fingerprint librosa_load audio_path = Ok [].
Proof.
  intros Hload Hy.
  destruct (extract_fingerprint_nonempty _ _ _ _ Hload) as (fp & -> & Hlen);
    try lia.
  rewrite Z.div_small in Hlen by lia.
  destruct fp; [reflexivity | unfold Py.len in Hlen; simpl in Hlen; lia].
Qed.

(** C1 (the code departs from the claim).  When the decoded audio has no
    sample at all, the extractor does not return the empty fingerprint: the
    list of chunks is empty and [chunks.pop()] raises [IndexError]. *)
Theorem extract_fingerprint_empty_raises
    (librosa_load : string -> result (list Q * Z)) (audio_path : string)
    (sr : Z) :
  librosa_load audio_path = Ok ([], sr) ->
  0 < sr ->
  extract_fingerprint librosa_load audio_path = Raise IndexError.
Proof.
  intros Hload Hsr. unfold extract_fingerprint.
  rewrite Hload; simpl. rewrite (range3_pos _ _ Hsr). reflexivity.
Qed.

Lemma extract_fingerprint_empty_raises_witness :
  extract_fingerprint (fun _ => Ok ([], 22050)) "silence.wav" = Raise IndexError.
Proof.
  apply (extract_fingerprint_empty_raises (fun _ => Ok ([], 22050))
           "silence.wav" 22050); [reflexivity | lia].
Defined.

(** C2, as stated, fails: two samples at a sample rate of two are one full
    second, and the extractor returns no element instead of one. *)
Lemma extract_fingerprint_full_last_chunk_dropped :
  2 <= Py.len [3 # 10; -7 # 10]%Q
  /\ extract_fingerprint (fun _ => Ok ([3 # 10; -7 # 10]%Q, 2)) "one_second.wav"
     = Ok []
  /\ ~ (exists fp,
          extract_fingerprint (fun _ => Ok ([3 # 10; -7 # 10]%Q, 2))
                              "one_second.wav" = Ok fp
          /\ Py.len fp = Py.len [3 # 10; -7 # 10]%Q / 2).
Proof.
  split; [vm_compute; discriminate|]. split; [reflexivity|].
  intros (fp & Hfp & Hlen). vm_compute in Hfp. injection Hfp as <-.
  vm_compute in Hlen. discriminate.
Qed.

(** C2 (amended).  For [n >= sr > 0] samples the extractor succeeds and
    returns one element per chunk except the last chunk, which is always
    dropped: [(n - 1) / sr] elements.  This is [floor(n / sr)] when the
    last chunk is partial ([sr] does not divide [n]), and [n / sr - 1] when
    the last chunk is a full second. *)
Theorem extract_fingerprint_length
    (librosa_load : string -> result (list Q * Z)) (audio_path : string)
    (y : list Q) (sr : Z) :
  librosa_load audio_path = Ok (y, sr) ->
  0 < sr -> sr <= Py.len y ->
  exists fp, extract_fingerprint librosa_load audio_path = Ok fp
             /\ Py.len fp = (Py.len y - 1) / sr
             /\ (Py.len y mod sr <> 0 -> Py.len fp = Py.len y / sr)
             /\ (Py.len y mod sr = 0 -> Py.len fp = Py.len y / sr - 1).
Proof.
  intros Hload Hsr Hy.
  destruct (extract_fingerprint_nonempty _ _ _ _ Hload) as (fp & Hfp & Hlen);
    try lia.
  exists fp. split; [assumption|]. split; [assumption|]. rewrite Hlen.
  pose proof (Z.div_mod (Py.len y) sr ltac:(lia)) as Hdm.
  pose proof (Z.mod_pos_bound (Py.len y) sr Hsr) as Hmod.
  split; intros Hm.
  - symmetry. apply Z.div_unique with (r := Py.len y mod sr - 1); lia.
  - symmetry. apply Z.div_unique with (r := sr - 1); lia.
Qed.

Lemma extract_fingerprint_length_witness :
  exists fp,
    extract_fingerprint (fun _ => Ok ([1#4; -3#4; 1#10; 1#20; 9#10]%Q, 2)) "a.wav"
    = Ok fp
    /\ Py.len fp = (Py.len [1#4; -3#4; 1#10; 1#20; 9#10]%Q - 1) / 2
    /\ (Py.len [1#4; -3#4; 1#10; 1#20; 9#10]%Q mod 2 <> 0 ->
        Py.len fp = Py.len [1#4; -3#4; 1#10; 1#20; 9#10]%Q / 2)
    /\ (Py.len [1#4; -3#4; 1#10; 1#20; 9#10]%Q mod 2 = 0 ->
        Py.len fp = Py.len [1#4; -3#4; 1#10; 1#20; 9#10]%Q / 2 - 1).
Proof.
  apply (extract_fingerprint_length
           (fun _ => Ok ([1#4; -3#4; 1#10; 1#20; 9#10]%Q, 2)) "a.wav"
           [1#4; -3#4; 1#10; 1#20; 9#10]%Q 2);
    [reflexivity | lia | vm_compute; discriminate].
Defined.

(** C9.  Every value of a fingerprint returned by the extractor is
    non-negative and is left unchanged by rounding to one decimal. *)
Theorem extract_fingerprint_values
    (librosa_load : string -> result (list Q * Z)) (audio_path : string)
    (fp : list Q) :
  extract_fingerprint librosa_load audio_path = Ok fp ->
  Forall (fun v => (0 <= v)%Q /\ (Py.round1 v == v)%Q) fp.
Proof.
  unfold extract_fingerprint. intros H.
  apply bind_Ok_inv in H as ([y sr] & _ & H).
  apply bind_Ok_inv in H as (offsets & _ & H).
  apply bind_Ok_inv in H as ([last chunks] & _ & H).
  apply mapM_Forall2 in H.
  induction H as [|chunk v chunks fp Hv _ IH]; constructor; [|exact IH].
  apply bind_Ok_inv in Hv as (m & Hm & Hv). injection Hv as <-.
  split.
  - apply round1_nonneg. eapply np_max_abs_nonneg; eauto.
  - rewrite round1_idempotent. reflexivity.
Qed.

Lemma extract_fingerprint_values_witness :
  Forall (fun v => (0 <= v)%Q /\ (Py.round1 v == v)%Q) [8#10; 1#10]%Q.
Proof.
  apply (extract_fingerprint_values
           (fun _ => Ok ([1#4; -3#4; 1#10; 1#20; 9#10]%Q, 2)) "a.wav").
  reflexivity.
Defined.

(** ** The order of floats *)

Lemma Qlt_bool_iff (x y : Q) : Qlt_bool x y = true <-> (x < y)%Q.
Proof.
  unfold Qlt_bool. rewrite negb_true_iff, <- not_true_iff_false, Qle_bool_iff.
  split; [apply Qnot_le_lt | apply Qlt_not_le].
Qed.

Lemma float_lt_flt (a b : pyfloat) : float_lt a b = true <-> flt a b.
Proof.
  destruct a, b; simpl; try apply Qlt_bool_iff; intuition discriminate.
Qed.

Lemma float_lt_fle (a b : pyfloat) : float_lt a b = false <-> fle b a.
Proof.
  destruct a as [x|], b as [y|]; simpl; try (intuition discriminate).
  rewrite <- not_true_iff_false, Qlt_bool_iff.
  split; [apply Qnot_lt_le | apply Qle_not_lt].
Qed.

Lemma fle_refl (a : pyfloat) : fle a a.
Proof. destruct a; simpl; [apply Qle_refl | exact I]. Qed.

Lemma flt_fle (a b : pyfloat) : flt a b -> fle a b.
Proof. destruct a, b; simpl; auto using Qlt_le_weak. Qed.

Lemma flt_trans (a b c : pyfloat) : flt a b -> flt b c -> flt a c.
Proof. destruct a, b, c; simpl; try tauto. apply Qlt_trans. Qed.

Lemma flt_fle_trans (a b c : pyfloat) : flt a b -> fle b c -> flt a c.
Proof. destruct a, b, c; simpl; try tauto. apply Qlt_le_trans. Qed.

(** ** Scans that keep the first minimum *)

Section Scan.
Context {K : Type} (dflt : K * pyfloat).

(** The result of a scan is either the initial candidate, when no
    candidate of the list is strictly better, or the first candidate of
    the list of minimal distance. *)
Lemma scan_first_min (cands : list (K * pyfloat)) (init : K * pyfloat) :
  (fold_left improve cands init = init
   /\ forall j, (j < List.length cands)%nat ->
                fle (snd init) (snd (nth j cands dflt)))
  \/ (exists i, (i < List.length cands)%nat
                /\ fold_left improve cands init = nth i cands dflt
                /\ flt (snd (nth i cands dflt)) (snd init)
                /\ forall j, (j < List.length cands)%nat ->
                     fle (snd (nth i cands dflt)) (snd (nth j cands dflt))
                     /\ ((j < i)%nat ->
                         flt (snd (nth i cands dflt)) (snd (nth j cands dflt)))).
Proof.
  revert init. induction cands as [|c cands IH]; intros init.
  - left. split; [reflexivity|]. intros j Hj. inversion Hj.
  - cbn [fold_left].
    destruct (float_lt (snd c) (snd init)) eqn:E.
    + replace (improve init c) with c by (unfold improve; now rewrite E).
      apply float_lt_flt in E. right.
      destruct (IH c) as [(Hr & Hall)|(i & Hi & Hr & Hlt & Hall)].
      * exists O. cbn [nth List.length].
        split; [lia|]. split; [assumption|]. split; [assumption|].
        intros j Hj. split; [|lia].
        destruct j as [|j]; [apply fle_refl | apply Hall; lia].
      * exists (S i). cbn [nth List.length].
        split; [lia|]. split; [assumption|].
        split; [eapply flt_trans; eauto|].
        intros j Hj.
        destruct j as [|j]; [split; [now apply flt_fle | now intros _]|].
        destruct (Hall j) as (H1 & H2); [lia|].
        split; [assumption | intros; apply H2; lia].
    + replace (improve init c) with init by (unfold improve; now rewrite E).
      apply float_lt_fle in E.
      destruct (IH init) as [(Hr & Hall)|(i & Hi & Hr & Hlt & Hall)].
      * left. split; [assumption|].
        intros [|j] Hj; [assumption | apply Hall; simpl in Hj; lia].
      * right. exists (S i). cbn [nth List.length].
        split; [lia|]. split; [assumption|]. split; [assumption|].
        intros j Hj.
        assert (Hc : flt (snd (nth i cands dflt)) (snd c))
          by (eapply flt_fle_trans; eauto).
        destruct j as [|j]; [split; [now apply flt_fle | now intros _]|].
        destruct (Hall j) as (H1 & H2); [lia|].
        split; [assumption | intros; apply H2; lia].
Qed.
End Scan.

(** ** Ranges, indexing and enumeration *)

Lemma range1_length (n : Z) : List.length (Py.range1 n) = Z.to_nat n.
Proof. unfold Py.range1. now rewrite length_map, length_seq. Qed.

Lemma range1_nth (n : Z) (i : nat) (d : Z) :
  (i < Z.to_nat n)%nat -> nth i (Py.range1 n) d = Z.of_nat i.
Proof.
  intros Hi. unfold Py.range1.
  rewrite (nth_indep _ d (Z.of_nat 0)) by (now rewrite length_map, length_seq).
  rewrite map_nth, seq_nth by assumption. reflexivity.
Qed.

Lemma range1_In (n o : Z) : In o (Py.range1 n) <-> 0 <= o < n.
Proof.
  unfold Py.range1. rewrite in_map_iff. split.
  - intros (i & <- & Hi). apply in_seq in Hi. lia.
  - intros Ho. exists (Z.to_nat o). rewrite in_seq. lia.
Qed.

Lemma index_nth {A : Type} (l : list A) (k : Z) (d : A) :
  0 <= k < Py.len l -> Py.index l k = Ok (nth (Z.to_nat k) l d).
Proof.
  unfold Py.index, Py.len. intros Hk.
  destruct (Z.ltb_spec k 0); [lia|]. destruct (Z.ltb_spec k 0); [lia|].
  destruct (nth_error l (Z.to_nat k)) eqn:E.
  - now rewrite (nth_error_nth _ _ d E).
  - apply nth_error_None in E. lia.
Qed.

Lemma enumerate_length {A : Type} (l : list A) :
  List.length (Py.enumerate l) = List.length l.
Proof.
  unfold Py.enumerate, Py.len.
  rewrite length_combine, range1_length. lia.
Qed.

Lemma enumerate_nth {A : Type} (l : list A) (i : nat) (dz : Z) (d : A) :
  (i < List.length l)%nat ->
  nth i (Py.enumerate l) (dz, d) = (Z.of_nat i, nth i l d).
Proof.
  intros Hi. unfold Py.enumerate, Py.len.
  rewrite combine_nth by (rewrite range1_length; lia).
  rewrite range1_nth by lia. reflexivity.
Qed.

Lemma mapM_nth {A B : Type} (f : A -> result B) (l : list A) (ys : list B)
    (da : A) (db : B) (i : nat) :
  mapM f l = Ok ys -> (i < List.length l)%nat ->
  f (nth i l da) = Ok (nth i ys db).
Proof.
  intros H. apply mapM_Forall2 in H. revert i.
  induction H as [|x y l ys Hxy _ IH]; intros i Hi; simpl in Hi; [lia|].
  destruct i as [|i]; simpl; [assumption | apply IH; lia].
Qed.

(** ** The sliding-window matcher *)

(** On a window that lies inside the reference, [_l1_distance] returns the
    distance of the specification. *)
Lemma l1_distance_window (query reference : list Q) (offset : Z) :
  0 <= offset -> offset + Py.len query <= Py.len reference ->
  _l1_distance query reference offset = Ok (l1_window query reference offset).
Proof.
  intros Ho Hlen. unfold _l1_distance, l1_window.
  match goal with |- bind (mapM ?f ?l) _ = _ =>
    destruct (mapM_total f l) as (terms & Hterms)
  end.
  - apply Forall_forall. intros [j q] Hin.
    apply in_combine_l in Hin. apply range1_In in Hin.
    rewrite (index_nth reference (offset + j) 0%Q) by (unfold Py.len in *; lia).
    simpl. eauto.
  - rewrite Hterms; cbn [bind]. do 2 f_equal.
    pose proof (mapM_length _ _ _ Hterms) as Hl.
    rewrite enumerate_length in Hl.
    set (g := fun j : nat =>
                Qabs (nth j query 0 - nth (Z.to_nat offset + j) reference 0)%Q).
    apply (nth_ext _ _ 0%Q (g O)).
    + now rewrite length_map, length_seq.
    + intros i Hi. rewrite Hl in Hi.
      rewrite (map_nth g), seq_nth by assumption.
      pose proof (mapM_nth _ _ _ (0, 0%Q) 0%Q i Hterms) as Hn.
      rewrite enumerate_length, enumerate_nth in Hn by assumption.
      specialize (Hn Hi).
      rewrite (index_nth reference (offset + Z.of_nat i) 0%Q) in Hn
        by (unfold Py.len in *; lia).
      cbn [bind] in Hn. injection Hn as <-. unfold g. cbn [Nat.add].
      replace (Z.to_nat (offset + Z.of_nat i)) with (Z.to_nat offset + i)%nat
        by lia.
      reflexivity.
Qed.

(** The loop of [best_match_position] is a scan over the windows. *)
Lemma scan_offsets (wd : Z -> result Q) (dist : Z -> Q) (offsets : list Z)
    (best : Z * pyfloat) :
  (forall o, In o offsets -> wd o = Ok (dist o)) ->
  foldM (fun '(best_offset, best_distance) offset =>
           d <- wd offset ;;
           if float_lt (Fin d) best_distance
           then Ok (offset, Fin d)
           else Ok (best_offset, best_distance))
        offsets best
  = Ok (fold_left improve (map (fun o => (o, Fin (dist o))) offsets) best).
Proof.
  revert best. induction offsets as [|o offsets IH]; intros best Hwd.
  - reflexivity.
  - destruct best as [bo bd]. cbn [foldM map fold_left].
    rewrite (Hwd o) by now left. cbn [bind].
    change (improve (bo, bd) (o, Fin (dist o)))
      with (if float_lt (Fin (dist o)) bd then (o, Fin (dist o)) else (bo, bd)).
    destruct (float_lt (Fin (dist o)) bd); cbn [bind];
      apply IH; intros; apply Hwd; now right.
Qed.

Lemma best_match_position_scan (query reference : list Q) :
  Py.len query <= Py.len reference ->
  best_match_position query reference
  = Ok (fold_left improve
          (map (fun o => (o, Fin (l1_window query reference o)))
               (Py.range1 (Py.len reference - Py.len query + 1)))
          (-1, Inf)).
Proof.
  intros Hlen. unfold best_match_position, best_match_position_with.
  destruct (Z.ltb_spec (Py.len reference - Py.len query) 0); [lia|].
  apply scan_offsets. intros o Ho. apply range1_In in Ho.
  apply l1_distance_window; lia.
Qed.

Lemma windows_nth (query reference : list Q) (n : Z) (j : nat) :
  (j < Z.to_nat n)%nat ->
  nth j (map (fun o => (o, Fin (l1_window query reference o))) (Py.range1 n))
      (0, Fin (l1_window query reference 0))
  = (Z.of_nat j, Fin (l1_window query reference (Z.of_nat j))).
Proof.
  intros Hj.
  rewrite (map_nth (fun o => (o, Fin (l1_window query reference o)))).
  now rewrite range1_nth.
Qed.

Lemma scan_stays_finite (g : Z -> Q) (l : list Z) (b : Z) (d : Q) :
  exists o' d',
    fold_left improve (map (fun o => (o, Fin (g o))) l) (b, Fin d)
    = (o', Fin d').
Proof.
  revert b d. induction l as [|o l IH]; intros b d; cbn [map fold_left].
  - eauto.
  - unfold improve at 2. cbn [snd]. destruct (float_lt _ _); apply IH.
Qed.

(** Within a reference at least as long as the query the scan finds a
    window, of finite distance. *)
Lemma best_match_position_finite (query reference : list Q) :
  Py.len query <= Py.len reference ->
  exists o d, best_match_position query reference = Ok (o, Fin d).
Proof.
  intros Hlen. rewrite (best_match_position_scan _ _ Hlen).
  unfold Py.range1.
  replace (Z.to_nat (Py.len reference - Py.len query + 1))
    with (S (Z.to_nat (Py.len reference - Py.len query))) by lia.
  cbn [seq map fold_left].
  change (improve (-1, Inf) (Z.of_nat 0, Fin (l1_window query reference (Z.of_nat 0))))
    with (Z.of_nat 0, Fin (l1_window query reference (Z.of_nat 0))).
  destruct (scan_stays_finite (l1_window query reference)
              (map Z.of_nat (seq 1 (Z.to_nat (Py.len reference - Py.len query))))
              (Z.of_nat 0) (l1_window query reference (Z.of_nat 0)))
    as (o & d & ->).
  eauto.
Qed.

Lemma best_match_position_too_long
    (wd : list Q -> list Q -> Z -> result Q) (query reference : list Q) :
  Py.len query > Py.len reference ->
  best_match_position_with wd query reference = Ok (-1, Inf).
Proof.
  intros Hlen. unfold best_match_position_with.
  destruct (Z.ltb_spec (Py.len reference - Py.len query) 0); [reflexivity|lia].
Qed.

Lemma best_match_position_total (query reference : list Q) :
  exists res, best_match_position query reference = Ok res.
Proof.
  destruct (Z_gt_le_dec (Py.len query) (Py.len reference)) as [Hgt|Hle].
  - exists (-1, Inf). now apply best_match_position_too_long.
  - destruct (best_match_position_finite _ _ Hle) as (o & d & H). eauto.
Qed.

Lemma best_match_position_value (query reference : list Q) :
  best_match_position query reference = Ok (bmp_value query reference).
Proof.
  unfold bmp_value.
  destruct (best_match_position_total query reference) as (res & ->).
  reflexivity.
Qed.

(** The loop of [find_best_video] is a scan over the references. *)
Lemma scan_videos (query : list Q) (l : list (Z * list Q))
    (best : Z * Z * pyfloat) :
  foldM (fun '(best_video, best_frame, best_distance) '(video_idx, ref) =>
           '(frame, dist) <- best_match_position query ref ;;
           if float_lt dist best_distance
           then Ok (video_idx, frame, dist)
           else Ok (best_video, best_frame, best_distance))
        l best
  = Ok (fold_left improve
          (map (fun '(video_idx, ref) =>
                  (video_idx, fst (bmp_value query ref),
                   snd (bmp_value query ref))) l)
          best).
Proof.
  revert best. induction l as [|[i ref] l IH]; intros [[bv bf] bd].
  - reflexivity.
  - cbn [foldM map fold_left]. rewrite best_match_position_value.
    destruct (bmp_value query ref) as [frame dist]. cbn [bind fst snd].
    change (improve (bv, bf, bd) (i, frame, dist))
      with (if float_lt dist bd then (i, frame, dist) else (bv, bf, bd)).
    destruct (float_lt dist bd); cbn [bind]; apply IH.
Qed.

Lemma videos_nth (query : list Q) (references : list (list Q)) (j : nat) :
  (j < List.length references)%nat ->
  nth j (map (fun '(video_idx, ref) =>
                (video_idx, fst (bmp_value query ref),
                 snd (bmp_value query ref)))
             (Py.enumerate references))
      (0, fst (bmp_value query []), snd (bmp_value query []))
  = (Z.of_nat j, fst (bmp_value query (nth j references [])),
     snd (bmp_value query (nth j references []))).
Proof.
  intros Hj.
  rewrite (map_nth (fun '(video_idx, ref) =>
                      (video_idx, fst (bmp_value query ref),
                       snd (bmp_value query ref)))
                   (Py.enumerate references) (0, [])).
  now rewrite enumerate_nth.
Qed.

Lemma find_best_video_keeps (query : list Q) (l : list (Z * list Q))
    (best : Z * Z * pyfloat) :
  (forall i ref, In (i, ref) l -> Py.len query > Py.len ref) ->
  foldM (fun '(best_video, best_frame, best_distance) '(video_idx, ref) =>
           '(frame, dist) <- best_match_position query ref ;;
           if float_lt dist best_distance
           then Ok (video_idx, frame, dist)
           else Ok (best_video, best_frame, best_distance))
        l best
  = Ok best.
Proof.
  revert best. induction l as [|[i ref] l IH]; intros [[bv bf] bd] Hl.
  - reflexivity.
  - cbn [foldM].
    unfold best_match_position at 1.
    rewrite best_match_position_too_long by (apply (Hl i); now left).
    cbn [bind float_lt]. apply IH. intros j r Hj. apply (Hl j). now right.
Qed.

(** C6.  [find_best_video] returns the sentinel triple [(-1, -1, inf)] when
    the list of references is empty or holds no reference at least as long
    as the query. *)
Theorem find_best_video_sentinel (query : list Q) (references : list (list Q)) :
  references = []
  \/ ~ (exists ref, In ref references /\ Py.len query <= Py.len ref) ->
  find_best_video query references = Ok (-1, -1, Inf).
Proof.
  intros H. unfold find_best_video. apply find_best_video_keeps.
  intros i ref Hin. apply in_combine_r in Hin.
  destruct H as [->|H]; [contradiction|].
  destruct (Z_gt_le_dec (Py.len query) (Py.len ref)); [assumption|].
  exfalso. apply H. eauto.
Qed.

Lemma find_best_video_sentinel_witness :
  find_best_video [1#10; 2#10; 3#10]%Q [[1#10; 2#10]; [7#10]]%Q
  = Ok (-1, -1, Inf)
  /\ find_best_video [1#10]%Q [] = Ok (-1, -1, Inf).
Proof.
  split.
  - apply (find_best_video_sentinel [1#10; 2#10; 3#10]%Q [[1#10; 2#10]; [7#10]]%Q).
    right. intros (ref & [<-|[<-|[]]] & Hlen); vm_compute in Hlen; congruence.
  - apply (find_best_video_sentinel [1#10]%Q []). left. reflexivity.
Defined.

Lemma scan_zero (reference : list Q) (l : list Z) :
  fold_left improve (map (fun o => (o, Fin (l1_window [] reference o))) l)
            (0, Fin 0)
  = (0, Fin 0).
Proof. induction l as [|o l IH]; [reflexivity | exact IH]. Qed.

Lemma best_match_position_empty_query (reference : list Q) :
  best_match_position [] reference = Ok (0, Fin 0).
Proof.
  rewrite best_match_position_scan by (unfold Py.len; simpl; lia).
  unfold Py.range1.
  replace (Z.to_nat (Py.len reference - Py.len (@nil Q) + 1))
    with (S (List.length reference)) by (unfold Py.len; simpl; lia).
  cbn [seq map fold_left].
  change (improve (-1, Inf) (Z.of_nat 0, Fin (l1_window [] reference (Z.of_nat 0))))
    with (0, Fin 0).
  f_equal. apply scan_zero.
Qed.

(** C10.  The empty query matches every reference, the empty one included,
    at offset 0 with distance 0, and [find_best_video] with the empty query
    and a non-empty list of references returns [(0, 0, 0)], never the
    sentinel. *)
Theorem empty_query_matches_first :
  (forall reference : list Q, best_match_position [] reference = Ok (0, Fin 0))
  /\ (forall references : list (list Q),
        references <> [] ->
        find_best_video [] references = Ok (0, 0, Fin 0)).
Proof.
  split; [exact best_match_position_empty_query|].
  intros [|ref references] Hne; [congruence|].
  unfold find_best_video, Py.enumerate, Py.len, Py.range1.
  rewrite Nat2Z.id. cbn [List.length seq map combine foldM].
  rewrite best_match_position_empty_query. cbn [bind float_lt].
  generalize (combine (map Z.of_nat (seq 1 (List.length references))) references).
  intros l. induction l as [|[i r] l IH]; [reflexivity|].
  cbn [foldM]. rewrite best_match_position_empty_query. exact IH.
Qed.

Lemma empty_query_matches_first_witness :
  best_match_position [] [] = Ok (0, Fin 0)
  /\ find_best_video [] [[3#10; 4#10]; []]%Q = Ok (0, 0, Fin 0).
Proof.
  pose proof empty_query_matches_first as (Hb & Hf).
  split; [apply Hb | apply Hf; discriminate].
Defined.

(** ** The matcher in binary64 *)

Section Binary64Properties.
Import PrimFloat.
#[local] Set Warnings "-inexact-float".

(** *** The order of floats

    [SFcompare] orders the floats that are not [nan] by sign, exponent and
    mantissa; a comparison with [nan] is false. *)

Ltac compare_cases :=
  change (Pos.compare_cont Eq) with Pos.compare in *;
  repeat match goal with
         | |- context [Z.compare ?x ?y] =>
             destruct (Z.compare_spec x y); subst
         | |- context [Pos.compare ?x ?y] =>
             destruct (Pos.compare_spec x y); subst
         end;
  cbn [CompOpp]; intros; try discriminate; try reflexivity; try lia.

Lemma SFleb_SFltb_trans (a b c : SpecFloat.spec_float) :
  SpecFloat.SFleb a b = true -> SpecFloat.SFltb b c = true ->
  SpecFloat.SFltb a c = true.
Proof.
  unfold SpecFloat.SFleb, SpecFloat.SFltb, SpecFloat.SFcompare.
  destruct a as [[]|[]| |[] ma ea], b as [[]|[]| |[] mb eb],
           c as [[]|[]| |[] mc ec];
    try discriminate; try reflexivity; compare_cases.
Qed.

Lemma SFltb_SFleb (a b : SpecFloat.spec_float) :
  SpecFloat.SFltb a b = true -> SpecFloat.SFleb a b = true.
Proof.
  unfold SpecFloat.SFleb, SpecFloat.SFltb.
  now destruct (SpecFloat.SFcompare a b) as [[]|].
Qed.

Lemma SFltb_irrefl (a : SpecFloat.spec_float) : SpecFloat.SFltb a a = false.
Proof.
  unfold SpecFloat.SFltb, SpecFloat.SFcompare.
  destruct a as [[]|[]| |[] ma ea]; try reflexivity; compare_cases.
Qed.

Lemma ltb_irrefl (x : float) : (x <? x)%float = false.
Proof. rewrite FloatAxioms.ltb_spec. apply SFltb_irrefl. Qed.

Lemma ltb_leb (x y : float) :
  (x <? y)%float = true -> (x <=? y)%float = true.
Proof.
  rewrite FloatAxioms.ltb_spec, FloatAxioms.leb_spec. apply SFltb_SFleb.
Qed.

Lemma leb_ltb_trans (x y z : float) :
  (x <=? y)%float = true -> (y <? z)%float = true -> (x <? z)%float = true.
Proof.
  rewrite !FloatAxioms.ltb_spec, FloatAxioms.leb_spec.
  apply SFleb_SFltb_trans.
Qed.

Lemma ltb_trans (x y z : float) :
  (x <? y)%float = true -> (y <? z)%float = true -> (x <? z)%float = true.
Proof. intros H. apply leb_ltb_trans. now apply ltb_leb. Qed.

(** A float below another is not above it, nor equal to it. *)
Lemma ltb_not_leb (x y : float) :
  (x <? y)%float = true -> (y <=? x)%float = false.
Proof.
  intros H. destruct (y <=? x)%float eqn:L; [|reflexivity].
  pose proof (leb_ltb_trans _ _ _ L H) as Hyy.
  rewrite ltb_irrefl in Hyy. discriminate.
Qed.

Lemma not_leb_not_ltb (x y : float) :
  (x <=? y)%float = false -> (x <? y)%float = false.
Proof.
  intros H. destruct (x <? y)%float eqn:L; [|reflexivity].
  apply ltb_leb in L. congruence.
Qed.

(** *** Scans that keep the first minimum *)

(** The result of a scan is either the initial candidate, when no
    candidate of the list is strictly below it, or a candidate of the list
    that is below the initial one, that no candidate is strictly below, and
    that no earlier candidate equals or is below. *)
Lemma scan_first_min_b64 {K : Type} (dflt : K * float)
    (cands : list (K * float)) :
  forall init : K * float,
    (fold_left Binary64.improve cands init = init
     /\ forall j, (j < List.length cands)%nat ->
                  (snd (nth j cands dflt) <? snd init)%float = false)
    \/ (exists i,
          (i < List.length cands)%nat
          /\ fold_left Binary64.improve cands init = nth i cands dflt
          /\ (snd (nth i cands dflt) <? snd init)%float = true
          /\ forall j, (j < List.length cands)%nat ->
               (snd (nth j cands dflt) <? snd (nth i cands dflt))%float = false
               /\ ((j < i)%nat ->
                   (snd (nth j cands dflt) <=? snd (nth i cands dflt))%float
                   = false)).
Proof.
  induction cands as [|c cands IH]; intros init.
  - left. split; [reflexivity|]. intros j Hj. inversion Hj.
  - cbn [fold_left].
    destruct (snd c <? snd init)%float eqn:E.
    + replace (Binary64.improve init c) with c
        by (unfold Binary64.improve; now rewrite E).
      right. destruct (IH c) as [(Hr & Hall)|(i & Hi & Hr & Hlt & Hall)].
      * exists O. cbn [nth List.length].
        split; [lia|]. split; [assumption|]. split; [assumption|].
        intros j Hj. split; [|lia].
        destruct j as [|j]; [apply ltb_irrefl | apply Hall; lia].
      * exists (S i). cbn [nth List.length].
        split; [lia|]. split; [assumption|].
        split; [eapply ltb_trans; eauto|].
        intros j Hj. destruct j as [|j].
        -- pose proof (ltb_not_leb _ _ Hlt) as Hle.
           split; [now apply not_leb_not_ltb | now intros _].
        -- destruct (Hall j) as (H1 & H2); [lia|].
           split; [assumption | intros; apply H2; lia].
    + replace (Binary64.improve init c) with init
        by (unfold Binary64.improve; now rewrite E).
      destruct (IH init) as [(Hr & Hall)|(i & Hi & Hr & Hlt & Hall)].
      * left. split; [assumption|].
        intros [|j] Hj; [assumption | apply Hall; simpl in Hj; lia].
      * right. exists (S i). cbn [nth List.length].
        split; [lia|]. split; [assumption|]. split; [assumption|].
        intros j Hj. destruct j as [|j].
        -- assert (Hle : (snd c <=? snd (nth i cands dflt))%float = false).
           { destruct (snd c <=? snd (nth i cands dflt))%float eqn:L;
               [|reflexivity].
             pose proof (leb_ltb_trans _ _ _ L Hlt). congruence. }
           split; [now apply not_leb_not_ltb | now intros _].
        -- destruct (Hall j) as (H1 & H2); [lia|].
           split; [assumption | intros; apply H2; lia].
Qed.

(** *** The distance of a window *)

(** On a window that lies inside the reference, [_l1_distance] returns the
    sum of the rounded terms, added from the left. *)
Lemma l1_distance_window_b64 (query reference : list float) (offset : Z) :
  0 <= offset -> offset + Py.len query <= Py.len reference ->
  Binary64._l1_distance query reference offset
  = Ok (Binary64.l1_window query reference offset).
Proof.
  intros Ho Hlen. unfold Binary64._l1_distance, Binary64.l1_window.
  match goal with |- bind (mapM ?f ?l) _ = _ =>
    destruct (mapM_total f l) as (terms & Hterms)
  end.
  - apply Forall_forall. intros [j q] Hin.
    apply in_combine_l in Hin. apply range1_In in Hin.
    rewrite (index_nth reference (offset + j) zero)
      by (unfold Py.len in *; lia).
    cbn [bind]. eauto.
  - rewrite Hterms; cbn [bind]. do 2 f_equal.
    pose proof (mapM_length _ _ _ Hterms) as Hl.
    rewrite enumerate_length in Hl.
    set (g := fun j : nat =>
                abs (nth j query zero
                     - nth (Z.to_nat offset + j) reference zero)%float).
    apply (nth_ext _ _ zero (g O)).
    + now rewrite length_map, length_seq.
    + intros i Hi. rewrite Hl in Hi.
      rewrite (map_nth g), seq_nth by assumption.
      pose proof (mapM_nth _ _ _ (0, zero) zero i Hterms) as Hn.
      rewrite enumerate_length, enumerate_nth in Hn by assumption.
      specialize (Hn Hi).
      rewrite (index_nth reference (offset + Z.of_nat i) zero) in Hn
        by (unfold Py.len in *; lia).
      cbn [bind] in Hn. injection Hn as <-. unfold g. cbn [Nat.add].
      replace (Z.to_nat (offset + Z.of_nat i)) with (Z.to_nat offset + i)%nat
        by lia.
      reflexivity.
Qed.

(** The loop of [best_match_position] is a scan over the windows. *)
Lemma scan_offsets_b64 (wd : Z -> result float) (dist : Z -> float)
    (offsets : list Z) (best : Z * float) :
  (forall o, In o offsets -> wd o = Ok (dist o)) ->
  foldM (fun '(best_offset, best_distance) offset =>
           d <- wd offset ;;
           if (d <? best_distance)%float
           then Ok (offset, d)
           else Ok (best_offset, best_distance))
        offsets best
  = Ok (fold_left Binary64.improve (map (fun o => (o, dist o)) offsets) best).
Proof.
  revert best. induction offsets as [|o offsets IH]; intros best Hwd.
  - reflexivity.
  - destruct best as [bo bd]. cbn [foldM map fold_left].
    rewrite (Hwd o) by now left. cbn [bind].
    change (Binary64.improve (bo, bd) (o, dist o))
      with (if (dist o <? bd)%float then (o, dist o) else (bo, bd)).
    destruct (dist o <? bd)%float; cbn [bind];
      apply IH; intros; apply Hwd; now right.
Qed.

Lemma best_match_position_scan_b64 (query reference : list float) :
  Py.len query <= Py.len reference ->
  Binary64.best_match_position query reference
  = Ok (fold_left Binary64.improve
          (map (fun o => (o, Binary64.l1_window query reference o))
               (Py.range1 (Py.len reference - Py.len query + 1)))
          (-1, infinity)).
Proof.
  intros Hlen.
  unfold Binary64.best_match_position, Binary64.best_match_position_with.
  destruct (Z.ltb_spec (Py.len reference - Py.len query) 0); [lia|].
  apply scan_offsets_b64. intros o Ho. apply range1_In in Ho.
  apply l1_distance_window_b64; lia.
Qed.

Lemma windows_nth_b64 (query reference : list float) (n : Z) (j : nat) :
  (j < Z.to_nat n)%nat ->
  nth j (map (fun o => (o, Binary64.l1_window query reference o))
             (Py.range1 n))
      (0, Binary64.l1_window query reference 0)
  = (Z.of_nat j, Binary64.l1_window query reference (Z.of_nat j)).
Proof.
  intros Hj.
  rewrite (map_nth (fun o => (o, Binary64.l1_window query reference o))).
  now rewrite range1_nth.
Qed.

Lemma best_match_position_too_long_b64
    (wd : list float -> list float -> Z -> result float)
    (query reference : list float) :
  Py.len query > Py.len reference ->
  Binary64.best_match_position_with wd query reference = Ok (-1, infinity).
Proof.
  intros Hlen. unfold Binary64.best_match_position_with.
  destruct (Z.ltb_spec (Py.len reference - Py.len query) 0); [reflexivity|lia].
Qed.

(** *** The claims on the matcher *)




(** C5, as stated, fails in binary64: the only window of [[-1e308]] for the
    query [[1e308]] has the distance [inf], which is not below the initial
    [inf], so that the sentinel is returned although the query is not the
    longer one. *)
Lemma best_match_position_overflow :
  Binary64.best_match_position [1e308]%float [-1e308]%float
  = Ok (-1, infinity)
  /\ Binary64._l1_distance [1e308]%float [-1e308]%float 0 = Ok infinity
  /\ ~ (Py.len [1e308]%float > Py.len [-1e308]%float)
  /\ ~ (Binary64.best_match_position [1e308]%float [-1e308]%float
        = Ok (-1, infinity)
        <-> Py.len [1e308]%float > Py.len [-1e308]%float).
Proof.
  split; [reflexivity|]. split; [reflexivity|].
  split; [vm_compute; congruence|].
  intros [H _]. specialize (H eq_refl). vm_compute in H. discriminate H.
Qed.

(** C5 (amended).  [best_match_position] returns the sentinel [(-1, inf)]
    exactly when the query is longer than the reference or no window has a
    computed distance below [inf]; when the query is the longer one it
    returns before the loop, whatever the function computing the distance
    of a window is (even one that would raise on its first call). *)
Theorem best_match_position_sentinel (query reference : list float) :
  (Binary64.best_match_position query reference = Ok (-1, infinity)
   <-> Py.len query > Py.len reference
       \/ forall o, 0 <= o <= Py.len reference - Py.len query ->
            exists d,
              Binary64._l1_distance query reference o = Ok d
              /\ (d <? infinity)%float = false)
  /\ (Py.len query > Py.len reference ->
      forall wd : list float -> list float -> Z -> result float,
        Binary64.best_match_position_with wd query reference
        = Ok (-1, infinity)).
Proof.
  split; [|intros Hlen wd; now apply best_match_position_too_long_b64].
  destruct (Z_gt_le_dec (Py.len query) (Py.len reference)) as [Hgt|Hle].
  { split; [now left | intros _].
    now apply best_match_position_too_long_b64. }
  rewrite (best_match_position_scan_b64 _ _ Hle).
  set (n := Py.len reference - Py.len query + 1).
  set (cands := map (fun o => (o, Binary64.l1_window query reference o))
                    (Py.range1 n)).
  assert (Hlc : List.length cands = Z.to_nat n)
    by (unfold cands; now rewrite length_map, range1_length).
  destruct (scan_first_min_b64 (0, Binary64.l1_window query reference 0)
              cands (-1, infinity))
    as [(Hr & Hall)|(i & Hi & Hr & Hinf & _)].
  - split; [intros _; right | intros _; now rewrite Hr].
    intros o Ho. exists (Binary64.l1_window query reference o).
    split; [apply l1_distance_window_b64; lia|].
    specialize (Hall (Z.to_nat o) ltac:(lia)).
    unfold cands in Hall. rewrite windows_nth_b64 in Hall by lia.
    now rewrite Z2Nat.id in Hall by lia.
  - rewrite Hlc in Hi. unfold cands in Hr at 2, Hinf.
    rewrite windows_nth_b64 in Hr, Hinf by lia. cbn [snd] in Hinf.
    rewrite Hr. split.
    + intros H. injection H as H _. lia.
    + intros [Hgt|Hall]; [lia|]. exfalso.
      destruct (Hall (Z.of_nat i) ltac:(lia)) as (d & Hd & Hnot).
      rewrite l1_distance_window_b64 in Hd by lia.
      injection Hd as <-. congruence.
Qed.

Lemma best_match_position_sentinel_witness :
  Binary64.best_match_position [0.1; 0.2; 0.3]%float [0.1; 0.2]%float
  = Ok (-1, infinity)
  /\ Binary64.best_match_position_with (fun _ _ _ => Raise IndexError)
       [0.1; 0.2; 0.3]%float [0.1; 0.2]%float = Ok (-1, infinity)
  /\ Binary64.best_match_position [nan]%float [0.5]%float = Ok (-1, infinity).
Proof.
  pose proof (best_match_position_sentinel
                [0.1; 0.2; 0.3]%float [0.1; 0.2]%float) as (Hiff & Hno).
  pose proof (best_match_position_sentinel [nan]%float [0.5]%float)
    as (Hnan & _).
  split; [|split].
  - apply Hiff. left. reflexivity.
  - apply Hno. reflexivity.
  - apply Hnan. right. intros o Ho. vm_compute in Ho.
    assert (o = 0) as -> by (destruct Ho as (H1 & H2); destruct o;
                             [reflexivity | now elim H2 | now elim H1]).
    exists nan. split; reflexivity.
Defined.

Lemma best_match_position_total_b64 (query reference : list float) :
  exists res, Binary64.best_match_position query reference = Ok res.
Proof.
  destruct (Z_gt_le_dec (Py.len query) (Py.len reference)) as [Hgt|Hle].
  - exists (-1, infinity). now apply best_match_position_too_long_b64.
  - rewrite (best_match_position_scan_b64 _ _ Hle). eauto.
Qed.

Lemma best_match_position_value_b64 (query reference : list float) :
  Binary64.best_match_position query reference
  = Ok (Binary64.bmp_value query reference).
Proof.
  unfold Binary64.bmp_value.
  destruct (best_match_position_total_b64 query reference) as (res & ->).
  reflexivity.
Qed.

(** The loop of [find_best_video] is a scan over the references. *)
Lemma scan_videos_b64 (query : list float) (l : list (Z * list float))
    (best : Z * Z * float) :
  foldM (fun '(best_video, best_frame, best_distance) '(video_idx, ref) =>
           '(frame, dist) <- Binary64.best_match_position query ref ;;
           if (dist <? best_distance)%float
           then Ok (video_idx, frame, dist)
           else Ok (best_video, best_frame, best_distance))
        l best
  = Ok (fold_left Binary64.improve
          (map (fun '(video_idx, ref) =>
                  (video_idx, fst (Binary64.bmp_value query ref),
                   snd (Binary64.bmp_value query ref))) l)
          best).
Proof.
  revert best. induction l as [|[i ref] l IH]; intros [[bv bf] bd].
  - reflexivity.
  - cbn [foldM map fold_left]. rewrite best_match_position_value_b64.
    destruct (Binary64.bmp_value query ref) as [frame dist].
    cbn [bind fst snd].
    change (Binary64.improve (bv, bf, bd) (i, frame, dist))
      with (if (dist <? bd)%float then (i, frame, dist) else (bv, bf, bd)).
    destruct (dist <? bd)%float; cbn [bind]; apply IH.
Qed.

Lemma videos_nth_b64 (query : list float) (references : list (list float))
    (j : nat) :
  (j < List.length references)%nat ->
  nth j (map (fun '(video_idx, ref) =>
                (video_idx, fst (Binary64.bmp_value query ref),
                 snd (Binary64.bmp_value query ref)))
             (Py.enumerate references))
      (0, fst (Binary64.bmp_value query []),
       snd (Binary64.bmp_value query []))
  = (Z.of_nat j, fst (Binary64.bmp_value query (nth j references [])),
     snd (Binary64.bmp_value query (nth j references []))).
Proof.
  intros Hj.
  rewrite (map_nth (fun '(video_idx, ref) =>
                      (video_idx, fst (Binary64.bmp_value query ref),
                       snd (Binary64.bmp_value query ref)))
                   (Py.enumerate references) (0, [])).
  now rewrite enumerate_nth.
Qed.

(** C4, as stated, fails when no reference gives a distance below [inf]:
    every reference then has the same, minimal, distance [inf], and the
    function returns [-1], which is no index of the list, instead of index
    [0].  This is so when no reference can hold the query, and also when
    the distances of a reference that can hold it overflow. *)
Lemma find_best_video_no_candidate :
  Binary64.find_best_video [0.5]%float [[]; []] = Ok (-1, -1, infinity)
  /\ Binary64.best_match_position [0.5]%float (nth 0 [[]; []] [])
     = Ok (-1, infinity)
  /\ Binary64.best_match_position [0.5]%float (nth 1 [[]; []] [])
     = Ok (-1, infinity)
  /\ ~ (exists v f d,
          Binary64.find_best_video [0.5]%float [[]; []] = Ok (v, f, d)
          /\ 0 <= v < Py.len ([[]; []] : list (list float)))
  /\ Binary64.find_best_video [1e308]%float [[-1e308]%float]
     = Ok (-1, -1, infinity).
Proof.
  repeat split; try reflexivity.
  intros (v & f & d & H & Hv). vm_compute in H. injection H as <- <- <-. lia.
Qed.

(** C4 (amended).  When at least one reference has a [best_match_position]
    distance below [inf], [find_best_video] returns the index of a
    reference together with the frame and the distance found in that
    reference; no reference has a distance strictly below it, and no
    reference of smaller index has a distance equal to it or below.  In
    particular two equal references of zero distance give index [0]. *)
Theorem find_best_video_first_min (query : list float)
    (references : list (list float)) :
  ((exists ref f0 d0,
      In ref references
      /\ Binary64.best_match_position query ref = Ok (f0, d0)
      /\ (d0 <? infinity)%float = true) ->
   exists v f d,
     Binary64.find_best_video query references = Ok (v, f, d)
     /\ 0 <= v < Py.len references
     /\ Binary64.best_match_position query (nth (Z.to_nat v) references [])
        = Ok (f, d)
     /\ (d <? infinity)%float = true
     /\ forall i, 0 <= i < Py.len references ->
          exists f' d',
            Binary64.best_match_position query
              (nth (Z.to_nat i) references [])
            = Ok (f', d')
            /\ (d' <? d)%float = false
            /\ (i < v -> (d' <=? d)%float = false))
  /\ Binary64.find_best_video [0.5; 0.5]%float
       [[0.5; 0.5]; [0.5; 0.5]]%float
     = Ok (0, 0, 0%float).
Proof.
  split; [|reflexivity].
  intros (ref & f0 & d0 & Hin & Hbmp & Hfin).
  unfold Binary64.find_best_video. rewrite scan_videos_b64.
  set (dflt := (0, fst (Binary64.bmp_value query []),
                snd (Binary64.bmp_value query []))).
  set (cands := map _ (Py.enumerate references)).
  assert (Hlc : List.length cands = List.length references)
    by (unfold cands; now rewrite length_map, enumerate_length).
  assert (Hnth : forall j, (j < List.length references)%nat ->
            nth j cands dflt
            = (Z.of_nat j,
               fst (Binary64.bmp_value query (nth j references [])),
               snd (Binary64.bmp_value query (nth j references []))))
    by (intros; now apply videos_nth_b64).
  destruct (scan_first_min_b64 dflt cands (-1, -1, infinity))
    as [(_ & Hall)|(i & Hi & Hr & Hinf & Hall)]; rewrite Hlc in *.
  - exfalso. destruct (In_nth _ _ [] Hin) as (j & Hj & Hj').
    specialize (Hall j Hj). rewrite Hnth, Hj' in Hall by assumption.
    cbn [snd] in Hall. unfold Binary64.bmp_value in Hall.
    rewrite Hbmp in Hall. cbn [snd] in Hall. congruence.
  - rewrite (Hnth i Hi) in Hr, Hinf, Hall. cbn [snd] in Hinf, Hall.
    pose proof (best_match_position_value_b64 query (nth i references []))
      as Hbv.
    destruct (Binary64.bmp_value query (nth i references [])) as [f d].
    cbn [fst snd] in *.
    exists (Z.of_nat i), f, d. rewrite Nat2Z.id.
    split; [now rewrite Hr|]. split; [unfold Py.len; lia|].
    split; [assumption|]. split; [assumption|].
    intros k Hk. unfold Py.len in Hk.
    specialize (Hall (Z.to_nat k) ltac:(lia)).
    rewrite Hnth in Hall by lia. cbn [snd] in Hall.
    pose proof (best_match_position_value_b64 query
                  (nth (Z.to_nat k) references [])) as Hk'.
    destruct (Binary64.bmp_value query (nth (Z.to_nat k) references []))
      as [f' d'].
    exists f', d'. split; [assumption|]. cbn [snd] in Hall.
    destruct Hall as (H1 & H2). split; [assumption|]. intros; apply H2; lia.
Qed.

Lemma find_best_video_first_min_witness :
  exists v f d,
    Binary64.find_best_video [0.3]%float [[]; [0.5]; [0.1]]%float
    = Ok (v, f, d)
    /\ 0 <= v < Py.len [[]; [0.5]; [0.1]]%float
    /\ Binary64.best_match_position [0.3]%float
         (nth (Z.to_nat v) [[]; [0.5]; [0.1]]%float [])
       = Ok (f, d)
    /\ (d <? infinity)%float = true
    /\ forall i,
         0 <= i < Py.len [[]; [0.5]; [0.1]]%float ->
         exists f' d',
           Binary64.best_match_position [0.3]%float
             (nth (Z.to_nat i) [[]; [0.5]; [0.1]]%float [])
           = Ok (f', d')
           /\ (d' <? d)%float = false
           /\ (i < v -> (d' <=? d)%float = false).
Proof.
  apply (find_best_video_first_min [0.3]%float [[]; [0.5]; [0.1]]%float).
  exists [0.5]%float, 0, 0.2%float.
  split; [simpl; auto | split; reflexivity].
Defined.

End Binary64Properties.

(** ** The file system *)

Lemma path_eqb_eq (p q : Fs.path) : Fs.path_eqb p q = true <-> p = q.
Proof.
  unfold Fs.path_eqb. destruct (list_eq_dec string_dec p q); split;
    congruence.
Qed.

Lemma path_eqb_refl (p : Fs.path) : Fs.path_eqb p p = true.
Proof. now apply path_eqb_eq. Qed.

Lemma path_eqb_neq (p q : Fs.path) : p <> q -> Fs.path_eqb p q = false.
Proof.
  intros H. destruct (Fs.path_eqb p q) eqn:E; [|reflexivity].
  apply path_eqb_eq in E. contradiction.
Qed.

Lemma lookup_app (fs fs' : Fs.t) (p : Fs.path) :
  Fs.lookup (fs ++ fs') p
  = match Fs.lookup fs p with
    | Some n => Some n
    | None => Fs.lookup fs' p
    end.
Proof.
  induction fs as [|[q n] fs IH]; simpl; [reflexivity|].
  destruct (Fs.path_eqb q p); [reflexivity | exact IH].
Qed.

Lemma lookup_replace_same (fs : Fs.t) (p : Fs.path) (n : Fs.node) :
  Fs.lookup fs p <> None -> Fs.lookup (Fs.replace fs p n) p = Some n.
Proof.
  induction fs as [|[q m] fs IH]; simpl; [congruence|].
  destruct (Fs.path_eqb q p) eqn:E; simpl; rewrite E; auto.
Qed.

Lemma lookup_replace_other (fs : Fs.t) (p q : Fs.path) (n : Fs.node) :
  q <> p -> Fs.lookup (Fs.replace fs p n) q = Fs.lookup fs q.
Proof.
  intros Hne. induction fs as [|[r m] fs IH]; simpl; [reflexivity|].
  destruct (Fs.path_eqb r p) eqn:E; simpl.
  - apply path_eqb_eq in E; subst r.
    now rewrite (path_eqb_neq p q) by congruence.
  - destruct (Fs.path_eqb r q); [reflexivity | exact IH].
Qed.

Lemma join_nonempty (d : Fs.path) (name : string) : Fs.join d name <> [].
Proof. unfold Fs.join. destruct d; discriminate. Qed.

Lemma parent_join (d : Fs.path) (name : string) :
  Fs.parent (Fs.join d name) = d.
Proof. unfold Fs.parent, Fs.join. apply removelast_last. Qed.

Lemma stat_join (fs : Fs.t) (d : Fs.path) (name : string) :
  Fs.stat fs (Fs.join d name) = Fs.lookup fs (Fs.join d name).
Proof.
  unfold Fs.stat. destruct (Fs.join d name) eqn:E; [|reflexivity].
  now apply join_nonempty in E.
Qed.

(** Reading back what was just written. *)
Lemma read_after_write (fs fs' : Fs.t) (d : Fs.path) (name content : string) :
  Fs.write_text fs (Fs.join d name) content = Ok fs' ->
  Fs.read_text fs' (Fs.join d name) = Ok content.
Proof.
  unfold Fs.write_text, Fs.read_text. rewrite stat_join.
  destruct (Fs.join d name) as [|c p] eqn:E; [discriminate|]. rewrite <- E.
  destruct (Fs.stat fs (Fs.parent (Fs.join d name))) as [[|]|]; try discriminate.
  destruct (Fs.lookup fs (Fs.join d name)) as [[|old]|] eqn:L; try discriminate;
    intros H; injection H as <-.
  - rewrite lookup_replace_same by congruence. reflexivity.
  - rewrite lookup_app, L. simpl. now rewrite path_eqb_refl.
Qed.

(** After [mkdir(parents=True, exist_ok=True)] the path is a directory. *)
Lemma mkdir_from_dir (todo : Fs.path) :
  forall (fs fs' : Fs.t) (done : Fs.path),
    Fs.mkdir_from fs done todo = Ok fs' ->
    todo <> [] -> Fs.lookup fs' (done ++ todo) = Some Fs.Dir.
Proof.
  induction todo as [|c todo IH]; intros fs fs' done H Hne; [congruence|].
  simpl in H. replace (done ++ c :: todo) with ((done ++ [c]) ++ todo)
    by (now rewrite <- app_assoc).
  destruct (Fs.lookup fs (done ++ [c])) as [[|old]|] eqn:L.
  - destruct todo as [|c' todo].
    + simpl in H. injection H as <-. now rewrite app_nil_r.
    + apply (IH _ _ _ H). discriminate.
  - destruct todo; discriminate.
  - destruct todo as [|c' todo].
    + simpl in H. injection H as <-.
      rewrite app_nil_r, lookup_app, L. simpl. now rewrite path_eqb_refl.
    + apply (IH _ _ _ H). discriminate.
Qed.

(** [mkdir] only adds directories, at prefixes of the path it creates. *)
Lemma mkdir_from_lookup (todo : Fs.path) :
  forall (fs fs' : Fs.t) (done p : Fs.path),
    Fs.mkdir_from fs done todo = Ok fs' ->
    Fs.lookup fs' p = Fs.lookup fs p
    \/ (Fs.lookup fs' p = Some Fs.Dir
        /\ exists k, (1 <= k <= List.length todo)%nat
                     /\ p = done ++ firstn k todo).
Proof.
  induction todo as [|c todo IH]; intros fs fs' done p H; simpl in H.
  - injection H as <-. now left.
  - destruct (Fs.lookup fs (done ++ [c])) as [[|old]|] eqn:L.
    + destruct (IH _ _ _ p H) as [E|(E & k & Hk & ->)]; [now left|].
      right. split; [assumption|]. exists (S k). simpl.
      split; [lia | now rewrite <- app_assoc].
    + destruct todo; discriminate.
    + destruct (IH _ _ _ p H) as [E|(E & k & Hk & ->)].
      * rewrite lookup_app in E. simpl in E.
        destruct (Fs.lookup fs p) as [n|] eqn:Lp; [now left|].
        destruct (Fs.path_eqb (done ++ [c]) p) eqn:Ep; [|now left].
        apply path_eqb_eq in Ep. right. split; [assumption|].
        exists 1%nat. simpl. split; [lia | now symmetry].
      * right. split; [assumption|]. exists (S k). simpl.
        split; [lia | now rewrite <- app_assoc].
Qed.

(** A directory can be created when none of its ancestors, itself
    included, is a regular file. *)
Lemma mkdir_from_total (todo : Fs.path) :
  forall (fs : Fs.t) (done : Fs.path),
    (forall k content, (1 <= k <= List.length todo)%nat ->
       Fs.lookup fs (done ++ firstn k todo) <> Some (Fs.File content)) ->
    exists fs', Fs.mkdir_from fs done todo = Ok fs'.
Proof.
  induction todo as [|c todo IH]; intros fs done Hfree; simpl; [eauto|].
  destruct (Fs.lookup fs (done ++ [c])) as [[|old]|] eqn:L.
  - apply IH. intros k content Hk.
    rewrite <- app_assoc. apply (Hfree (S k) content). simpl; lia.
  - exfalso. apply (Hfree 1%nat old); [simpl; lia|].
    simpl. exact L.
  - apply IH. intros k content Hk.
    rewrite <- app_assoc, lookup_app. simpl.
    specialize (Hfree (S k) content ltac:(simpl; lia)). simpl in Hfree.
    destruct (Fs.lookup fs (done ++ c :: firstn k todo)) as [n|];
      [assumption|].
    destruct (Fs.path_eqb _ _); discriminate.
Qed.

(** ** The fingerprint store *)

Lemma path_for_not_prefix (i : Z) (d : Fs.path) (k : nat) :
  _path_for i d <> firstn k d.
Proof.
  intros E. apply (f_equal (@List.length string)) in E.
  unfold _path_for, Fs.join in E.
  rewrite length_app, length_firstn in E. simpl in E. lia.
Qed.

(** Saving succeeds when the directory can be created and the record is
    not itself a directory. *)
Lemma save_fingerprint_total (json_dumps : list Q -> string)
    (f : list Q) (i : Z) (d : Fs.path) (fs : Fs.t) :
  (forall k content, (1 <= k <= List.length d)%nat ->
     Fs.lookup fs (firstn k d) <> Some (Fs.File content)) ->
  Fs.lookup fs (_path_for i d) <> Some Fs.Dir ->
  exists fs', save_fingerprint json_dumps f i d fs = Ok fs'.
Proof.
  intros Hfree Hrec. unfold save_fingerprint, Fs.mkdir_parents_exist_ok.
  destruct (mkdir_from_total d fs [] Hfree) as (fs1 & Hmk).
  rewrite Hmk. cbn [bind]. unfold Fs.write_text, _path_for.
  destruct (Fs.join d _) as [|c p] eqn:E; [now apply join_nonempty in E|].
  rewrite <- E, parent_join.
  assert (Hd : Fs.stat fs1 d = Some Fs.Dir).
  { destruct d as [|c' d']; [reflexivity|].
    apply (mkdir_from_dir _ _ _ [] Hmk). discriminate. }
  rewrite Hd.
  destruct (mkdir_from_lookup _ _ _ [] (_path_for i d) Hmk)
    as [L|(_ & k & _ & Hk)].
  - unfold _path_for in L, Hrec. rewrite L.
    destruct (Fs.lookup fs (Fs.join d _)) as [[|old]|]; eauto; congruence.
  - now apply path_for_not_prefix in Hk.
Qed.

(** ** Strings and decimal numerals *)

Lemma string_length_app (s t : string) :
  String.length (s ++ t) = (String.length s + String.length t)%nat.
Proof. induction s as [|c s IH]; simpl; [reflexivity | now rewrite IH]. Qed.

Lemma string_app_assoc (s t u : string) :
  ((s ++ t) ++ u = s ++ (t ++ u))%string.
Proof. induction s as [|c s IH]; simpl; [reflexivity | now rewrite IH]. Qed.

Lemma substring_0_app (s t : string) :
  substring 0 (String.length s) (s ++ t) = s.
Proof.
  induction s as [|c s IH]; simpl.
  - destruct t; reflexivity.
  - now rewrite IH.
Qed.

Lemma rfind_dot_json (s : string) :
  rfind_dot (s ++ ".json") = Some (String.length s).
Proof. induction s as [|c s IH]; simpl; [reflexivity | now rewrite IH]. Qed.

Lemma stem_json (d : Fs.path) (s : string) :
  s <> EmptyString -> stem (Fs.join d (s ++ ".json")) = s.
Proof.
  intros Hs. unfold stem, Fs.join. rewrite last_last, rfind_dot_json.
  rewrite string_length_app. simpl String.length.
  destruct (Nat.ltb_spec 0 (String.length s)) as [_|H0].
  - destruct (Nat.ltb_spec (String.length s) (String.length s + 5 - 1));
      [|lia].
    apply substring_0_app.
  - destruct s; [congruence | simpl in H0; lia].
Qed.

(** The decimal numeral of a natural number. *)
Lemma str_nonneg (n : Z) :
  0 <= n ->
  exists u, u <> Decimal.Nil
            /\ str n = DecimalString.NilEmpty.string_of_uint u
            /\ Z.of_uint u = n.
Proof.
  intros Hn. destruct n as [|p|p]; [| |lia].
  - exists (Decimal.D0 Decimal.Nil). repeat split. discriminate.
  - exists (Pos.to_uint p).
    pose proof (DecimalPos.Unsigned.to_uint_nonnil p) as Hnil.
    split; [assumption|]. split.
    + unfold str. simpl. destruct (Pos.to_uint p); [congruence|reflexivity..].
    + unfold Z.of_uint. now rewrite DecimalPos.Unsigned.of_to.
Qed.

Lemma numeral_nonempty (u : Decimal.uint) :
  u <> Decimal.Nil -> DecimalString.NilEmpty.string_of_uint u <> EmptyString.
Proof. destruct u; simpl; congruence. Qed.

Lemma numeral_digits (u : Decimal.uint) :
  filter_string isdigit (DecimalString.NilEmpty.string_of_uint u)
  = DecimalString.NilEmpty.string_of_uint u.
Proof. induction u; simpl; [reflexivity | now rewrite IHu ..]. Qed.

Lemma int_of_numeral (u : Decimal.uint) :
  u <> Decimal.Nil ->
  int_of_string (DecimalString.NilEmpty.string_of_uint u) = Ok (Z.of_uint u).
Proof.
  intros Hu. unfold int_of_string. rewrite DecimalString.NilEmpty.usu.
  destruct (DecimalString.NilEmpty.string_of_uint u) eqn:E; [|reflexivity].
  now apply numeral_nonempty in E.
Qed.

Lemma int_of_str (n : Z) : 0 <= n -> int_of_string (str n) = Ok n.
Proof.
  intros Hn. destruct (str_nonneg n Hn) as (u & Hu & -> & <-).
  now apply int_of_numeral.
Qed.

(** The index read from the name of a record is the index it was saved
    under. *)
Lemma index_path_for (i : Z) (d : Fs.path) :
  0 <= i -> _index (_path_for i d) = Ok i.
Proof.
  intros Hi. unfold _index, _path_for.
  replace ("video" ++ str i ++ ".json")%string
    with (("video" ++ str i) ++ ".json")%string by apply string_app_assoc.
  rewrite stem_json by discriminate.
  destruct (str_nonneg i Hi) as (u & Hu & -> & <-).
  simpl filter_string. rewrite numeral_digits.
  pose proof (int_of_numeral u Hu) as Hint.
  destruct (DecimalString.NilEmpty.string_of_uint u) eqn:E; [|exact Hint].
  now apply numeral_nonempty in E.
Qed.

(** ** Sorting *)

Lemma insert_by_perm {A : Type} (x : Z * A) (l : list (Z * A)) :
  Permutation (insert_by x l) (x :: l).
Proof.
  induction l as [|y l IH]; simpl; [reflexivity|].
  destruct (fst x <=? fst y); [reflexivity|].
  rewrite IH. apply perm_swap.
Qed.

Lemma stable_sort_perm {A : Type} (l : list (Z * A)) :
  Permutation (stable_sort l) l.
Proof.
  induction l as [|x l IH]; simpl; [reflexivity|].
  rewrite insert_by_perm. now constructor.
Qed.

Lemma insert_by_sorted {A : Type} (x : Z * A) (l : list (Z * A)) :
  StronglySorted Z.le (map fst l) ->
  StronglySorted Z.le (map fst (insert_by x l)).
Proof.
  induction l as [|y l IH]; simpl; intros Hs.
  - repeat constructor.
  - inversion Hs as [|? ? Hs' Hall]; subst.
    destruct (Z.leb_spec (fst x) (fst y)) as [Hle|Hgt]; simpl.
    + constructor; [assumption|]. constructor; [assumption|].
      eapply Forall_impl; [|exact Hall]. intros; lia.
    + constructor; [now apply IH|].
      apply (Permutation_Forall
               (Permutation_sym (Permutation_map fst (insert_by_perm x l)))).
      simpl. constructor; [lia | assumption].
Qed.

Lemma stable_sort_sorted {A : Type} (l : list (Z * A)) :
  StronglySorted Z.le (map fst (stable_sort l)).
Proof.
  induction l as [|x l IH]; simpl; [constructor | now apply insert_by_sorted].
Qed.

Lemma sorted_nodup_strict (keys : list Z) :
  StronglySorted Z.le keys -> NoDup keys -> StronglySorted Z.lt keys.
Proof.
  induction 1 as [|k keys Hs IH Hall]; intros Hnd; [constructor|].
  inversion Hnd as [|? ? Hnot Hnd']; subst.
  constructor; [now apply IH|].
  rewrite Forall_forall in *. intros k' Hin.
  specialize (Hall k' Hin). assert (k <> k') by congruence. lia.
Qed.

(** A list is determined by its elements once it is strictly sorted by
    key. *)
Lemma strictly_sorted_unique {A : Type} (l l' : list (Z * A)) :
  Permutation l l' ->
  StronglySorted Z.lt (map fst l) -> StronglySorted Z.lt (map fst l') ->
  l = l'.
Proof.
  revert l'. induction l as [|x l IH]; intros l' Hp Hs Hs'.
  - apply Permutation_nil in Hp. now subst.
  - destruct l' as [|y l'];
      [apply Permutation_sym, Permutation_nil in Hp; discriminate|].
    simpl in Hs, Hs'.
    inversion Hs as [|? ? Hs1 Hall]; subst.
    inversion Hs' as [|? ? Hs1' Hall']; subst.
    rewrite Forall_forall in Hall, Hall'.
    assert (Hxy : x = y).
    { assert (Hx : In x (y :: l'))
        by (eapply Permutation_in; [exact Hp | now left]).
      assert (Hy : In y (x :: l))
        by (eapply Permutation_in; [exact (Permutation_sym Hp) | now left]).
      destruct Hx as [->|Hx]; [reflexivity|].
      destruct Hy as [->|Hy]; [reflexivity|].
      pose proof (Hall' (fst x) (in_map fst _ _ Hx)).
      pose proof (Hall (fst y) (in_map fst _ _ Hy)). lia. }
    subst y. f_equal. apply IH; try assumption.
    now apply Permutation_cons_inv in Hp.
Qed.

Lemma mapM_map_pure {A B C : Type} (f : B -> result C) (h : A -> B)
    (g : A -> C) (l : list A) :
  (forall x, In x l -> f (h x) = Ok (g x)) ->
  mapM f (map h l) = Ok (map g l).
Proof.
  induction l as [|x l IH]; intros H; simpl; [reflexivity|].
  rewrite (H x) by now left. simpl.
  rewrite IH by (intros; apply H; now right). reflexivity.
Qed.

Lemma combine_map_l {A B : Type} (g : A -> B) (l : list A) :
  combine (map g l) l = map (fun x => (g x, x)) l.
Proof. induction l as [|x l IH]; simpl; [reflexivity | now rewrite IH]. Qed.

Lemma stored_In (db : list (Z * list Q)) (i : Z) (fp : list Q) :
  NoDup (map fst db) -> In (i, fp) db -> stored db i = fp.
Proof.
  unfold stored. induction db as [|[j g] db IH]; simpl; intros Hnd Hin;
    [contradiction|].
  inversion Hnd as [|? ? Hnot Hnd']; subst.
  destruct Hin as [E|Hin].
  - injection E as -> ->. now rewrite Z.eqb_refl.
  - destruct (Z.eqb_spec j i) as [->|_]; [|now apply IH].
    exfalso. apply Hnot. apply (in_map fst) in Hin. exact Hin.
Qed.

Lemma glob_not_exists (fs : Fs.t) (d : Fs.path) (pre suf : string) :
  Fs.exists_ fs d = false -> Fs.glob fs d pre suf = [].
Proof.
  unfold Fs.exists_, Fs.glob, Fs.listdir.
  destruct (Fs.stat fs d); [discriminate | reflexivity].
Qed.

(** What [load_all_fingerprints] returns on a directory holding a reference
    database. *)
Lemma load_all_holds (json_dumps : list Q -> string)
    (json_loads : string -> result (list Q))
    (d : Fs.path) (fs : Fs.t) (db : list (Z * list Q)) :
  holds json_dumps fs d db ->
  (forall i fp, In (i, fp) db -> json_loads (json_dumps fp) = Ok fp) ->
  exists out,
    load_all_fingerprints json_loads d fs = Ok (map snd out)
    /\ Permutation out db
    /\ StronglySorted Z.lt (map fst out).
Proof.
  intros (Hnd & Hperm & Hrec) Hjson. unfold load_all_fingerprints.
  destruct (Fs.exists_ fs d) eqn:Hex; cbn [negb].
  2:{ rewrite (glob_not_exists _ _ _ _ Hex) in Hperm.
      apply Permutation_nil, map_eq_nil in Hperm. subst db.
      exists []. repeat split; constructor. }
  set (pf := fun r : Z * list Q => _path_for (fst r) d) in *.
  set (paths := Fs.glob fs d "video" ".json") in *.
  assert (Hidx : forall r, In r db -> index_value (pf r) = fst r).
  { intros [i fp] Hin. unfold index_value, pf. cbn [fst].
    now rewrite index_path_for by (apply (Hrec i fp Hin)). }
  assert (Hkeys : mapM _index paths = Ok (map index_value paths)).
  { rewrite <- (map_id paths) at 1. apply mapM_map_pure. intros p Hp.
    apply (Permutation_in _ Hperm), in_map_iff in Hp as ([i fp] & <- & Hin).
    unfold index_value, pf, id. cbn [fst].
    now rewrite index_path_for by (apply (Hrec i fp Hin)). }
  unfold sorted. rewrite Hkeys. cbn [bind].
  set (dec := stable_sort (combine (map index_value paths) paths)).
  assert (Hdec : Permutation dec (map (fun r => (fst r, pf r)) db)).
  { unfold dec. rewrite stable_sort_perm, combine_map_l.
    rewrite (Permutation_map (fun p => (index_value p, p)) Hperm).
    rewrite map_map. erewrite map_ext_in; [reflexivity|].
    intros r Hr. cbn beta. now rewrite Hidx. }
  exists (map (fun kp => (fst kp, stored db (fst kp))) dec).
  split; [|split].
  - rewrite map_map. cbn [snd]. f_equal.
    apply mapM_map_pure. intros [k p] Hin.
    apply (Permutation_in _ Hdec), in_map_iff in Hin as ([i fp] & E & Hin).
    injection E as <- <-. cbn [fst snd]. unfold pf. cbn [fst].
    destruct (Hrec i fp Hin) as (_ & ->). cbn [bind].
    rewrite (Hjson i fp Hin). now rewrite (stored_In db i fp).
  - rewrite (Permutation_map _ Hdec), map_map. cbn [fst].
    erewrite map_ext_in; [rewrite map_id; reflexivity|].
    intros [i fp] Hin. cbn [fst]. now rewrite (stored_In db i fp).
  - rewrite map_map. cbn [fst].
    apply sorted_nodup_strict; [apply stable_sort_sorted|].
    apply (Permutation_NoDup (l := map fst db)); [|assumption].
    symmetry. rewrite (Permutation_map fst Hdec), map_map. reflexivity.
Qed.

Lemma uint_of_digit (c : ascii) (u : Decimal.uint) :
  isdecimal c = true ->
  exists u', DecimalString.uint_of_char c (Some u) = Some u'.
Proof.
  destruct c as [[] [] [] [] [] [] [] []]; intros H; try discriminate H;
    simpl; eauto.
Qed.

Lemma uint_of_not_digit (c : ascii) (u : option Decimal.uint) :
  isdecimal c = false -> DecimalString.uint_of_char c u = None.
Proof.
  destruct u as [u|]; [|reflexivity].
  destruct c as [[] [] [] [] [] [] [] []]; intros H; try discriminate H;
    reflexivity.
Qed.

Lemma uint_of_digits (s : string) :
  decimal_digits s = true ->
  exists u, DecimalString.NilEmpty.uint_of_string (filter_string isdigit s)
            = Some u.
Proof.
  induction s as [|c s IH]; simpl; [eauto|]. intros H.
  apply andb_true_iff in H as (Hc & Hs). destruct (IH Hs) as (u & Hu).
  destruct (isdigit c) eqn:E; [|eauto].
  simpl in Hc. simpl. rewrite Hu. now apply uint_of_digit.
Qed.

Lemma uint_of_other_digits (s : string) :
  decimal_digits s = false ->
  filter_string isdigit s <> EmptyString
  /\ DecimalString.NilEmpty.uint_of_string (filter_string isdigit s) = None.
Proof.
  induction s as [|c s IH]; simpl; [discriminate|]. intros H.
  destruct (isdigit c) eqn:E; simpl in H.
  - split; [discriminate|]. simpl.
    destruct (isdecimal c) eqn:Ed; simpl in H.
    + destruct (IH H) as (_ & ->). reflexivity.
    + now apply uint_of_not_digit.
  - now apply IH.
Qed.

(** Reading the index of a record whose digits are decimal does not
    raise. *)
Lemma index_total (p : Fs.path) :
  decimal_digits (stem p) = true -> _index p = Ok (index_value p).
Proof.
  intros Hp. unfold index_value, _index, int_of_string.
  destruct (uint_of_digits (stem p) Hp) as (u & Hu).
  destruct (filter_string isdigit (stem p)); [reflexivity|].
  now rewrite Hu.
Qed.

(** A digit that is not decimal makes [int] raise. *)
Lemma index_not_decimal (p : Fs.path) :
  decimal_digits (stem p) = false -> _index p = Raise ValueError.
Proof.
  intros Hp. unfold _index, int_of_string.
  destruct (uint_of_other_digits (stem p) Hp) as (Hne & Hu).
  destruct (filter_string isdigit (stem p)); [congruence|].
  now rewrite Hu.
Qed.

Lemma index_raises_ValueError (p : Fs.path) (e : exn) :
  _index p = Raise e -> e = ValueError.
Proof.
  destruct (decimal_digits (stem p)) eqn:E.
  - rewrite index_total by assumption. discriminate.
  - rewrite index_not_decimal by assumption. now intros [= <-].
Qed.

Lemma mapM_raises_same {A B : Type} (f : A -> result B) (l : list A) (x : A)
    (e : exn) :
  In x l -> f x = Raise e ->
  (forall y e', In y l -> f y = Raise e' -> e' = e) ->
  mapM f l = Raise e.
Proof.
  induction l as [|y l IH]; simpl; intros Hin Hx Hall; [contradiction|].
  destruct (f y) as [b|e1] eqn:Ey; cbn [bind].
  - destruct Hin as [->|Hin]; [congruence|].
    rewrite IH; [reflexivity | assumption | assumption |].
    intros z e' Hz. apply Hall. now right.
  - f_equal. apply (Hall y); [now left | assumption].
Qed.

(** On every directory whose matching records have decimal digits only in
    their names, the records are read in ascending order of the index found
    in their names. *)
Lemma load_all_by_index (json_loads : string -> result (list Q))
    (d : Fs.path) (fs : Fs.t) :
  (forall p, In p (Fs.glob fs d "video" ".json") ->
             decimal_digits (stem p) = true) ->
  exists paths keys,
    Permutation paths (Fs.glob fs d "video" ".json")
    /\ mapM _index paths = Ok keys
    /\ StronglySorted Z.le keys
    /\ (Fs.exists_ fs d = true ->
        load_all_fingerprints json_loads d fs
        = mapM (fun p => text <- Fs.read_text fs p ;; json_loads text) paths).
Proof.
  set (globbed := Fs.glob fs d "video" ".json"). intros Hdigits.
  set (dec := stable_sort (combine (map index_value globbed) globbed)).
  assert (Hkeys : mapM _index globbed = Ok (map index_value globbed)).
  { rewrite <- (map_id globbed) at 1. apply mapM_map_pure.
    intros p Hp. now apply index_total, Hdigits. }
  assert (Hdec : Permutation dec (map (fun p => (index_value p, p)) globbed))
    by (unfold dec; now rewrite stable_sort_perm, combine_map_l).
  exists (map snd dec), (map fst dec). split; [|split; [|split]].
  - rewrite (Permutation_map snd Hdec), map_map. cbn [snd]. now rewrite map_id.
  - apply mapM_map_pure. intros [k p] Hin.
    apply (Permutation_in _ Hdec), in_map_iff in Hin as (q & E & Hq).
    injection E as <- <-. now apply index_total, Hdigits.
  - apply stable_sort_sorted.
  - intros Hex. unfold load_all_fingerprints, sorted. rewrite Hex. cbn [negb].
    fold globbed. rewrite Hkeys. reflexivity.
Qed.

(** A matching record whose name holds a digit that is not decimal makes
    the computation of the sort keys, and so the whole call, raise. *)
Lemma load_all_not_decimal (json_loads : string -> result (list Q))
    (d : Fs.path) (fs : Fs.t) (p : Fs.path) :
  In p (Fs.glob fs d "video" ".json") ->
  decimal_digits (stem p) = false ->
  load_all_fingerprints json_loads d fs = Raise ValueError.
Proof.
  intros Hin Hp. unfold load_all_fingerprints, sorted.
  destruct (Fs.exists_ fs d) eqn:Hex;
    [|now rewrite (glob_not_exists _ _ _ _ Hex) in Hin].
  cbn [negb].
  rewrite (mapM_raises_same _index _ p ValueError); [reflexivity | assumption | |].
  - now apply index_not_decimal.
  - intros q e _. apply index_raises_ValueError.
Qed.

Example fs_312_listing :
  Fs.glob fs_312 FINGERPRINT_DIR "video" ".json"
  = [["fingerprints"; "video3.json"]; ["fingerprints"; "video1.json"];
     ["fingerprints"; "video2.json"]]%string.
Proof. reflexivity. Qed.

(** C8.  [load_all_fingerprints] returns the empty list when the directory
    does not exist or has no matching record.  On a directory holding a
    reference database it returns the fingerprints of the database sorted
    by strictly ascending video index, the index being the one read from
    the name of each record; the result is the same for any two file
    systems holding the database, whatever the order in which each
    enumerates the records.  On every directory whose matching records
    have decimal digits only in their names, the matching records are read
    in ascending order of the index found in their names; a matching record
    with another digit in its name (a superscript, which [str.isdigit]
    accepts and [int] does not read) makes the call raise [ValueError]. *)
Theorem load_all_fingerprints_sorted
    (json_dumps : list Q -> string) (json_loads : string -> result (list Q))
    (d : Fs.path) :
  (forall fs, Fs.exists_ fs d = false ->
              load_all_fingerprints json_loads d fs = Ok [])
  /\ (forall fs, Fs.glob fs d "video" ".json" = [] ->
                 load_all_fingerprints json_loads d fs = Ok [])
  /\ (forall fs db,
        holds json_dumps fs d db ->
        (forall i fp, In (i, fp) db -> json_loads (json_dumps fp) = Ok fp) ->
        exists out,
          load_all_fingerprints json_loads d fs = Ok (map snd out)
          /\ Permutation out db
          /\ StronglySorted Z.lt (map fst out))
  /\ (forall fs fs' db,
        holds json_dumps fs d db -> holds json_dumps fs' d db ->
        (forall i fp, In (i, fp) db -> json_loads (json_dumps fp) = Ok fp) ->
        load_all_fingerprints json_loads d fs
        = load_all_fingerprints json_loads d fs')
  /\ (forall fs,
        (forall p, In p (Fs.glob fs d "video" ".json") ->
                   decimal_digits (stem p) = true) ->
        exists paths keys,
          Permutation paths (Fs.glob fs d "video" ".json")
          /\ mapM _index paths = Ok keys
          /\ StronglySorted Z.le keys
          /\ (Fs.exists_ fs d = true ->
              load_all_fingerprints json_loads d fs
              = mapM (fun p => text <- Fs.read_text fs p ;; json_loads text)
                     paths))
  /\ (forall fs p,
        In p (Fs.glob fs d "video" ".json") ->
        decimal_digits (stem p) = false ->
        load_all_fingerprints json_loads d fs = Raise ValueError).
Proof.
  split; [|split; [|split; [|split; [|split]]]];
    [| | | |intros; now apply load_all_by_index
     |intros fs p; apply load_all_not_decimal].
  - intros fs Hex. unfold load_all_fingerprints. now rewrite Hex.
  - intros fs Hglob. unfold load_all_fingerprints. rewrite Hglob.
    now destruct (Fs.exists_ fs d).
  - intros fs db. apply load_all_holds.
  - intros fs fs' db H H' Hjson.
    destruct (load_all_holds _ _ _ _ _ H Hjson) as (out & -> & Hp & Hs).
    destruct (load_all_holds _ _ _ _ _ H' Hjson) as (out' & -> & Hp' & Hs').
    do 2 f_equal. apply strictly_sorted_unique; try assumption.
    now rewrite Hp, Hp'.
Qed.

Lemma holds_fs_312 :
  holds Json.dumps fs_312 FINGERPRINT_DIR
        [(1, [1#10]%Q); (2, [2#10; 0#10]%Q); (3, [3#10; 3#10]%Q)].
Proof.
  split; [|split].
  - simpl. repeat constructor; simpl; intuition discriminate.
  - rewrite fs_312_listing. cbn [map fst].
    change (_path_for 1 FINGERPRINT_DIR)
      with ["fingerprints"; "video1.json"]%string.
    change (_path_for 2 FINGERPRINT_DIR)
      with ["fingerprints"; "video2.json"]%string.
    change (_path_for 3 FINGERPRINT_DIR)
      with ["fingerprints"; "video3.json"]%string.
    apply Permutation_sym, Permutation_cons_app with (l1 := [_]).
    apply perm_swap.
  - intros i fp [E|[E|[E|[]]]]; injection E as <- <-;
      (split; [lia | reflexivity]).
Qed.

Lemma load_all_fingerprints_sorted_witness :
  load_all_fingerprints Json.loads FINGERPRINT_DIR [] = Ok []
  /\ (exists out,
        load_all_fingerprints Json.loads FINGERPRINT_DIR fs_312
        = Ok (map snd out)
        /\ Permutation out
             [(1, [1#10]%Q); (2, [2#10; 0#10]%Q); (3, [3#10; 3#10]%Q)]
        /\ StronglySorted Z.lt (map fst out))
  /\ load_all_fingerprints Json.loads FINGERPRINT_DIR
       (fs_312 ++ [(Fs.join FINGERPRINT_DIR
                      ("video" ++ String (ascii_of_nat 178) ".json"),
                    Fs.File "[0.1]")])
     = Raise ValueError.
Proof.
  destruct (load_all_fingerprints_sorted Json.dumps Json.loads FINGERPRINT_DIR)
    as (Hmissing & _ & Hsorted & _ & _ & Hdigit).
  split; [|split].
  - apply Hmissing. reflexivity.
  - apply Hsorted; [exact holds_fs_312|].
    intros i fp [E|[E|[E|[]]]]; injection E as <- <-; reflexivity.
  - apply (Hdigit _ (Fs.join FINGERPRINT_DIR
                       ("video" ++ String (ascii_of_nat 178) ".json")));
      [vm_compute; tauto | reflexivity].
Defined.

Example load_all_312 :
  load_all_fingerprints Json.loads FINGERPRINT_DIR fs_312
  = Ok [[1#10]; [2#10; 0#10]; [3#10; 3#10]]%Q.
Proof. reflexivity. Qed.

(** ** The JSON codec *)

Lemma avoids_app (c : ascii) (s t : string) :
  avoids c s -> avoids c t -> avoids c (s ++ t).
Proof. induction s as [|a s IH]; simpl; [auto | intuition]. Qed.

Lemma avoids_numeral (c : ascii) (u : Decimal.uint) :
  isdigit c = false -> avoids c (DecimalString.NilEmpty.string_of_uint u).
Proof.
  intros Hc. induction u; simpl; [exact I | split; [|assumption] ..];
    intros <-; discriminate.
Qed.

Lemma avoids_str (c : ascii) (n : Z) :
  isdigit c = false -> 0 <= n -> avoids c (str n).
Proof.
  intros Hc Hn. destruct (str_nonneg n Hn) as (u & _ & -> & _).
  now apply avoids_numeral.
Qed.

Lemma split_on_avoids (c : ascii) (s : string) :
  avoids c s -> Json.split_on c s = [s].
Proof.
  induction s as [|a s IH]; simpl; [reflexivity|]. intros (Ha & Hs).
  destruct (Ascii.eqb_spec a c); [contradiction|]. now rewrite IH.
Qed.

Lemma split_on_app (c : ascii) (s t : string) :
  avoids c s ->
  Json.split_on c (s ++ String c t) = s :: Json.split_on c t.
Proof.
  induction s as [|a s IH]; simpl.
  - intros _. now rewrite Ascii.eqb_refl.
  - intros (Ha & Hs). destruct (Ascii.eqb_spec a c); [contradiction|].
    now rewrite IH.
Qed.

Lemma floor_tenths (k : Z) : Qfloor (Qmake k 10 * inject_Z 10) = k.
Proof. unfold Qfloor, Qmult, inject_Z; simpl. now rewrite Z.div_mul. Qed.

Lemma float_repr_tenths (k : Z) :
  0 <= k ->
  Json.float_repr (Qmake k 10) = (str (k / 10) ++ "." ++ str (k mod 10))%string.
Proof.
  intros Hk. unfold Json.float_repr. rewrite floor_tenths.
  destruct (Z.ltb_spec k 0); [lia|]. now rewrite Z.abs_eq.
Qed.

Lemma str_digit_length (b : Z) : 0 <= b < 10 -> String.length (str b) = 1%nat.
Proof.
  intros Hb.
  assert (H : b = 0 \/ b = 1 \/ b = 2 \/ b = 3 \/ b = 4 \/ b = 5 \/ b = 6
              \/ b = 7 \/ b = 8 \/ b = 9) by lia.
  repeat (destruct H as [->|H]; [reflexivity|]). now subst.
Qed.

Lemma parse_number_decimal (a b : Z) :
  0 <= a -> 0 <= b < 10 ->
  Json.parse_number (str a ++ "." ++ str b) = Ok (Qmake (a * 10 + b) 10).
Proof.
  intros Ha Hb. unfold Json.parse_number.
  assert (Hsign : match (str a ++ "." ++ str b)%string with
                  | String "-" r => (-1, r)
                  | _ => (1, (str a ++ "." ++ str b)%string)
                  end = (1, (str a ++ "." ++ str b)%string)).
  { destruct (str_nonneg a Ha) as (u & Hu & -> & _).
    destruct u; [congruence | reflexivity ..]. }
  rewrite Hsign.
  change (str a ++ "." ++ str b)%string
    with (str a ++ String "." (str b))%string.
  rewrite split_on_app by (now apply avoids_str).
  rewrite split_on_avoids by (apply avoids_str; [reflexivity | lia]).
  rewrite !int_of_str by lia. cbn [Json.decode bind].
  rewrite str_digit_length by assumption.
  change (10 ^ Z.of_nat 1) with 10. change (Z.to_pos 10) with 10%positive.
  now rewrite Z.mul_1_l.
Qed.

Lemma parse_float_repr (v : Q) :
  (exists k, 0 <= k /\ v = Qmake k 10) ->
  Json.parse_number (Json.float_repr v) = Ok v.
Proof.
  intros (k & Hk & ->). rewrite float_repr_tenths by assumption.
  rewrite parse_number_decimal
    by (try apply Z.div_pos; try apply Z.mod_pos_bound; lia).
  do 2 f_equal. rewrite Z.mul_comm. symmetry. apply Z.div_mod. lia.
Qed.

Lemma float_repr_avoids_comma (v : Q) :
  (exists k, 0 <= k /\ v = Qmake k 10) -> avoids "," (Json.float_repr v).
Proof.
  intros (k & Hk & ->). rewrite float_repr_tenths by assumption.
  apply avoids_app; [|apply (avoids_app _ ".")].
  - apply avoids_str; [reflexivity | apply Z.div_pos; lia].
  - split; [discriminate | exact I].
  - apply avoids_str; [reflexivity | apply Z.mod_pos_bound; lia].
Qed.

Lemma float_repr_nonempty (v : Q) :
  (exists k, 0 <= k /\ v = Qmake k 10) -> Json.float_repr v <> EmptyString.
Proof.
  intros (k & Hk & ->). rewrite float_repr_tenths by assumption.
  destruct (str_nonneg (k / 10)) as (u & Hu & -> & _);
    [apply Z.div_pos; lia|].
  destruct u; [congruence | discriminate ..].
Qed.

Lemma split_on_concat (f : list Q) :
  fingerprint f -> f <> [] ->
  Json.split_on "," (String.concat "," (map Json.float_repr f))
  = map Json.float_repr f.
Proof.
  induction 1 as [|v f Hv Hf IH]; intros Hne; [congruence|].
  destruct f as [|w f].
  - simpl. now apply split_on_avoids, float_repr_avoids_comma.
  - change (String.concat "," (map Json.float_repr (v :: w :: f)))
      with (Json.float_repr v
            ++ String "," (String.concat "," (map Json.float_repr (w :: f))))%string.
    rewrite split_on_app by (now apply float_repr_avoids_comma).
    rewrite IH by discriminate. reflexivity.
Qed.

Lemma substring_app_r (s t : string) :
  substring (String.length s) (String.length t) (s ++ t) = t.
Proof.
  induction s as [|c s IH]; simpl; [|exact IH].
  induction t as [|c t IH]; simpl; [reflexivity | now rewrite IH].
Qed.

Lemma suffix_app (s t : string) : Fs.suffix t (s ++ t) = true.
Proof.
  unfold Fs.suffix. rewrite string_length_app.
  replace (String.length s + String.length t - String.length t)%nat
    with (String.length s) by lia.
  rewrite substring_app_r, String.eqb_refl.
  destruct (Nat.leb_spec (String.length t) (String.length s + String.length t));
    [reflexivity | lia].
Qed.

(** The codec reads back every fingerprint it writes. *)
Lemma json_round_trip (f : list Q) :
  fingerprint f -> Json.loads (Json.dumps f) = Ok f.
Proof.
  intros Hf. unfold Json.dumps, Json.loads.
  set (body := String.concat "," (map Json.float_repr f)).
  change ("[" ++ body ++ "]")%string with (String "[" (body ++ "]")).
  cbv beta iota zeta.
  rewrite suffix_app, string_length_app. simpl String.length.
  replace (String.length body + 1 - 1)%nat with (String.length body) by lia.
  rewrite substring_0_app.
  destruct f as [|v f]; [reflexivity|].
  assert (Hbody : body <> EmptyString).
  { unfold body. inversion Hf as [|? ? Hv _]; subst.
    pose proof (float_repr_nonempty v Hv) as Hne.
    simpl. destruct f; [assumption|].
    destruct (Json.float_repr v); [congruence | discriminate]. }
  destruct body as [|c body'] eqn:E; [congruence|]. rewrite <- E.
  unfold body. rewrite split_on_concat by (assumption || discriminate).
  rewrite <- (map_id (v :: f)) at 2. apply mapM_map_pure.
  intros w Hw. apply parse_float_repr.
  unfold fingerprint in Hf. rewrite Forall_forall in Hf. now apply Hf.
Qed.

Lemma round1_fingerprint_value (x : Q) :
  (0 <= x)%Q -> exists k, 0 <= k /\ Py.round1 x = Qmake k 10.
Proof.
  intros Hx. pose proof (round1_nonneg x Hx) as Hr.
  destruct (round1_tenths x) as (k & Hk). rewrite Hk in Hr.
  exists k. split; [|assumption]. unfold Qle in Hr; simpl in Hr. lia.
Qed.

(** What the extractor returns satisfies the invariant of the data model,
    hence is read back by the codec. *)
Lemma extract_fingerprint_fingerprint
    (librosa_load : string -> result (list Q * Z)) (audio_path : string)
    (fp : list Q) :
  extract_fingerprint librosa_load audio_path = Ok fp -> fingerprint fp.
Proof.
  unfold extract_fingerprint. intros H.
  apply bind_Ok_inv in H as ([y sr] & _ & H).
  apply bind_Ok_inv in H as (offsets & _ & H).
  apply bind_Ok_inv in H as ([last chunks] & _ & H).
  apply mapM_Forall2 in H.
  induction H as [|chunk v chunks fp Hv _ IH]; constructor; [|exact IH].
  apply bind_Ok_inv in Hv as (m & Hm & Hv). injection Hv as <-.
  apply round1_fingerprint_value. eapply np_max_abs_nonneg; eauto.
Qed.

(** C7.  Loading index [i] from a directory after a successful save of [f]
    under [i] in that directory returns exactly [f]: for any JSON codec
    that reads back the document it writes for [f], and in particular for
    the codec of this file on every fingerprint.  The save does succeed
    whenever the directory can be created (no ancestor of it is a regular
    file) and the record is not a directory. *)
Theorem save_load_round_trip (f : list Q) (i : Z) (d : Fs.path) (fs : Fs.t) :
  (forall (json_dumps : list Q -> string)
          (json_loads : string -> result (list Q)),
     json_loads (json_dumps f) = Ok f ->
     forall fs', save_fingerprint json_dumps f i d fs = Ok fs' ->
                 load_fingerprint json_loads i d fs' = Ok f)
  /\ (fingerprint f ->
      forall fs', save_fingerprint Json.dumps f i d fs = Ok fs' ->
                  load_fingerprint Json.loads i d fs' = Ok f)
  /\ (forall json_dumps : list Q -> string,
        (forall k content, (1 <= k <= List.length d)%nat ->
           Fs.lookup fs (firstn k d) <> Some (Fs.File content)) ->
        Fs.lookup fs (_path_for i d) <> Some Fs.Dir ->
        exists fs', save_fingerprint json_dumps f i d fs = Ok fs').
Proof.
  assert (Hload : forall json_dumps json_loads,
            json_loads (json_dumps f) = Ok f ->
            forall fs', save_fingerprint json_dumps f i d fs = Ok fs' ->
                        load_fingerprint json_loads i d fs' = Ok f).
  { intros json_dumps json_loads Hjson fs' Hsave. unfold save_fingerprint in Hsave.
    apply bind_Ok_inv in Hsave as (fs1 & _ & Hw).
    unfold load_fingerprint. unfold _path_for in *.
    rewrite (read_after_write _ _ _ _ _ Hw). exact Hjson. }
  split; [exact Hload|]. split.
  - intros Hf. apply Hload. now apply json_round_trip.
  - intros json_dumps. apply save_fingerprint_total.
Qed.

Lemma save_load_round_trip_witness :
  (forall fs',
     save_fingerprint Json.dumps [1#10; 4#10; 9#10]%Q 3 FINGERPRINT_DIR [] = Ok fs' ->
     load_fingerprint Json.loads 3 FINGERPRINT_DIR fs' = Ok [1#10; 4#10; 9#10]%Q)
  /\ (exists fs',
        save_fingerprint Json.dumps [1#10; 4#10; 9#10]%Q 3 FINGERPRINT_DIR [] = Ok fs')
  /\ (forall fs',
        save_fingerprint (fun _ => "[]"%string) [] 3 FINGERPRINT_DIR [] = Ok fs' ->
        load_fingerprint Json.loads 3 FINGERPRINT_DIR fs' = Ok []).
Proof.
  split; [|split].
  - destruct (save_load_round_trip [1#10; 4#10; 9#10]%Q 3 FINGERPRINT_DIR [])
      as (_ & Hcodec & _).
    apply Hcodec. repeat constructor; eexists; (split; [|reflexivity]); lia.
  - destruct (save_load_round_trip [1#10; 4#10; 9#10]%Q 3 FINGERPRINT_DIR [])
      as (_ & _ & Hsave).
    apply Hsave; intros; simpl; discriminate.
  - destruct (save_load_round_trip [] 3 FINGERPRINT_DIR []) as (Hany & _ & _).
    apply Hany. reflexivity.
Defined.

(** ** Building the reference database *)

Lemma children_app (fs fs' : Fs.t) (d : Fs.path) :
  Fs.children (fs ++ fs') d = Fs.children fs d ++ Fs.children fs' d.
Proof. unfold Fs.children. apply flat_map_app. Qed.

Lemma children_replace (fs : Fs.t) (p d : Fs.path) (n : Fs.node) :
  Fs.children (Fs.replace fs p n) d = Fs.children fs d.
Proof.
  induction fs as [|[q m] fs IH]; simpl; [reflexivity|].
  destruct (Fs.path_eqb q p); simpl; [reflexivity | now rewrite IH].
Qed.

Lemma children_entry_join (d : Fs.path) (name : string) (n : Fs.node) :
  Fs.children [(Fs.join d name, n)] d = [name].
Proof.
  unfold Fs.children, Fs.join. simpl.
  rewrite rev_app_distr. simpl. now rewrite rev_involutive, path_eqb_refl.
Qed.

Lemma children_short (extra : Fs.t) (d : Fs.path) :
  Forall (fun e => (List.length (fst e) <= List.length d)%nat) extra ->
  Fs.children extra d = [].
Proof.
  induction 1 as [|[q n] extra Hq _ IH]; [reflexivity|].
  change ((q, n) :: extra) with ([(q, n)] ++ extra).
  rewrite children_app, IH, app_nil_r. unfold Fs.children. simpl.
  destruct (rev q) as [|name rd] eqn:E; [reflexivity|].
  rewrite path_eqb_neq; [reflexivity|].
  intros <-. apply (f_equal (@List.length string)) in E.
  rewrite length_rev in E. simpl in *. rewrite length_rev in Hq. lia.
Qed.

(** [mkdir] appends entries, none of them below the directory it makes. *)
Lemma mkdir_from_extends (todo : Fs.path) :
  forall (fs fs' : Fs.t) (done : Fs.path),
    Fs.mkdir_from fs done todo = Ok fs' ->
    exists extra,
      fs' = fs ++ extra
      /\ Forall (fun e => (List.length (fst e)
                           <= List.length done + List.length todo)%nat) extra.
Proof.
  induction todo as [|c todo IH]; intros fs fs' done H; simpl in H.
  - injection H as <-. exists []. now rewrite app_nil_r.
  - destruct (Fs.lookup fs (done ++ [c])) as [[|old]|].
    + destruct (IH _ _ _ H) as (extra & -> & Hall). exists extra.
      split; [reflexivity|]. eapply Forall_impl; [|exact Hall].
      intros e He. rewrite length_app in He. simpl in *. lia.
    + destruct todo; discriminate.
    + destruct (IH _ _ _ H) as (extra & -> & Hall).
      exists ((done ++ [c], Fs.Dir) :: extra).
      split; [now rewrite <- app_assoc|]. constructor.
      * simpl. rewrite length_app. simpl. lia.
      * eapply Forall_impl; [|exact Hall].
        intros e He. rewrite length_app in He. simpl in *. lia.
Qed.

Lemma lookup_Some_In (fs : Fs.t) (p : Fs.path) (n : Fs.node) :
  Fs.lookup fs p = Some n -> In (p, n) fs.
Proof.
  induction fs as [|[q m] fs IH]; simpl; [discriminate|].
  destruct (Fs.path_eqb q p) eqn:E.
  - apply path_eqb_eq in E. intros H; injection H as <-. left. now subst.
  - intros H. right. now apply IH.
Qed.

Lemma In_children (fs : Fs.t) (d : Fs.path) (name : string) (n : Fs.node) :
  In (Fs.join d name, n) fs -> In name (Fs.children fs d).
Proof.
  intros Hin. apply in_split in Hin as (fs1 & fs2 & ->).
  change ((Fs.join d name, n) :: fs2) with ([(Fs.join d name, n)] ++ fs2).
  rewrite !children_app, children_entry_join.
  apply in_or_app. right. now left.
Qed.

Lemma record_name_matches (i : Z) :
  let name := ("video" ++ str i ++ ".json")%string in
  prefix "video" name && Fs.suffix ".json" name
  && (String.length "video" + String.length ".json" <=? String.length name)%nat
  = true.
Proof.
  cbv zeta.
  assert (Hs : Fs.suffix ".json" ("video" ++ str i ++ ".json") = true).
  { rewrite <- string_app_assoc. apply suffix_app. }
  rewrite Hs, <- string_app_assoc, string_length_app.
  assert (Hp : prefix "video" (("video" ++ str i) ++ ".json") = true).
  { simpl. destruct (str i ++ ".json")%string; reflexivity. }
  rewrite Hp, string_length_app. cbn [andb].
  apply Nat.leb_le. simpl. lia.
Qed.

Lemma path_for_inj (i j : Z) (d : Fs.path) :
  0 <= i -> 0 <= j -> _path_for i d = _path_for j d -> i = j.
Proof.
  intros Hi Hj E. pose proof (index_path_for i d Hi) as H.
  rewrite E, (index_path_for j d Hj) in H. congruence.
Qed.

Lemma db_save_new (db : list (Z * list Q)) (i : Z) (f : list Q) :
  ~ In i (map fst db) -> db_save db i f = db ++ [(i, f)].
Proof.
  induction db as [|[j g] db IH]; simpl; intros Hnot; [reflexivity|].
  destruct (Z.eqb_spec j i); [exfalso; auto|]. rewrite IH; auto.
Qed.

Lemma db_save_keys (db : list (Z * list Q)) (i : Z) (f : list Q) :
  In i (map fst db) -> map fst (db_save db i f) = map fst db.
Proof.
  induction db as [|[j g] db IH]; simpl; intros Hin; [contradiction|].
  destruct (Z.eqb_spec j i) as [|Hne]; [reflexivity|].
  simpl. rewrite IH; [reflexivity|]. destruct Hin; [contradiction|assumption].
Qed.

Lemma In_db_save (db : list (Z * list Q)) (i j : Z) (f g : list Q) :
  NoDup (map fst db) -> In (j, g) (db_save db i f) ->
  (j = i /\ g = f) \/ (j <> i /\ In (j, g) db).
Proof.
  induction db as [|[k h] db IH]; simpl; intros Hnd Hin.
  - destruct Hin as [E|[]]. injection E as <- <-. now left.
  - inversion Hnd as [|? ? Hnot Hnd']; subst.
    destruct (Z.eqb_spec k i) as [->|Hne].
    + destruct Hin as [E|Hin]; [injection E as <- <-; now left|].
      right. split; [|now right].
      intros ->. apply Hnot. apply (in_map fst) in Hin. exact Hin.
    + destruct Hin as [E|Hin].
      * injection E as <- <-. right. split; [assumption | now left].
      * destruct (IH Hnd' Hin) as [?|(? & ?)]; [now left|].
        right. split; [assumption | now right].
Qed.

Lemma db_save_nodup (db : list (Z * list Q)) (i : Z) (f : list Q) :
  NoDup (map fst db) -> NoDup (map fst (db_save db i f)).
Proof.
  intros Hnd. destruct (in_dec Z.eq_dec i (map fst db)) as [Hin|Hnot].
  - now rewrite db_save_keys.
  - rewrite db_save_new, map_app by assumption. simpl.
    apply NoDup_app_remove_l with (l := []). simpl.
    apply Permutation_NoDup with (l := i :: map fst db);
      [apply Permutation_cons_append | now constructor].
Qed.

Lemma join_neq_parent (d : Fs.path) (name : string) : d <> Fs.join d name.
Proof.
  intros E. apply (f_equal (@List.length string)) in E.
  unfold Fs.join in E. rewrite length_app in E. simpl in E. lia.
Qed.

Lemma stat_replace_other (fs : Fs.t) (p q : Fs.path) (n : Fs.node) :
  q <> p -> Fs.stat (Fs.replace fs p n) q = Fs.stat fs q.
Proof.
  intros Hne. destruct q; [reflexivity|]. simpl. now apply lookup_replace_other.
Qed.

Lemma stat_app_dir (fs fs' : Fs.t) (q : Fs.path) :
  Fs.stat fs q = Some Fs.Dir -> Fs.stat (fs ++ fs') q = Some Fs.Dir.
Proof.
  destruct q; [reflexivity|]. simpl. intros H. now rewrite lookup_app, H.
Qed.

(** One save keeps the invariant of the directory, and leaves the
    directory in existence. *)
Lemma save_fingerprint_written (json_dumps : list Q -> string)
    (fs fs' : Fs.t) (d : Fs.path) (db : list (Z * list Q))
    (i : Z) (f : list Q) :
  written json_dumps fs d db -> 0 <= i ->
  save_fingerprint json_dumps f i d fs = Ok fs' ->
  written json_dumps fs' d (db_save db i f) /\ Fs.stat fs' d = Some Fs.Dir.
Proof.
  intros (Hnd & Hlist & Hrec) Hi Hsave. unfold save_fingerprint in Hsave.
  apply bind_Ok_inv in Hsave as (fs1 & Hmk & Hw).
  unfold Fs.mkdir_parents_exist_ok in Hmk.
  assert (Hkeep : forall j, Fs.lookup fs1 (_path_for j d)
                            = Fs.lookup fs (_path_for j d)).
  { intros j.
    destruct (mkdir_from_lookup _ _ _ [] (_path_for j d) Hmk)
      as [E|(_ & k & _ & Hk)]; [exact E|].
    now apply path_for_not_prefix in Hk. }
  assert (Hch : Fs.children fs1 d = Fs.children fs d).
  { destruct (mkdir_from_extends _ _ _ _ Hmk) as (extra & -> & Hextra).
    rewrite children_app, (children_short extra d Hextra). apply app_nil_r. }
  pose proof (record_name_matches i) as Hpat. cbv zeta in Hpat.
  unfold written. unfold _path_for in Hw |- *.
  set (name := ("video" ++ str i ++ ".json")%string) in *.
  set (pat := fun name : string => _) in *.
  change (pat name = true) in Hpat.
  fold (_path_for i d) in Hw. unfold Fs.write_text in Hw.
  unfold _path_for in Hw. fold name in Hw.
  destruct (Fs.join d name) as [|c q] eqn:E; [now apply join_nonempty in E|].
  rewrite <- E in *. rewrite parent_join in Hw.
  destruct (Fs.stat fs1 d) as [[|]|] eqn:Hd; try discriminate.
  assert (Hp : forall j, 0 <= j -> j <> i ->
                         Fs.join d ("video" ++ str j ++ ".json") <> Fs.join d name).
  { intros j Hj Hne Ej. apply Hne. apply (path_for_inj j i d); assumption. }
  destruct (Fs.lookup fs1 (Fs.join d name)) as [[|old]|] eqn:L;
    try discriminate; injection Hw as <-.
  - (* the record exists: it is overwritten in place *)
    assert (Hin : In i (map fst db)).
    { pose proof (Hkeep i) as Hk. unfold _path_for in Hk. fold name in Hk.
      rewrite L in Hk. symmetry in Hk.
      apply lookup_Some_In, In_children in Hk.
      assert (Hg : In (Fs.join d name)
                      (map (Fs.join d) (filter pat (Fs.children fs d))))
        by (apply in_map, filter_In; split; assumption).
      rewrite Hlist in Hg. apply in_map_iff in Hg as ([j g] & Hj & Hg).
      cbn [fst] in Hj. destruct (Hrec j g Hg) as (H0 & _).
      apply (path_for_inj j i d H0 Hi) in Hj. subst j.
      apply (in_map fst) in Hg. exact Hg. }
    split; [split; [now apply db_save_nodup | split]|].
    + rewrite children_replace, Hch, Hlist.
      assert (Hmm : forall l : list (Z * list Q),
                map (fun r => _path_for (fst r) d) l
                = map (fun k => _path_for k d) (map fst l))
        by (intros; now rewrite map_map).
      change (map (fun r : Z * list Q =>
                     Fs.join d ("video" ++ str (fst r) ++ ".json"))
                  (db_save db i f))
        with (map (fun r => _path_for (fst r) d) (db_save db i f)).
      now rewrite !Hmm, db_save_keys.
    + intros j g Hj. apply In_db_save in Hj as [(-> & ->)|(Hne & Hj)];
        [|destruct (Hrec j g Hj) as (H0 & Hl)|assumption].
      * split; [assumption|]. fold name.
        apply lookup_replace_same. congruence.
      * split; [assumption|].
        rewrite lookup_replace_other by (now apply Hp).
        pose proof (Hkeep j) as Hk. unfold _path_for in Hk, Hl.
        now rewrite Hk.
    + rewrite stat_replace_other; [assumption | apply join_neq_parent].
  - (* the record is new: it is appended *)
    assert (Hnot : ~ In i (map fst db)).
    { intros Hin. apply in_map_iff in Hin as ([j g] & Hj & Hin).
      cbn [fst] in Hj. subst j. destruct (Hrec i g Hin) as (_ & Hl).
      pose proof (Hkeep i) as Hk. unfold _path_for in Hk, Hl. fold name in Hk, Hl.
      congruence. }
    pose proof (db_save_nodup db i f Hnd) as Hnd'.
    rewrite db_save_new in * by assumption.
    split; [split; [assumption | split]|].
    + rewrite children_app, children_entry_join, Hch, filter_app, !map_app.
      rewrite Hlist. cbn [filter map fst]. fold name. now rewrite Hpat.
    + intros j g Hj. apply in_app_or in Hj as [Hj|[Ej|[]]].
      * destruct (Hrec j g Hj) as (H0 & Hl). split; [assumption|].
        pose proof (Hkeep j) as Hk. unfold _path_for in Hk, Hl.
        now rewrite lookup_app, Hk, Hl.
      * injection Ej as <- <-. split; [assumption|]. fold name.
        rewrite lookup_app, L. simpl. now rewrite path_eqb_refl.
    + now apply stat_app_dir.
Qed.

Lemma written_holds (json_dumps : list Q -> string) (fs : Fs.t)
    (d : Fs.path) (db : list (Z * list Q)) :
  written json_dumps fs d db ->
  db = [] \/ Fs.stat fs d = Some Fs.Dir ->
  holds json_dumps fs d db.
Proof.
  intros (Hnd & Hlist & Hrec) Hd. split; [assumption|]. split.
  - unfold Fs.glob, Fs.listdir. destruct Hd as [->|Hd].
    + simpl in *. destruct (Fs.stat fs d) as [[|]|]; [|constructor ..].
      cbn [String.length Nat.add] in *. rewrite Hlist. constructor.
    + rewrite Hd. cbn [String.length Nat.add] in *. now rewrite Hlist.
  - intros i fp Hin. destruct (Hrec i fp Hin) as (Hi & Hl).
    split; [assumption|]. unfold Fs.read_text, _path_for in *.
    now rewrite stat_join, Hl.
Qed.

Lemma save_all_written (json_dumps : list Q -> string)
    (records : list (Z * list Q)) (d : Fs.path) :
  forall (fs fs' : Fs.t) (db : list (Z * list Q)),
    written json_dumps fs d db ->
    Forall (fun r => 0 <= fst r) records ->
    save_all json_dumps records d fs = Ok fs' ->
    written json_dumps fs' d
            (fold_left (fun db '(i, f) => db_save db i f) records db)
    /\ (records <> [] -> Fs.stat fs' d = Some Fs.Dir).
Proof.
  unfold save_all.
  induction records as [|[i f] records IH]; intros fs fs' db Hw Hpos Hsave.
  - injection Hsave as <-. split; [assumption | congruence].
  - cbn [foldM fold_left] in *.
    apply bind_Ok_inv in Hsave as (fs1 & Hs1 & Hsave).
    inversion Hpos as [|? ? Hi Hpos']; subst. cbn [fst] in Hi.
    destruct (save_fingerprint_written _ _ _ _ _ _ _ Hw Hi Hs1) as (Hw1 & Hd1).
    destruct (IH _ _ _ Hw1 Hpos' Hsave) as (Hw' & Hd').
    split; [assumption|]. intros _.
    destruct records as [|r records]; [|apply Hd'; discriminate].
    simpl in Hsave. now injection Hsave as <-.
Qed.

(** Building a database with [save_fingerprint] from a directory without
    matching records, then loading it: the fingerprints come back sorted by
    ascending index, each index with the fingerprint saved last for it. *)
Lemma save_all_then_load_all (json_dumps : list Q -> string)
    (json_loads : string -> result (list Q))
    (records : list (Z * list Q)) (d : Fs.path) (fs fs' : Fs.t) :
  written json_dumps fs d [] ->
  Forall (fun r => 0 <= fst r /\ json_loads (json_dumps (snd r)) = Ok (snd r))
         records ->
  save_all json_dumps records d fs = Ok fs' ->
  exists out,
    load_all_fingerprints json_loads d fs' = Ok (map snd out)
    /\ Permutation out (fold_left (fun db '(i, f) => db_save db i f) records [])
    /\ StronglySorted Z.lt (map fst out).
Proof.
  intros Hw Hrec Hsave.
  destruct (save_all_written json_dumps records d fs fs' [] Hw) as (Hw' & Hd');
    [eapply Forall_impl; [|exact Hrec]; now intros r (H & _) | assumption |].
  apply (load_all_holds json_dumps).
  - apply written_holds; [assumption|].
    destruct records; [now left | right; apply Hd'; discriminate].
  - assert (Hin : forall l db,
              Forall (fun r => json_loads (json_dumps (snd r)) = Ok (snd r)) l ->
              Forall (fun r => json_loads (json_dumps (snd r)) = Ok (snd r)) db ->
              Forall (fun r => json_loads (json_dumps (snd r)) = Ok (snd r))
                     (fold_left (fun db '(i, f) => db_save db i f) l db)).
    { induction l as [|[i f] l IH]; intros db Hl Hdb; [assumption|].
      cbn [fold_left]. inversion Hl; subst. apply IH; [assumption|].
      clear - Hdb H1. induction Hdb as [|[j g] db Hj Hdb IHdb]; simpl.
      - now constructor.
      - destruct (j =? i); constructor; assumption. }
    intros i fp Hfp.
    specialize (Hin records []
                  ltac:(eapply Forall_impl; [|exact Hrec]; now intros r (_ & H))
                  ltac:(constructor)).
    rewrite Forall_forall in Hin. apply (Hin (i, fp) Hfp).
Qed.

Lemma written_empty (json_dumps : list Q -> string) (d : Fs.path) :
  written json_dumps [] d [].
Proof.
  split; [constructor|]. split; [reflexivity|]. intros i fp [].
Qed.

(** From an empty file system, with the codec of this file: whatever
    fingerprints are saved, under natural indices and in any order,
    [load_all_fingerprints] returns them sorted by ascending index. *)
Lemma build_then_load_all (records : list (Z * list Q)) (d : Fs.path)
    (fs' : Fs.t) :
  Forall (fun r => 0 <= fst r /\ fingerprint (snd r)) records ->
  save_all Json.dumps records d [] = Ok fs' ->
  exists out,
    load_all_fingerprints Json.loads d fs' = Ok (map snd out)
    /\ Permutation out (fold_left (fun db '(i, f) => db_save db i f) records [])
    /\ StronglySorted Z.lt (map fst out).
Proof.
  intros Hrec. apply save_all_then_load_all; [apply written_empty|].
  eapply Forall_impl; [|exact Hrec].
  intros r (Hi & Hf). split; [assumption | now apply json_round_trip].
Qed.

(** * Further properties of the code *)

(** ** Names of records and of videos *)

Lemma string_app_inv_tail (s t u : string) :
  (s ++ u = t ++ u)%string -> s = t.
Proof.
  revert t. induction s as [|a s IH]; intros t E.
  - destruct t as [|b t]; [reflexivity|]. exfalso.
    apply (f_equal String.length) in E.
    simpl in E. rewrite string_length_app in E. lia.
  - destruct t as [|b t].
    + exfalso. apply (f_equal String.length) in E.
      simpl in E. rewrite string_length_app in E. lia.
    + simpl in E. injection E as -> E. f_equal. now apply IH.
Qed.

Lemma str_inj (i j : Z) : str i = str j -> i = j.
Proof.
  unfold str. intros E. apply DecimalZ.to_int_inj.
  assert (Hn : forall n, Z.to_int n <> Decimal.Pos Decimal.Nil
                         /\ Z.to_int n <> Decimal.Neg Decimal.Nil).
  { intros [|p|p]; simpl; split; try discriminate;
      intros H; injection H as H;
      now apply DecimalPos.Unsigned.to_uint_nonnil in H. }
  destruct (Hn i) as (Hi1 & Hi2). destruct (Hn j) as (Hj1 & Hj2).
  pose proof (DecimalString.NilZero.isi _ Hi1 Hi2) as Ei.
  pose proof (DecimalString.NilZero.isi _ Hj1 Hj2) as Ej.
  rewrite E in Ei. congruence.
Qed.

Lemma video_name_inj (i j : Z) (ext : string) :
  ("video" ++ str i ++ ext = "video" ++ str j ++ ext)%string -> i = j.
Proof.
  intros E. simpl in E. injection E as E.
  now apply string_app_inv_tail, str_inj in E.
Qed.

Lemma join_inj (d : Fs.path) (s t : string) :
  Fs.join d s = Fs.join d t -> s = t.
Proof. unfold Fs.join. intros E. now apply app_inj_tail in E. Qed.

Lemma path_for_inj_all (i j : Z) (d : Fs.path) :
  _path_for i d = _path_for j d -> i = j.
Proof.
  unfold _path_for. intros E. now apply join_inj, video_name_inj in E.
Qed.

Lemma range2_length (a b : Z) : List.length (range2 a b) = Z.to_nat (b - a).
Proof. unfold range2. now rewrite length_map, length_seq. Qed.

Lemma range2_nth (a b : Z) (k : nat) (d : Z) :
  (k < Z.to_nat (b - a))%nat -> nth k (range2 a b) d = a + Z.of_nat k.
Proof.
  intros Hk. unfold range2.
  rewrite (nth_indep _ d (a + Z.of_nat 0))
    by (now rewrite length_map, length_seq).
  rewrite (map_nth (fun i => a + Z.of_nat i)), seq_nth by assumption.
  reflexivity.
Qed.

Lemma range2_In (a b i : Z) : In i (range2 a b) <-> a <= i < b.
Proof.
  unfold range2. rewrite in_map_iff. split.
  - intros (k & <- & Hk). apply in_seq in Hk. lia.
  - intros Hi. exists (Z.to_nat (i - a)). rewrite in_seq. lia.
Qed.

Lemma NoDup_map_inj {A B : Type} (f : A -> B) (l : list A) :
  (forall x y, In x l -> In y l -> f x = f y -> x = y) ->
  NoDup l -> NoDup (map f l).
Proof.
  intros Hinj Hnd. induction Hnd as [|x l Hnot Hnd IH]; simpl; constructor.
  - intros Hin. apply in_map_iff in Hin as (y & E & Hy).
    apply Hinj in E; [subst y; contradiction | now right | now left].
  - apply IH. intros y z Hy Hz. apply Hinj; now right.
Qed.

Lemma range2_NoDup (a b : Z) : NoDup (range2 a b).
Proof.
  unfold range2. apply NoDup_map_inj; [intros; lia | apply seq_NoDup].
Qed.

(** X15.  [iter_video_paths] yields [count] pairs (none when [count] is not
    positive); the pair of rank [k] holds the index [k + 1] and the path of
    [video<k+1><extension>] in the directory; no two paths are the same. *)
Theorem iter_video_paths_enumerates (video_dir : Fs.path) (count : Z)
    (extension : string) :
  List.length (iter_video_paths video_dir count extension) = Z.to_nat count
  /\ (forall k, (k < Z.to_nat count)%nat ->
        nth k (iter_video_paths video_dir count extension) (0, [])
        = (Z.of_nat k + 1,
           Fs.join video_dir
                   ("video" ++ str (Z.of_nat k + 1) ++ extension)%string))
  /\ NoDup (map snd (iter_video_paths video_dir count extension)).
Proof.
  unfold iter_video_paths. split; [|split].
  - rewrite length_map, range2_length. f_equal. lia.
  - intros k Hk.
    set (g := fun i => (i, Fs.join video_dir
                              ("video" ++ str i ++ extension)%string)).
    rewrite (nth_indep _ (0, []) (g 0))
      by (rewrite length_map, range2_length; lia).
    rewrite (map_nth g), range2_nth by lia.
    unfold g. now rewrite (Z.add_comm 1).
  - rewrite map_map. cbn [snd].
    apply NoDup_map_inj; [|apply range2_NoDup].
    intros i j _ _ E. now apply join_inj, video_name_inj in E.
Qed.

Lemma iter_video_paths_enumerates_witness :
  nth 1 (iter_video_paths ["clips"%string] 3 ".mp4") (0, [])
  = (2, ["clips"; "video2.mp4"]%string).
Proof.
  destruct (iter_video_paths_enumerates ["clips"%string] 3 ".mp4")
    as (_ & Hnth & _).
  apply (Hnth 1%nat). simpl. lia.
Defined.

Lemma filter_digits_str (i : Z) :
  filter_string isdigit (str i) = str (Z.abs i).
Proof.
  destruct i as [|p|p].
  - reflexivity.
  - destruct (str_nonneg (Z.pos p)) as (u & _ & E & _); [lia|].
    simpl Z.abs. rewrite E. apply numeral_digits.
  - change (str (Z.neg p)) with (String "-" (str (Z.pos p))).
    simpl Z.abs. simpl filter_string.
    destruct (str_nonneg (Z.pos p)) as (u & _ & E & _); [lia|].
    rewrite E. apply numeral_digits.
Qed.

(** X12.  The index read back from the name of a record saved under [i] is
    the absolute value of [i]: a sign is not a digit, so the records of [i]
    and of [-i] get the same rank in [load_all_fingerprints]. *)
Theorem index_of_saved_record (i : Z) (d : Fs.path) :
  _index (_path_for i d) = Ok (Z.abs i)
  /\ _index (_path_for (- i) d) = _index (_path_for i d).
Proof.
  assert (H : forall j, _index (_path_for j d) = Ok (Z.abs j)).
  { intros j. unfold _index, _path_for.
    replace ("video" ++ str j ++ ".json")%string
      with (("video" ++ str j) ++ ".json")%string by apply string_app_assoc.
    rewrite stem_json by discriminate.
    simpl filter_string. rewrite filter_digits_str.
    pose proof (int_of_str (Z.abs j) (Z.abs_nonneg j)) as Hint.
    destruct (str_nonneg (Z.abs j) (Z.abs_nonneg j)) as (u & Hu & E & _).
    rewrite E in *.
    destruct (DecimalString.NilEmpty.string_of_uint u) eqn:Eu; [|exact Hint].
    now apply numeral_nonempty in Eu. }
  split; [apply H|]. now rewrite !H, Z.abs_opp.
Qed.

(** ** The store: errors, and what a save touches *)

Lemma mapM_raises {A B : Type} (f : A -> result B) (l : list A) (x : A)
    (e : exn) :
  In x l -> f x = Raise e -> exists e', mapM f l = Raise e'.
Proof.
  induction l as [|y l IH]; simpl; intros Hin Hx; [contradiction|].
  destruct Hin as [->|Hin].
  - rewrite Hx. simpl. eauto.
  - destruct (f y) as [b|e1]; simpl; [|eauto].
    destruct (IH Hin Hx) as (e' & ->). simpl. eauto.
Qed.

Lemma mapM_ext_in {A B : Type} (f g : A -> result B) (l : list A) :
  (forall x, In x l -> f x = g x) -> mapM f l = mapM g l.
Proof.
  induction l as [|x l IH]; intros H; simpl; [reflexivity|].
  rewrite (H x) by now left. rewrite IH by (intros; apply H; now right).
  reflexivity.
Qed.

(** The order in which [load_all_fingerprints] reads the records. *)
Lemma load_all_unfold (json_loads : string -> result (list Q))
    (d : Fs.path) (fs : Fs.t) :
  Fs.exists_ fs d = true ->
  load_all_fingerprints json_loads d fs
  = (keys <- mapM _index (Fs.glob fs d "video" ".json") ;;
     mapM (fun p => text <- Fs.read_text fs p ;; json_loads text)
          (map snd (stable_sort
                      (combine keys (Fs.glob fs d "video" ".json"))))).
Proof.
  intros Hex. unfold load_all_fingerprints, sorted. rewrite Hex. cbn [negb].
  now destruct (mapM _index (Fs.glob fs d "video" ".json")).
Qed.

Lemma map_snd_combine {A B : Type} (keys : list A) (l : list B) :
  List.length keys = List.length l -> map snd (combine keys l) = l.
Proof.
  revert l. induction keys as [|k keys IH]; intros [|x l] H;
    try discriminate H; [reflexivity|].
  simpl. f_equal. apply IH. now injection H.
Qed.

Lemma sorted_paths_In (keys : list Z) (l : list Fs.path) (p : Fs.path) :
  List.length keys = List.length l ->
  In p (map snd (stable_sort (combine keys l))) <-> In p l.
Proof.
  intros Hlen.
  assert (Hp : Permutation (map snd (stable_sort (combine keys l))) l)
    by (now rewrite stable_sort_perm, map_snd_combine).
  split; apply Permutation_in; [assumption | now symmetry].
Qed.

Lemma glob_exists (fs : Fs.t) (d p : Fs.path) (pre suf : string) :
  In p (Fs.glob fs d pre suf) -> Fs.exists_ fs d = true.
Proof.
  intros Hin. destruct (Fs.exists_ fs d) eqn:E; [reflexivity|].
  now rewrite (glob_not_exists _ _ _ _ E) in Hin.
Qed.

(** X13.  [load_all_fingerprints] has no partial result: when one matching
    record cannot be read or is not a JSON document, the whole call
    raises. *)
Theorem load_all_fingerprints_aborts (json_loads : string -> result (list Q))
    (d : Fs.path) (fs : Fs.t) (p : Fs.path) (e : exn) :
  In p (Fs.glob fs d "video" ".json") ->
  (text <- Fs.read_text fs p ;; json_loads text) = Raise e ->
  exists e', load_all_fingerprints json_loads d fs = Raise e'.
Proof.
  intros Hin Hp. rewrite load_all_unfold by (eapply glob_exists; eauto).
  destruct (mapM _index (Fs.glob fs d "video" ".json")) as [keys|e1] eqn:K;
    cbn [bind]; [|eauto].
  apply (mapM_raises _ _ p e); [|exact Hp].
  apply sorted_paths_In; [|assumption].
  now rewrite (mapM_length _ _ _ K).
Qed.

Lemma load_all_fingerprints_aborts_witness :
  exists e',
    load_all_fingerprints Json.loads FINGERPRINT_DIR
      (fs_312 ++ [(["fingerprints"; "video7.json"]%string, Fs.File "oops")])
    = Raise e'.
Proof.
  apply (load_all_fingerprints_aborts Json.loads FINGERPRINT_DIR
           (fs_312 ++ [(["fingerprints"; "video7.json"]%string, Fs.File "oops")])
           ["fingerprints"; "video7.json"]%string JSONDecodeError).
  - vm_compute. tauto.
  - reflexivity.
Defined.

Lemma children_In_inv (fs : Fs.t) (d : Fs.path) (name : string) :
  In name (Fs.children fs d) -> exists n, In (Fs.join d name, n) fs.
Proof.
  unfold Fs.children. rewrite in_flat_map. intros ([q n] & Hq & Hin).
  exists n. destruct (rev q) as [|nm rd] eqn:E; [contradiction|].
  destruct (Fs.path_eqb (rev rd) d) eqn:Ed; [|contradiction].
  apply path_eqb_eq in Ed. destruct Hin as [->|[]].
  replace (Fs.join d name) with q; [assumption|].
  unfold Fs.join. rewrite <- Ed, <- (rev_involutive q), E. reflexivity.
Qed.

Lemma In_lookup (fs : Fs.t) (p : Fs.path) (n : Fs.node) :
  In (p, n) fs -> Fs.lookup fs p <> None.
Proof.
  induction fs as [|[q m] fs IH]; simpl; [contradiction|].
  intros [E|Hin].
  - injection E as -> ->. now rewrite path_eqb_refl.
  - destruct (Fs.path_eqb q p); [discriminate | now apply IH].
Qed.

Lemma glob_In_lookup (fs : Fs.t) (d p : Fs.path) (pre suf : string) :
  In p (Fs.glob fs d pre suf) -> Fs.lookup fs p <> None /\ p <> [].
Proof.
  unfold Fs.glob, Fs.listdir. intros Hin.
  apply in_map_iff in Hin as (name & <- & Hin).
  apply filter_In in Hin as (Hin & _).
  destruct (Fs.stat fs d) as [[|]|]; try contradiction.
  apply children_In_inv in Hin as (n & Hin).
  split; [now apply (In_lookup _ _ n) | apply join_nonempty].
Qed.

(** X14.  [load_all_fingerprints] only looks at the entries of the
    directory named [video*.json]: a new entry that is no such record, in
    the directory or anywhere else, does not change its result. *)
Theorem load_all_fingerprints_ignores (json_loads : string -> result (list Q))
    (d : Fs.path) (fs : Fs.t) (q : Fs.path) (n : Fs.node) :
  Fs.stat fs d = Some Fs.Dir ->
  Fs.lookup fs q = None ->
  (forall name, q = Fs.join d name ->
     prefix "video" name && Fs.suffix ".json" name
     && (String.length "video" + String.length ".json" <=? String.length name)%nat
     = false) ->
  load_all_fingerprints json_loads d (fs ++ [(q, n)])
  = load_all_fingerprints json_loads d fs.
Proof.
  intros Hd Hq Hpat.
  assert (Hex : Fs.exists_ fs d = true) by (unfold Fs.exists_; now rewrite Hd).
  assert (Hex' : Fs.exists_ (fs ++ [(q, n)]) d = true)
    by (unfold Fs.exists_; now rewrite (stat_app_dir _ _ _ Hd)).
  assert (Hglob : Fs.glob (fs ++ [(q, n)]) d "video" ".json"
                  = Fs.glob fs d "video" ".json").
  { unfold Fs.glob, Fs.listdir. rewrite (stat_app_dir _ _ _ Hd), Hd.
    rewrite children_app, filter_app. f_equal.
    rewrite <- app_nil_r. f_equal.
    unfold Fs.children. cbn [flat_map]. rewrite app_nil_r.
    destruct (rev q) as [|name rd] eqn:E; [reflexivity|].
    destruct (Fs.path_eqb (rev rd) d) eqn:Ed; [|reflexivity].
    apply path_eqb_eq in Ed. cbn [filter].
    rewrite Hpat; [reflexivity|].
    unfold Fs.join. rewrite <- Ed, <- (rev_involutive q), E. reflexivity. }
  rewrite !load_all_unfold, Hglob by assumption.
  destruct (mapM _index (Fs.glob fs d "video" ".json")) as [keys|e1] eqn:K;
    cbn [bind]; [|reflexivity].
  apply mapM_ext_in. intros p Hp.
  apply -> sorted_paths_In in Hp; [|now rewrite (mapM_length _ _ _ K)].
  apply glob_In_lookup in Hp as (Hp & Hne).
  unfold Fs.read_text, Fs.stat. destruct p as [|c p]; [congruence|].
  rewrite lookup_app. destruct (Fs.lookup fs (c :: p)); [reflexivity|congruence].
Qed.

Lemma load_all_fingerprints_ignores_witness :
  load_all_fingerprints Json.loads FINGERPRINT_DIR
    (fs_312 ++ [(["fingerprints"; "notes.txt"]%string, Fs.File "to do")])
  = load_all_fingerprints Json.loads FINGERPRINT_DIR fs_312.
Proof.
  apply (load_all_fingerprints_ignores Json.loads FINGERPRINT_DIR fs_312
           ["fingerprints"; "notes.txt"]%string (Fs.File "to do")).
  - reflexivity.
  - reflexivity.
  - intros name E. apply (join_inj FINGERPRINT_DIR "notes.txt" name) in E.
    subst name. reflexivity.
Defined.

(** Which error a path without an entry gives. *)
Lemma missing_error_spec (todo : Fs.path) :
  forall (fs : Fs.t) (done : Fs.path),
    (Fs.missing_error fs done todo = NotADirectoryError
     \/ Fs.missing_error fs done todo = FileNotFoundError)
    /\ (Fs.missing_error fs done todo = NotADirectoryError
        <-> exists k content,
              (1 <= k <= List.length todo)%nat
              /\ Fs.lookup fs (done ++ firstn k todo) = Some (Fs.File content)
              /\ forall k', (1 <= k' < k)%nat ->
                    Fs.lookup fs (done ++ firstn k' todo) = Some Fs.Dir).
Proof.
  induction todo as [|c todo IH]; intros fs done.
  - cbn [Fs.missing_error]. split; [now right|]. split; [discriminate|].
    intros (k & content & Hk & _). simpl in Hk. lia.
  - cbn [Fs.missing_error].
    destruct (Fs.lookup fs (done ++ [c])) as [[|content]|] eqn:L.
    + destruct (IH fs (done ++ [c])) as (Hor & Hiff). split; [exact Hor|].
      rewrite Hiff. split.
      * intros (k & content & Hk & Hf & Hd). exists (S k), content.
        split; [simpl; lia|]. cbn [firstn].
        split; [now rewrite <- app_assoc in Hf|].
        intros [|k'] Hk'; [lia|]. cbn [firstn].
        destruct k' as [|k']; [now rewrite firstn_O|].
        specialize (Hd (S k') ltac:(lia)). now rewrite <- app_assoc in Hd.
      * intros (k & content & Hk & Hf & Hd).
        destruct k as [|k]; [lia|]. cbn [firstn] in Hf.
        destruct k as [|k]; [rewrite firstn_O in Hf; congruence|].
        exists (S k), content. split; [simpl in Hk; lia|].
        split; [now rewrite <- app_assoc|].
        intros k' Hk'. specialize (Hd (S k') ltac:(lia)).
        cbn [firstn] in Hd. now rewrite <- app_assoc.
    + split; [now left|]. split; [|reflexivity]. intros _.
      exists 1%nat, content. split; [simpl; lia|].
      cbn [firstn]. split; [assumption | intros k' Hk'; lia].
    + split; [now right|]. split; [discriminate|].
      intros (k & content & Hk & Hf & Hd). exfalso.
      destruct k as [|k]; [lia|]. cbn [firstn] in Hf.
      destruct k as [|k]; [rewrite firstn_O in Hf; congruence|].
      specialize (Hd 1%nat ltac:(lia)). cbn [firstn] in Hd. congruence.
Qed.

Lemma missing_error_no_file (fs : Fs.t) (d : Fs.path) :
  (forall k content, (1 <= k <= List.length d)%nat ->
     Fs.lookup fs (firstn k d) <> Some (Fs.File content)) ->
  Fs.missing_error fs [] d = FileNotFoundError.
Proof.
  intros Hfile. destruct (missing_error_spec d fs []) as ([E|E] & Hiff);
    [|assumption].
  exfalso. apply Hiff in E as (k & content & Hk & Hf & _).
  now apply (Hfile k content).
Qed.

(** X7.  [load_fingerprint] returns a fingerprint exactly when the record
    of the index is a regular file whose text [json] reads as that
    fingerprint.  When there is no entry for the record it never returns a
    default value: it raises [NotADirectoryError] when the first component
    of the directory that is not a directory is a regular file, and
    [FileNotFoundError] otherwise. *)
Theorem load_fingerprint_missing (json_loads : string -> result (list Q))
    (i : Z) (d : Fs.path) (fs : Fs.t) :
  (forall f, load_fingerprint json_loads i d fs = Ok f
             <-> exists text,
                   Fs.lookup fs (_path_for i d) = Some (Fs.File text)
                   /\ json_loads text = Ok f)
  /\ (Fs.lookup fs (_path_for i d) = None ->
      exists e,
        load_fingerprint json_loads i d fs = Raise e
        /\ (e = NotADirectoryError \/ e = FileNotFoundError)
        /\ (e = NotADirectoryError
            <-> exists k content,
                  (1 <= k <= List.length d)%nat
                  /\ Fs.lookup fs (firstn k d) = Some (Fs.File content)
                  /\ forall k', (1 <= k' < k)%nat ->
                        Fs.lookup fs (firstn k' d) = Some Fs.Dir)).
Proof.
  unfold load_fingerprint, Fs.read_text, _path_for.
  rewrite stat_join, parent_join. split.
  - intros f. destruct (Fs.lookup fs (Fs.join d _)) as [[|text]|]; cbn [bind].
    + split; [discriminate | intros (t & H & _); discriminate].
    + split; [eauto | intros (t & H & Ht); now injection H as ->].
    + split; [discriminate | intros (t & H & _); discriminate].
  - intros ->. cbn [bind]. exists (Fs.missing_error fs [] d).
    split; [reflexivity|]. exact (missing_error_spec d fs []).
Qed.

Lemma load_fingerprint_missing_witness :
  load_fingerprint Json.loads 4 FINGERPRINT_DIR fs_312
  = Raise FileNotFoundError
  /\ load_fingerprint Json.loads 1 ["data"; "fingerprints"]%string
       [(["data"%string], Fs.File "not a directory")]
     = Raise NotADirectoryError.
Proof.
  split.
  - destruct (load_fingerprint_missing Json.loads 4 FINGERPRINT_DIR fs_312)
      as (_ & H).
    destruct (H eq_refl) as (e & -> & [E|E] & Hiff); [|now rewrite E].
    exfalso. apply Hiff in E as (k & content & Hk & Hf & _).
    simpl in Hk. assert (k = 1%nat) by lia. subst k. discriminate Hf.
  - destruct (load_fingerprint_missing Json.loads 1
                ["data"; "fingerprints"]%string
                [(["data"%string], Fs.File "not a directory")]) as (_ & H).
    destruct (H eq_refl) as (e & -> & _ & Hiff). f_equal.
    apply Hiff. exists 1%nat, "not a directory"%string.
    split; [simpl; lia|]. split; [reflexivity | intros k' Hk'; lia].
Defined.

Lemma replace_paths (fs : Fs.t) (p : Fs.path) (n : Fs.node) :
  map fst (Fs.replace fs p n) = map fst fs.
Proof.
  induction fs as [|[q m] fs IH]; simpl; [reflexivity|].
  destruct (Fs.path_eqb q p); simpl; [reflexivity | now rewrite IH].
Qed.

(** After [mkdir], every ancestor of the directory is a directory. *)
Lemma mkdir_from_dirs (todo : Fs.path) :
  forall (fs fs' : Fs.t) (done : Fs.path) (k : nat),
    Fs.mkdir_from fs done todo = Ok fs' ->
    (1 <= k <= List.length todo)%nat ->
    Fs.lookup fs' (done ++ firstn k todo) = Some Fs.Dir.
Proof.
  induction todo as [|c todo IH]; intros fs fs' done k H Hk;
    [simpl in Hk; lia|].
  simpl in H. destruct k as [|k]; [lia|]. cbn [firstn].
  replace (done ++ c :: firstn k todo) with ((done ++ [c]) ++ firstn k todo)
    by (now rewrite <- app_assoc).
  assert (Hq : forall fs0, Fs.lookup fs0 (done ++ [c]) = Some Fs.Dir ->
                 Fs.mkdir_from fs0 (done ++ [c]) todo = Ok fs' ->
                 Fs.lookup fs' ((done ++ [c]) ++ firstn k todo) = Some Fs.Dir).
  { intros fs0 L0 H0. destruct k as [|k].
    - rewrite firstn_O, app_nil_r.
      destruct (mkdir_from_extends _ _ _ _ H0) as (extra & -> & _).
      now rewrite lookup_app, L0.
    - apply (IH _ _ _ _ H0). simpl in Hk. lia. }
  destruct (Fs.lookup fs (done ++ [c])) as [[|old]|] eqn:L.
  - now apply (Hq fs).
  - destruct todo; discriminate.
  - apply (Hq (fs ++ [(done ++ [c], Fs.Dir)])); [|assumption].
    rewrite lookup_app, L. simpl. now rewrite path_eqb_refl.
Qed.

(** [mkdir] succeeds only when no ancestor is a regular file. *)
Lemma mkdir_from_not_file (todo : Fs.path) :
  forall (fs fs' : Fs.t) (done : Fs.path) (k : nat) (content : string),
    Fs.mkdir_from fs done todo = Ok fs' ->
    (1 <= k <= List.length todo)%nat ->
    Fs.lookup fs (done ++ firstn k todo) <> Some (Fs.File content).
Proof.
  intros fs fs' done k content H Hk E.
  pose proof (mkdir_from_dirs _ _ _ _ k H Hk) as Hd.
  destruct (mkdir_from_extends _ _ _ _ H) as (extra & -> & _).
  rewrite lookup_app, E in Hd. discriminate.
Qed.

(** When every ancestor is a directory already, [mkdir] does nothing. *)
Lemma mkdir_from_idle (todo : Fs.path) :
  forall (fs : Fs.t) (done : Fs.path),
    (forall k, (1 <= k <= List.length todo)%nat ->
       Fs.lookup fs (done ++ firstn k todo) = Some Fs.Dir) ->
    Fs.mkdir_from fs done todo = Ok fs.
Proof.
  induction todo as [|c todo IH]; intros fs done Hall; [reflexivity|].
  pose proof (Hall 1%nat ltac:(simpl; lia)) as H1. simpl in H1.
  simpl. rewrite H1.
  apply IH. intros k Hk. rewrite <- app_assoc. apply (Hall (S k)). simpl; lia.
Qed.

(** What a successful save leaves in the file system. *)
Lemma save_fingerprint_effect (json_dumps : list Q -> string)
    (f : list Q) (i : Z) (d : Fs.path) (fs fs' : Fs.t) :
  save_fingerprint json_dumps f i d fs = Ok fs' ->
  Fs.lookup fs' (_path_for i d) = Some (Fs.File (json_dumps f))
  /\ (forall k, (1 <= k <= List.length d)%nat ->
        Fs.lookup fs' (firstn k d) = Some Fs.Dir)
  /\ (forall p, p <> _path_for i d ->
        Fs.lookup fs' p = Fs.lookup fs p
        \/ (Fs.lookup fs p = None /\ Fs.lookup fs' p = Some Fs.Dir
            /\ exists k, (1 <= k <= List.length d)%nat /\ p = firstn k d))
  /\ (forall k content, (1 <= k <= List.length d)%nat ->
        Fs.lookup fs (firstn k d) <> Some (Fs.File content)).
Proof.
  intros Hsave. unfold save_fingerprint in Hsave.
  apply bind_Ok_inv in Hsave as (fs1 & Hmk & Hw).
  unfold Fs.mkdir_parents_exist_ok in Hmk.
  assert (Hother : forall p, p <> _path_for i d ->
                             Fs.lookup fs' p = Fs.lookup fs1 p).
  { intros p Hp. unfold Fs.write_text in Hw.
    destruct (_path_for i d) as [|c q] eqn:E; [discriminate|]. rewrite <- E in *.
    destruct (Fs.stat fs1 (Fs.parent (_path_for i d))) as [[|]|];
      try discriminate.
    destruct (Fs.lookup fs1 (_path_for i d)) as [[|old]|] eqn:L;
      try discriminate; injection Hw as <-.
    - now apply lookup_replace_other.
    - rewrite lookup_app. destruct (Fs.lookup fs1 p); [reflexivity|].
      simpl. now rewrite path_eqb_neq. }
  split; [|split; [|split]].
  - unfold _path_for in *. apply read_after_write in Hw.
    unfold Fs.read_text in Hw. rewrite stat_join in Hw.
    destruct (Fs.lookup fs' (Fs.join d _)) as [[|text]|];
      [discriminate | now injection Hw as -> | discriminate].
  - intros k Hk. rewrite Hother by (intros E; symmetry in E;
                                    now apply path_for_not_prefix in E).
    apply (mkdir_from_dirs _ _ _ [] k Hmk Hk).
  - intros p Hp. rewrite (Hother p Hp).
    destruct (mkdir_from_lookup _ _ _ [] p Hmk) as [E|(E & k & Hk & Ep)];
      [now left|].
    simpl in Ep. subst p.
    destruct (Fs.lookup fs (firstn k d)) as [n|] eqn:L.
    + left. destruct (mkdir_from_extends _ _ _ _ Hmk) as (extra & -> & _).
      now rewrite lookup_app, L.
    + right. eauto.
  - intros k content Hk. apply (mkdir_from_not_file _ _ _ [] k content Hmk Hk).
Qed.

(** X10.  A successful save keeps every other entry of the file system as
    it is and only adds: the record holds the JSON document of the
    fingerprint, and the directory and all its ancestors are directories
    afterwards. *)
Theorem save_fingerprint_preserves (json_dumps : list Q -> string)
    (f : list Q) (i : Z) (d : Fs.path) (fs fs' : Fs.t) :
  save_fingerprint json_dumps f i d fs = Ok fs' ->
  (forall p n, p <> _path_for i d -> Fs.lookup fs p = Some n ->
               Fs.lookup fs' p = Some n)
  /\ (forall k, (k <= List.length d)%nat ->
                Fs.stat fs' (firstn k d) = Some Fs.Dir)
  /\ Fs.lookup fs' (_path_for i d) = Some (Fs.File (json_dumps f)).
Proof.
  intros Hsave.
  destruct (save_fingerprint_effect _ _ _ _ _ _ Hsave)
    as (Hrec & Hdirs & Hother & _).
  split; [|split; [|exact Hrec]].
  - intros p n Hp L. destruct (Hother p Hp) as [E|(E & _)]; congruence.
  - intros k Hk. unfold Fs.stat.
    destruct (firstn k d) as [|c q] eqn:E; [reflexivity|]. rewrite <- E.
    apply Hdirs. destruct k; [discriminate | lia].
Qed.

Lemma save_fingerprint_preserves_witness :
  Fs.lookup (fs_312 ++ [(["fingerprints"; "video9.json"]%string,
                         Fs.File "[0.7]")])
            ["fingerprints"; "video1.json"]%string
  = Some (Fs.File "[0.1]").
Proof.
  destruct (save_fingerprint_preserves Json.dumps [7#10]%Q 9 FINGERPRINT_DIR
              fs_312
              (fs_312 ++ [(["fingerprints"; "video9.json"]%string,
                           Fs.File "[0.7]")]))
    as (Hkeep & _); [reflexivity|].
  apply Hkeep; [discriminate | reflexivity].
Defined.

(** X9.  Saving under an index does not change what [load_fingerprint]
    gives for any other index of the directory, be it a fingerprint or an
    exception. *)
Theorem save_fingerprint_frame (json_dumps : list Q -> string)
    (json_loads : string -> result (list Q))
    (f : list Q) (i j : Z) (d : Fs.path) (fs fs' : Fs.t) :
  save_fingerprint json_dumps f i d fs = Ok fs' ->
  i <> j ->
  load_fingerprint json_loads j d fs' = load_fingerprint json_loads j d fs.
Proof.
  intros Hsave Hij.
  destruct (save_fingerprint_effect _ _ _ _ _ _ Hsave)
    as (_ & Hdirs & Hother & Hfile).
  assert (Hj : Fs.lookup fs' (_path_for j d) = Fs.lookup fs (_path_for j d)).
  { destruct (Hother (_path_for j d)) as [E|(_ & _ & k & _ & E)];
      [intros E; apply Hij; symmetry; now apply path_for_inj_all in E
      | exact E
      | now apply path_for_not_prefix in E]. }
  unfold load_fingerprint, Fs.read_text, _path_for in *.
  rewrite !stat_join, parent_join, Hj.
  destruct (Fs.lookup fs (Fs.join d _)) as [[|text]|]; try reflexivity.
  rewrite (missing_error_no_file fs d Hfile).
  rewrite (missing_error_no_file fs' d); [reflexivity|].
  intros k content Hk. now rewrite (Hdirs k Hk).
Qed.

Lemma save_fingerprint_frame_witness :
  load_fingerprint Json.loads 3 FINGERPRINT_DIR
    (Fs.replace fs_312 ["fingerprints"; "video2.json"]%string
                (Fs.File "[0.7]"))
  = load_fingerprint Json.loads 3 FINGERPRINT_DIR fs_312.
Proof.
  apply (save_fingerprint_frame Json.dumps Json.loads [7#10]%Q 2 3
           FINGERPRINT_DIR fs_312); [reflexivity | discriminate].
Defined.

(** X8.  A record that was saved can always be saved again: the second save
    succeeds and rewrites the record in place, without adding, removing or
    moving any entry of the file system. *)
Theorem save_fingerprint_overwrites (json_dumps : list Q -> string)
    (f g : list Q) (i : Z) (d : Fs.path) (fs fs1 : Fs.t) :
  save_fingerprint json_dumps f i d fs = Ok fs1 ->
  save_fingerprint json_dumps g i d fs1
  = Ok (Fs.replace fs1 (_path_for i d) (Fs.File (json_dumps g)))
  /\ map fst (Fs.replace fs1 (_path_for i d) (Fs.File (json_dumps g)))
     = map fst fs1.
Proof.
  intros Hsave. split; [|apply replace_paths].
  destruct (save_fingerprint_effect _ _ _ _ _ _ Hsave) as (Hrec & Hdirs & _).
  unfold save_fingerprint, Fs.mkdir_parents_exist_ok.
  rewrite mkdir_from_idle by exact Hdirs. cbn [bind].
  unfold Fs.write_text, _path_for in *.
  destruct (Fs.join d _) as [|c q] eqn:E; [now apply join_nonempty in E|].
  rewrite <- E in *. rewrite parent_join, Hrec.
  assert (Hd : Fs.stat fs1 d = Some Fs.Dir).
  { destruct d as [|c' q']; [reflexivity|]. simpl.
    rewrite <- (firstn_all (c' :: q')). apply Hdirs. simpl; lia. }
  now rewrite Hd.
Qed.

Lemma save_fingerprint_overwrites_witness :
  save_fingerprint Json.dumps [2#10; 3#10]%Q 3 FINGERPRINT_DIR fs_312
  = Ok (Fs.replace fs_312 (_path_for 3 FINGERPRINT_DIR)
                   (Fs.File (Json.dumps [2#10; 3#10]%Q))).
Proof.
  apply (save_fingerprint_overwrites Json.dumps [3#10; 3#10]%Q [2#10; 3#10]%Q 3
           FINGERPRINT_DIR
           [(["fingerprints"]%string, Fs.Dir);
            (["fingerprints"; "video3.json"]%string, Fs.File "[0.1]");
            (["fingerprints"; "video1.json"]%string, Fs.File "[0.1]");
            (["fingerprints"; "video2.json"]%string, Fs.File "[0.2,0.0]")]
           fs_312).
  reflexivity.
Defined.

(** [mkdir] stops at the first ancestor that is a regular file. *)
Lemma mkdir_from_raises (todo : Fs.path) :
  forall (fs : Fs.t) (done : Fs.path) (k : nat) (content : string),
    (1 <= k <= List.length todo)%nat ->
    Fs.lookup fs (done ++ firstn k todo) = Some (Fs.File content) ->
    (forall k' c', (1 <= k' < k)%nat ->
       Fs.lookup fs (done ++ firstn k' todo) <> Some (Fs.File c')) ->
    Fs.mkdir_from fs done todo
    = Raise (if (k =? List.length todo)%nat then FileExistsError
             else NotADirectoryError).
Proof.
  induction todo as [|c todo IH]; intros fs done k content Hk Hfile Hfirst;
    [simpl in Hk; lia|].
  simpl. destruct k as [|[|k]]; [lia| |].
  - simpl in Hfile. rewrite Hfile.
    destruct todo; simpl; reflexivity.
  - assert (Hstep : forall fs0,
              Fs.lookup fs0 ((done ++ [c]) ++ firstn (S k) todo)
              = Some (Fs.File content) ->
              (forall k' c', (1 <= k' < S k)%nat ->
                 Fs.lookup fs0 ((done ++ [c]) ++ firstn k' todo)
                 <> Some (Fs.File c')) ->
              Fs.mkdir_from fs0 (done ++ [c]) todo
              = Raise (if (S (S k) =? List.length (c :: todo))%nat
                       then FileExistsError else NotADirectoryError)).
    { intros fs0 H1 H2.
      rewrite (IH fs0 (done ++ [c]) (S k) content); try assumption.
      - reflexivity.
      - simpl in Hk. lia. }
    assert (Hfile' : Fs.lookup fs ((done ++ [c]) ++ firstn (S k) todo)
                     = Some (Fs.File content))
      by (rewrite <- app_assoc; exact Hfile).
    assert (Hfirst' : forall k' c', (1 <= k' < S k)%nat ->
              Fs.lookup fs ((done ++ [c]) ++ firstn k' todo)
              <> Some (Fs.File c'))
      by (intros k' c' Hk'; rewrite <- app_assoc;
          apply (Hfirst (S k') c'); lia).
    pose proof (Hfirst 1%nat) as H1. cbn [firstn] in H1.
    destruct (Fs.lookup fs (done ++ [c])) as [[|old]|] eqn:L.
    + now apply Hstep.
    + exfalso. apply (H1 old); [lia | reflexivity].
    + apply Hstep.
      * now rewrite lookup_app, Hfile'.
      * intros k' c' Hk'. rewrite lookup_app.
        specialize (Hfirst' k' c' Hk').
        destruct (Fs.lookup fs ((done ++ [c]) ++ firstn k' todo)) as [n|];
          [assumption|].
        simpl. destruct (Fs.path_eqb _ _); discriminate.
Qed.

(** X11.  [save_fingerprint] raises when the path of the directory runs
    into a regular file ([FileExistsError] when the directory itself is
    one, [NotADirectoryError] when an ancestor is), and raises
    [IsADirectoryError] when the record of the index is a directory. *)
Theorem save_fingerprint_raises (json_dumps : list Q -> string)
    (f : list Q) (i : Z) (d : Fs.path) (fs : Fs.t) :
  (forall k content,
     (1 <= k <= List.length d)%nat ->
     Fs.lookup fs (firstn k d) = Some (Fs.File content) ->
     (forall k' c', (1 <= k' < k)%nat ->
        Fs.lookup fs (firstn k' d) <> Some (Fs.File c')) ->
     save_fingerprint json_dumps f i d fs
     = Raise (if (k =? List.length d)%nat then FileExistsError
              else NotADirectoryError))
  /\ ((forall k content, (1 <= k <= List.length d)%nat ->
         Fs.lookup fs (firstn k d) <> Some (Fs.File content)) ->
      Fs.lookup fs (_path_for i d) = Some Fs.Dir ->
      save_fingerprint json_dumps f i d fs = Raise IsADirectoryError).
Proof.
  split.
  - intros k content Hk Hfile Hfirst.
    unfold save_fingerprint, Fs.mkdir_parents_exist_ok.
    now rewrite (mkdir_from_raises d fs [] k content Hk Hfile Hfirst).
  - intros Hfree Hrec. unfold save_fingerprint, Fs.mkdir_parents_exist_ok.
    destruct (mkdir_from_total d fs [] Hfree) as (fs1 & Hmk).
    rewrite Hmk. cbn [bind]. unfold Fs.write_text, _path_for in *.
    destruct (Fs.join d _) as [|c p] eqn:E; [now apply join_nonempty in E|].
    rewrite <- E in *. rewrite parent_join.
    assert (Hd : Fs.stat fs1 d = Some Fs.Dir).
    { destruct d as [|c' d']; [reflexivity|].
      apply (mkdir_from_dir _ _ _ [] Hmk). discriminate. }
    rewrite Hd.
    destruct (mkdir_from_extends _ _ _ _ Hmk) as (extra & -> & _).
    now rewrite lookup_app, Hrec.
Qed.

Lemma save_fingerprint_raises_witness :
  save_fingerprint Json.dumps [1#10]%Q 1 ["data"; "fingerprints"]%string
    [(["data"]%string, Fs.File "not a directory")]
  = Raise NotADirectoryError
  /\ save_fingerprint Json.dumps [1#10]%Q 1 FINGERPRINT_DIR
       [(["fingerprints"]%string, Fs.Dir);
        (["fingerprints"; "video1.json"]%string, Fs.Dir)]
     = Raise IsADirectoryError.
Proof.
  split.
  - destruct (save_fingerprint_raises Json.dumps [1#10]%Q 1
                ["data"; "fingerprints"]%string
                [(["data"]%string, Fs.File "not a directory")]) as (H & _).
    apply (H 1%nat "not a directory"%string);
      [simpl; lia | reflexivity | intros; lia].
  - destruct (save_fingerprint_raises Json.dumps [1#10]%Q 1 FINGERPRINT_DIR
                [(["fingerprints"]%string, Fs.Dir);
                 (["fingerprints"; "video1.json"]%string, Fs.Dir)])
      as (_ & H).
    apply H; [|reflexivity].
    intros k content Hk. simpl in Hk.
    assert (k = 1%nat) as -> by lia. simpl. discriminate.
Defined.

(** ** The envelope extractor: the values *)

(** A fingerprint is returned only for a positive sample rate and at least
    one sample. *)
Lemma extract_fingerprint_Ok_inv
    (librosa_load : string -> result (list Q * Z)) (audio_path : string)
    (y : list Q) (sr : Z) (fp : list Q) :
  librosa_load audio_path = Ok (y, sr) ->
  extract_fingerprint librosa_load audio_path = Ok fp ->
  0 < sr /\ 0 < Py.len y.
Proof.
  intros Hload H. unfold extract_fingerprint in H. rewrite Hload in H.
  cbn [bind] in H. unfold Py.range3, Py.range_len in H.
  destruct (Z.eqb_spec sr 0) as [->|Hsr]; [discriminate|].
  destruct (Z.ltb_spec 0 sr) as [Hpos|Hneg].
  - split; [assumption|].
    destruct (Z.ltb_spec 0 (Py.len y)); [assumption|]. discriminate.
  - exfalso. destruct (Z.ltb_spec (Py.len y) 0) as [Hy|_];
      [unfold Py.len in Hy; lia|]. discriminate.
Qed.

(** The extractor in closed form: the peak of every chunk but the last. *)
Lemma extract_fingerprint_chunks
    (librosa_load : string -> result (list Q * Z)) (audio_path : string)
    (y : list Q) (sr : Z) :
  librosa_load audio_path = Ok (y, sr) ->
  0 < sr -> 0 < Py.len y ->
  extract_fingerprint librosa_load audio_path
  = mapM (fun chunk => m <- Py.np_max (Py.np_abs chunk) ;; Ok (Py.round1 m))
         (map (fun i => Py.slice y (Z.of_nat i * sr) (Z.of_nat i * sr + sr))
              (seq 0 (Z.to_nat ((Py.len y - 1) / sr)))).
Proof.
  intros Hload Hsr Hy. unfold extract_fingerprint.
  rewrite Hload; cbn [bind]. rewrite (range3_pos _ _ Hsr); cbn [bind].
  destruct (Z.ltb_spec 0 (Py.len y)) as [_|]; [|lia].
  assert (Hc : 0 <= (Py.len y - 1) / sr) by (apply Z.div_pos; lia).
  replace (Z.to_nat ((Py.len y - 1) / sr + 1))
    with (S (Z.to_nat ((Py.len y - 1) / sr))) by lia.
  rewrite seq_S, !map_app. cbn [map]. rewrite pop_snoc. cbn [bind].
  now rewrite map_map.
Qed.

Lemma slice_inside {A : Type} (l : list A) (a s : Z) :
  0 <= a -> 0 <= s -> a + s <= Py.len l ->
  Py.slice l a (a + s) = firstn (Z.to_nat s) (skipn (Z.to_nat a) l).
Proof.
  unfold Py.slice, Py.clip, Py.len. intros Ha Hs Hl.
  destruct (Z.ltb_spec a 0); [lia|]. destruct (Z.ltb_spec (a + s) 0); [lia|].
  do 2 f_equal; lia.
Qed.

Lemma window_nth {A : Type} (l : list A) (a n j : nat) (d : A) :
  (j < n)%nat -> nth j (firstn n (skipn a l)) d = nth (a + j) l d.
Proof.
  intros Hj. rewrite nth_firstn, nth_skipn.
  destruct (Nat.ltb_spec j n); [reflexivity | lia].
Qed.

Lemma qmax_ge (a b : Q) : (a <= Py.qmax a b)%Q /\ (b <= Py.qmax a b)%Q.
Proof.
  unfold Py.qmax. destruct (Qle_bool a b) eqn:E.
  - apply Qle_bool_iff in E. split; [assumption | apply Qle_refl].
  - split; [apply Qle_refl|]. apply Qlt_le_weak, Qnot_le_lt.
    intros H. apply Qle_bool_iff in H. congruence.
Qed.

Lemma fold_qmax_ge (l : list Q) (x : Q) :
  (x <= fold_left Py.qmax l x)%Q
  /\ Forall (fun z => (z <= fold_left Py.qmax l x)%Q) l.
Proof.
  revert x. induction l as [|z l IH]; intros x; simpl.
  - split; [apply Qle_refl | constructor].
  - destruct (IH (Py.qmax x z)) as (H1 & H2).
    destruct (qmax_ge x z) as (Hx & Hz).
    split; [eapply Qle_trans; eauto|].
    constructor; [eapply Qle_trans; eauto | assumption].
Qed.

Lemma np_max_upper (l : list Q) (m : Q) :
  Py.np_max l = Ok m -> Forall (fun z => (z <= m)%Q) l.
Proof.
  destruct l as [|x l]; simpl; [discriminate|]. intros H; injection H as <-.
  destruct (fold_qmax_ge l x) as (H1 & H2). now constructor.
Qed.

(** The peak found in a full second of the audio. *)
Lemma chunk_peak (y : list Q) (a s : Z) (m : Q) :
  0 <= a -> 0 < s -> a + s <= Py.len y ->
  Py.np_max (Py.np_abs (Py.slice y a (a + s))) = Ok m ->
  is_peak y a (a + s) m.
Proof.
  intros Ha Hs Hl Hm. rewrite slice_inside in Hm by lia.
  set (chunk := firstn (Z.to_nat s) (skipn (Z.to_nat a) y)) in *.
  assert (Hlen : List.length chunk = Z.to_nat s).
  { unfold chunk. rewrite length_firstn, length_skipn.
    unfold Py.len in Hl. lia. }
  assert (Hnth : forall j, (j < Z.to_nat s)%nat ->
                   nth j chunk 0%Q = nth (Z.to_nat a + j) y 0%Q)
    by (intros; now apply window_nth).
  split.
  - apply np_max_In in Hm. unfold Py.np_abs in Hm.
    apply in_map_iff in Hm as (x & <- & Hx).
    destruct (In_nth _ _ 0%Q Hx) as (j & Hj & Ej). rewrite Hlen in Hj.
    exists (a + Z.of_nat j). split; [lia|].
    rewrite <- Ej, Hnth by assumption. do 2 f_equal. lia.
  - intros j Hj. apply np_max_upper in Hm. rewrite Forall_forall in Hm.
    apply Hm. unfold Py.np_abs. apply in_map.
    replace (Z.to_nat j) with (Z.to_nat a + Z.to_nat (j - a))%nat by lia.
    rewrite <- Hnth by lia. apply nth_In. lia.
Qed.

(** X1.  The value of rank [k] of the fingerprint is the peak absolute
    amplitude of the second of rank [k] of the audio, the samples
    [k * sr .. k * sr + sr - 1], rounded to one decimal; that second lies
    wholly inside the audio. *)
Theorem extract_fingerprint_peaks
    (librosa_load : string -> result (list Q * Z)) (audio_path : string)
    (y : list Q) (sr : Z) (fp : list Q) :
  librosa_load audio_path = Ok (y, sr) ->
  extract_fingerprint librosa_load audio_path = Ok fp ->
  forall k, 0 <= k < Py.len fp ->
    k * sr + sr <= Py.len y
    /\ exists m, is_peak y (k * sr) (k * sr + sr) m
                 /\ nth (Z.to_nat k) fp 0%Q = Py.round1 m.
Proof.
  intros Hload Hfp k Hk.
  destruct (extract_fingerprint_Ok_inv _ _ _ _ _ Hload Hfp) as (Hsr & Hy).
  rewrite (extract_fingerprint_chunks _ _ _ _ Hload Hsr Hy) in Hfp.
  pose proof (mapM_length _ _ _ Hfp) as Hlen.
  rewrite length_map, length_seq in Hlen.
  assert (Hc : 0 <= (Py.len y - 1) / sr) by (apply Z.div_pos; lia).
  assert (Hmul : sr * ((Py.len y - 1) / sr) <= Py.len y - 1)
    by (apply Z.mul_div_le; lia).
  assert (Hk' : (Z.to_nat k < Z.to_nat ((Py.len y - 1) / sr))%nat)
    by (unfold Py.len in Hk; lia).
  assert (Hin : k * sr + sr <= Py.len y) by nia.
  split; [assumption|].
  pose proof (mapM_nth _ _ _ (Py.slice y 0 (0 + sr)) 0%Q (Z.to_nat k) Hfp) as Hn.
  rewrite length_map, length_seq in Hn. specialize (Hn Hk').
  change (Py.slice y 0 (0 + sr))
    with ((fun i => Py.slice y (Z.of_nat i * sr) (Z.of_nat i * sr + sr)) O)
    in Hn.
  rewrite map_nth, seq_nth in Hn by assumption. cbn [Nat.add] in Hn.
  rewrite Z2Nat.id in Hn by lia.
  apply bind_Ok_inv in Hn as (m & Hm & Hr). injection Hr as Hr.
  exists m. split; [|now symmetry].
  apply chunk_peak; try assumption; nia.
Qed.

Lemma extract_fingerprint_peaks_witness :
  2 * 2 + 2 <= Py.len [1#4; -3#4; 1#10; 1#20; 9#10; 2#10; 1#1]%Q
  /\ exists m,
       is_peak [1#4; -3#4; 1#10; 1#20; 9#10; 2#10; 1#1]%Q (2 * 2) (2 * 2 + 2) m
       /\ nth (Z.to_nat 2) [8#10; 1#10; 9#10]%Q 0%Q = Py.round1 m.
Proof.
  apply (extract_fingerprint_peaks
           (fun _ => Ok ([1#4; -3#4; 1#10; 1#20; 9#10; 2#10; 1#1]%Q, 2))
           "a.wav" [1#4; -3#4; 1#10; 1#20; 9#10; 2#10; 1#1]%Q 2
           [8#10; 1#10; 9#10]%Q);
    [reflexivity | reflexivity | vm_compute; split; [discriminate | reflexivity]].
Defined.

Lemma slice_incl {A : Type} (l : list A) (a b : Z) (x : A) :
  In x (Py.slice l a b) -> In x l.
Proof.
  unfold Py.slice. intros H.
  rewrite <- (firstn_skipn (Z.to_nat (Py.clip (Py.len l) a)) l).
  apply in_or_app. right.
  rewrite <- (firstn_skipn
                (Z.to_nat (Py.clip (Py.len l) b - Py.clip (Py.len l) a))
                (skipn (Z.to_nat (Py.clip (Py.len l) a)) l)).
  apply in_or_app. now left.
Qed.

Lemma round1_le_1 (x : Q) : (x <= 1)%Q -> (Py.round1 x <= 1)%Q.
Proof.
  intros Hx. unfold Py.round1.
  assert (Ht : (x * inject_Z 10 <= inject_Z 10)%Q).
  { setoid_replace (inject_Z 10) with (1 * inject_Z 10)%Q at 2 by ring.
    apply Qmult_le_compat_r; [assumption | discriminate]. }
  assert (Hf : Qfloor (x * inject_Z 10) <= 10).
  { change 10 with (Qfloor (inject_Z 10)) at 2. now apply Qfloor_resp_le. }
  set (t := (x * inject_Z 10)%Q) in *. set (f := Qfloor t) in *.
  destruct (Z.eq_dec f 10) as [E|Hne].
  - assert (Hlt : ((t - inject_Z f)%Q ?= 1 # 2)%Q = Lt).
    { rewrite <- Qlt_alt, E.
      apply Qle_lt_trans with (y := 0%Q); [|reflexivity].
      apply Qle_minus_iff in Ht.
      apply Qle_minus_iff. setoid_replace (0 + - (t - inject_Z 10))%Q
        with (inject_Z 10 + - t)%Q by ring. exact Ht. }
    rewrite Hlt, E. unfold Qle; simpl. lia.
  - destruct (_ ?= _)%Q; [destruct (Z.even f)| |]; unfold Qle; simpl; lia.
Qed.

(** X2.  On samples normalised to [[-1, 1]] every value of the fingerprint
    lies in [[0, 1]]. *)
Theorem extract_fingerprint_normalized
    (librosa_load : string -> result (list Q * Z)) (audio_path : string)
    (y : list Q) (sr : Z) (fp : list Q) :
  librosa_load audio_path = Ok (y, sr) ->
  extract_fingerprint librosa_load audio_path = Ok fp ->
  (forall x, In x y -> (Qabs x <= 1)%Q) ->
  Forall (fun v => (0 <= v <= 1)%Q) fp.
Proof.
  intros Hload Hfp Hy.
  destruct (extract_fingerprint_Ok_inv _ _ _ _ _ Hload Hfp) as (Hsr & Hn).
  rewrite (extract_fingerprint_chunks _ _ _ _ Hload Hsr Hn) in Hfp.
  apply mapM_Forall2 in Hfp.
  set (chunks := map _ (seq 0 _)) in Hfp.
  assert (Hchunks : Forall (fun chunk => forall x, In x chunk -> In x y) chunks).
  { apply Forall_forall. intros chunk Hin.
    apply in_map_iff in Hin as (i & <- & _). intros x. apply slice_incl. }
  induction Hfp as [|chunk v chunks' fp' Hv _ IH]; constructor.
  - inversion Hchunks as [|? ? Hc _]; subst.
    apply bind_Ok_inv in Hv as (m & Hm & Hv). injection Hv as <-.
    split; [apply round1_nonneg; eapply np_max_abs_nonneg; eauto|].
    apply round1_le_1. apply np_max_In in Hm. unfold Py.np_abs in Hm.
    apply in_map_iff in Hm as (x & <- & Hx). auto.
  - apply IH. now inversion Hchunks.
Qed.

Lemma extract_fingerprint_normalized_witness :
  Forall (fun v => (0 <= v <= 1)%Q) [8#10; 1#10]%Q.
Proof.
  apply (extract_fingerprint_normalized
           (fun _ => Ok ([1#4; -3#4; 1#10; 1#20; 9#10]%Q, 2)) "a.wav"
           [1#4; -3#4; 1#10; 1#20; 9#10]%Q 2);
    [reflexivity | reflexivity |].
  intros x [<-|[<-|[<-|[<-|[<-|[]]]]]]; vm_compute; discriminate.
Defined.

Lemma slice_app_inside {A : Type} (l l' : list A) (a s : Z) :
  0 <= a -> 0 <= s -> a + s <= Py.len l ->
  Py.slice (l ++ l') a (a + s) = Py.slice l a (a + s).
Proof.
  intros Ha Hs Hl. unfold Py.len in Hl.
  rewrite !slice_inside by (unfold Py.len; rewrite ?length_app; lia).
  rewrite skipn_app, firstn_app, length_skipn.
  replace (Z.to_nat s - (List.length l - Z.to_nat a))%nat with O by lia.
  now rewrite firstn_O, app_nil_r.
Qed.

(** X3.  The last chunk is dropped whole: two recordings that share their
    full seconds [y] and differ only in a last stretch, of at most one
    second, have the same fingerprint. *)
Theorem extract_fingerprint_drops_tail
    (librosa_load librosa_load' : string -> result (list Q * Z))
    (audio_path audio_path' : string) (y z z' : list Q) (sr n : Z) :
  librosa_load audio_path = Ok (y ++ z, sr) ->
  librosa_load' audio_path' = Ok (y ++ z', sr) ->
  0 < sr -> Py.len y = n * sr ->
  0 < Py.len z <= sr -> 0 < Py.len z' <= sr ->
  extract_fingerprint librosa_load audio_path
  = extract_fingerprint librosa_load' audio_path'.
Proof.
  intros Hload Hload' Hsr Hy Hz Hz'.
  assert (Hn : 0 <= n) by (unfold Py.len in Hy; nia).
  assert (Hlen : forall t : list Q, 0 < Py.len t <= sr ->
            0 < Py.len (y ++ t) /\ (Py.len (y ++ t) - 1) / sr = n).
  { intros t Ht. unfold Py.len in *. rewrite length_app. split; [lia|].
    symmetry. apply Z.div_unique with (r := Z.of_nat (List.length t) - 1); lia. }
  destruct (Hlen z Hz) as (Hp & Hq). destruct (Hlen z' Hz') as (Hp' & Hq').
  rewrite (extract_fingerprint_chunks _ _ _ _ Hload Hsr Hp).
  rewrite (extract_fingerprint_chunks _ _ _ _ Hload' Hsr Hp').
  rewrite Hq, Hq'. f_equal. apply map_ext_in. intros i Hi.
  apply in_seq in Hi.
  rewrite !slice_app_inside by nia. reflexivity.
Qed.

Lemma extract_fingerprint_drops_tail_witness :
  extract_fingerprint (fun _ => Ok (([1#4; -3#4] ++ [9#10])%Q, 2)) "a.wav"
  = extract_fingerprint (fun _ => Ok (([1#4; -3#4] ++ [0#1; 1#10])%Q, 2))
                        "b.wav".
Proof.
  apply (extract_fingerprint_drops_tail _ _ "a.wav" "b.wav"
           [1#4; -3#4]%Q [9#10]%Q [0#1; 1#10]%Q 2 1);
    try reflexivity; vm_compute; (split; [reflexivity | discriminate]).
Defined.

(** ** The matcher: excerpts are found *)

Lemma sum_acc_compat (l : list Q) (a b : Q) :
  (a == b)%Q -> (fold_left Qplus l a == fold_left Qplus l b)%Q.
Proof.
  revert a b. induction l as [|x l IH]; intros a b E; simpl; [assumption|].
  apply IH. now rewrite E.
Qed.

Lemma sum_acc_ge (l : list Q) (a : Q) :
  Forall (fun x => (0 <= x)%Q) l -> (a <= fold_left Qplus l a)%Q.
Proof.
  intros H. revert a. induction H as [|x l Hx _ IH]; intros a; simpl.
  - apply Qle_refl.
  - eapply Qle_trans; [|apply IH].
    setoid_replace a with (a + 0)%Q at 1 by ring.
    now apply Qplus_le_r.
Qed.

Lemma sum_acc_zero (l : list Q) (a : Q) :
  Forall (fun x => (0 <= x)%Q) l ->
  (fold_left Qplus l a == a)%Q <-> Forall (fun x => (x == 0)%Q) l.
Proof.
  intros H. revert a. induction H as [|x l Hx Hl IH]; intros a; simpl.
  - split; [constructor | reflexivity].
  - split.
    + intros E.
      assert (Hx0 : (x == 0)%Q).
      { apply Qle_antisym; [|assumption].
        pose proof (sum_acc_ge l (a + x) Hl) as Hge. rewrite E in Hge.
        apply (Qplus_le_r _ _ a). now rewrite Qplus_0_r. }
      constructor; [assumption|]. apply (IH (a + x)%Q).
      rewrite E, Hx0. ring.
    + intros Hall. inversion Hall as [|? ? Hx0 Hl0]; subst.
      rewrite (sum_acc_compat l (a + x) a) by (rewrite Hx0; ring).
      now apply IH.
Qed.

Lemma l1_terms_nonneg (query reference : list Q) (o : nat) (n : nat) :
  Forall (fun x => (0 <= x)%Q)
         (map (fun j => Qabs (nth j query 0 - nth (o + j) reference 0)%Q)
              (seq 0 n)).
Proof. apply Forall_forall. intros x Hx.
  apply in_map_iff in Hx as (j & <- & _). apply Qabs_nonneg. Qed.

Lemma l1_window_nonneg (query reference : list Q) (offset : Z) :
  (0 <= l1_window query reference offset)%Q.
Proof. unfold l1_window, Py.sum. apply sum_acc_ge, l1_terms_nonneg. Qed.

Lemma Qabs_zero (x : Q) : (Qabs x == 0)%Q <-> (x == 0)%Q.
Proof.
  split; intros E.
  - assert (H : (Qabs x <= 0)%Q) by (rewrite E; apply Qle_refl).
    apply Qabs_Qle_condition in H as (H1 & H2).
    apply Qle_antisym; assumption.
  - rewrite E. reflexivity.
Qed.

(** The distance of a window is zero exactly when the window is the
    query. *)
Lemma l1_window_zero (query reference : list Q) (offset : Z) :
  (l1_window query reference offset == 0)%Q
  <-> window_is query reference offset.
Proof.
  unfold l1_window, Py.sum, window_is.
  rewrite sum_acc_zero by apply l1_terms_nonneg.
  rewrite Forall_forall. split.
  - intros H j Hj.
    assert (Hin : In j (seq 0 (List.length query))) by (apply in_seq; lia).
    apply (in_map (fun j => Qabs (nth j query 0
                                  - nth (Z.to_nat offset + j) reference 0)%Q))
      in Hin.
    apply H in Hin. apply -> Qabs_zero in Hin.
    rename Hin into H0. clear H. rename H0 into H.
    apply Qplus_inj_r with (z := (- nth (Z.to_nat offset + j) reference 0)%Q).
    rewrite Qplus_opp_r. exact H.
  - intros H x Hx. apply in_map_iff in Hx as (j & <- & Hj).
    apply in_seq in Hj. apply Qabs_zero.
    rewrite (H j) by lia. ring.
Qed.

Lemma excerpt_window (pre query post : list Q) :
  window_is query (pre ++ query ++ post) (Py.len pre).
Proof.
  intros j Hj. unfold Py.len. rewrite Nat2Z.id, app_nth2_plus, app_nth1
    by assumption. reflexivity.
Qed.

(** The offset returned by [best_match_position] is the first one of
    minimal distance. *)
Lemma best_match_position_argmin (query reference : list Q) :
  Py.len query <= Py.len reference ->
  exists o,
    best_match_position query reference
    = Ok (o, Fin (l1_window query reference o))
    /\ 0 <= o <= Py.len reference - Py.len query
    /\ forall o', 0 <= o' <= Py.len reference - Py.len query ->
         (l1_window query reference o <= l1_window query reference o')%Q
         /\ (o' < o ->
             (l1_window query reference o < l1_window query reference o')%Q).
Proof.
  intros Hlen. rewrite (best_match_position_scan _ _ Hlen).
  set (n := Py.len reference - Py.len query + 1).
  set (cands := map (fun o => (o, Fin (l1_window query reference o)))
                    (Py.range1 n)).
  assert (Hlc : List.length cands = Z.to_nat n)
    by (unfold cands; now rewrite length_map, range1_length).
  assert (Hnth : forall j, (j < Z.to_nat n)%nat ->
            nth j cands (0, Fin (l1_window query reference 0))
            = (Z.of_nat j, Fin (l1_window query reference (Z.of_nat j))))
    by (intros; now apply windows_nth).
  destruct (scan_first_min (0, Fin (l1_window query reference 0)) cands (-1, Inf))
    as [(_ & Hall)|(i & Hi & Hr & _ & Hall)]; rewrite Hlc in *.
  - exfalso. specialize (Hall O ltac:(lia)). now rewrite Hnth in Hall by lia.
  - rewrite (Hnth i Hi) in Hr, Hall. exists (Z.of_nat i).
    split; [now rewrite Hr|]. split; [lia|].
    intros o' Ho'. specialize (Hall (Z.to_nat o') ltac:(lia)).
    rewrite Hnth, Z2Nat.id in Hall by lia. cbn [snd fle flt] in Hall.
    destruct Hall as (H1 & H2). split; [assumption|]. intros; apply H2; lia.
Qed.

(** X4.  An excerpt is found where it first occurs: when the query is a
    stretch of the reference, [best_match_position] returns distance zero
    and an offset whose window is the query, and no window at a smaller
    offset is the query. *)
Theorem best_match_position_finds_excerpt (pre query post : list Q) :
  exists o d,
    best_match_position query (pre ++ query ++ post) = Ok (o, Fin d)
    /\ (d == 0)%Q
    /\ 0 <= o <= Py.len pre
    /\ window_is query (pre ++ query ++ post) o
    /\ forall o', 0 <= o' < o -> ~ window_is query (pre ++ query ++ post) o'.
Proof.
  set (reference := pre ++ query ++ post).
  assert (Hlen : Py.len query <= Py.len reference)
    by (unfold reference, Py.len; rewrite !length_app; lia).
  assert (Hpre : 0 <= Py.len pre <= Py.len reference - Py.len query)
    by (unfold reference, Py.len; rewrite !length_app; lia).
  destruct (best_match_position_argmin query reference Hlen)
    as (o & Hbmp & Ho & Hmin).
  assert (Hzero : (l1_window query reference o == 0)%Q).
  { apply Qle_antisym; [|apply l1_window_nonneg].
    destruct (Hmin (Py.len pre) Hpre) as (Hle & _).
    eapply Qle_trans; [exact Hle|].
    rewrite (proj2 (l1_window_zero query reference (Py.len pre)));
      [apply Qle_refl | apply excerpt_window]. }
  exists o, (l1_window query reference o).
  split; [assumption|]. split; [assumption|]. split.
  - split; [lia|]. destruct (Z_le_gt_dec o (Py.len pre)) as [|Hgt];
      [assumption|]. exfalso.
    destruct (Hmin (Py.len pre) Hpre) as (_ & Hlt).
    specialize (Hlt ltac:(lia)). rewrite Hzero in Hlt.
    rewrite (proj2 (l1_window_zero query reference (Py.len pre))) in Hlt
      by apply excerpt_window.
    now apply Qlt_irrefl in Hlt.
  - split; [now apply l1_window_zero|].
    intros o' Ho' Hw. apply l1_window_zero in Hw.
    destruct (Hmin o' ltac:(lia)) as (_ & Hlt). specialize (Hlt ltac:(lia)).
    rewrite Hzero, Hw in Hlt. now apply Qlt_irrefl in Hlt.
Qed.

(** The reference returned by [find_best_video] is the first one of minimal
    distance. *)
Lemma find_best_video_argmin (query : list Q) (references : list (list Q)) :
  (exists ref, In ref references /\ Py.len query <= Py.len ref) ->
  exists v f d,
    find_best_video query references = Ok (Z.of_nat v, f, Fin d)
    /\ (v < List.length references)%nat
    /\ bmp_value query (nth v references []) = (f, Fin d)
    /\ forall i, (i < List.length references)%nat ->
         fle (Fin d) (snd (bmp_value query (nth i references [])))
         /\ ((i < v)%nat ->
             flt (Fin d) (snd (bmp_value query (nth i references [])))).
Proof.
  intros (ref & Hin & Hlen). unfold find_best_video. rewrite scan_videos.
  set (dflt := (0, fst (bmp_value query []), snd (bmp_value query []))).
  set (cands := map _ (Py.enumerate references)).
  assert (Hlc : List.length cands = List.length references)
    by (unfold cands; now rewrite length_map, enumerate_length).
  assert (Hnth : forall j, (j < List.length references)%nat ->
            nth j cands dflt
            = (Z.of_nat j, fst (bmp_value query (nth j references [])),
               snd (bmp_value query (nth j references []))))
    by (intros; now apply videos_nth).
  destruct (scan_first_min dflt cands (-1, -1, Inf))
    as [(_ & Hall)|(i & Hi & Hr & Hinf & Hall)]; rewrite Hlc in *.
  - exfalso. destruct (In_nth _ _ [] Hin) as (j & Hj & Hj').
    specialize (Hall j Hj). rewrite Hnth, Hj' in Hall by assumption.
    cbn [snd] in Hall.
    destruct (best_match_position_finite _ _ Hlen) as (o & d & Ho).
    unfold bmp_value in Hall. rewrite Ho in Hall. exact Hall.
  - rewrite (Hnth i Hi) in Hr, Hinf, Hall. cbn [snd] in Hinf, Hall.
    destruct (bmp_value query (nth i references [])) as [f [d|]] eqn:Ev;
      [|contradiction].
    exists i, f, d. cbn [fst snd] in *.
    split; [now rewrite Hr|]. split; [assumption|]. split; [exact Ev|].
    intros k Hk. specialize (Hall k Hk).
    rewrite Hnth in Hall by assumption. exact Hall.
Qed.

Lemma bmp_value_argmin (query reference : list Q) :
  Py.len query <= Py.len reference ->
  exists o,
    bmp_value query reference = (o, Fin (l1_window query reference o))
    /\ 0 <= o <= Py.len reference - Py.len query
    /\ forall o', 0 <= o' <= Py.len reference - Py.len query ->
         (l1_window query reference o <= l1_window query reference o')%Q.
Proof.
  intros Hlen.
  destruct (best_match_position_argmin _ _ Hlen) as (o & Hb & Ho & Hmin).
  exists o. unfold bmp_value. rewrite Hb.
  split; [reflexivity|]. split; [assumption|]. intros o' Ho'.
  now apply Hmin.
Qed.

(** X5.  A query cut out of one of the references is identified:
    [find_best_video] returns distance zero, a reference and an offset in
    it at which the window is the query, and no reference of smaller index
    holds the query at any offset. *)
Theorem find_best_video_finds_excerpt (query : list Q)
    (references : list (list Q)) :
  (exists pre post, In (pre ++ query ++ post) references) ->
  exists v f d,
    find_best_video query references = Ok (v, f, Fin d)
    /\ (d == 0)%Q
    /\ 0 <= v < Py.len references
    /\ 0 <= f <= Py.len (nth (Z.to_nat v) references []) - Py.len query
    /\ window_is query (nth (Z.to_nat v) references []) f
    /\ forall i o,
         0 <= i < v ->
         0 <= o <= Py.len (nth (Z.to_nat i) references []) - Py.len query ->
         ~ window_is query (nth (Z.to_nat i) references []) o.
Proof.
  intros (pre & post & Hin).
  assert (Hlen : Py.len query <= Py.len (pre ++ query ++ post))
    by (unfold Py.len; rewrite !length_app; lia).
  destruct (find_best_video_argmin query references)
    as (v & f & d & Hfbv & Hv & Hbv & Hmin); [eauto|].
  (* the reference that holds the query has distance zero *)
  destruct (In_nth _ _ [] Hin) as (j & Hj & Ej).
  assert (Hzero : (d == 0)%Q).
  { destruct (Hmin j Hj) as (Hle & _). rewrite Ej in Hle.
    destruct (bmp_value_argmin _ _ Hlen) as (o & Eo & Ho & Hmo).
    rewrite Eo in Hle. cbn [snd fle] in Hle.
    assert (Hpre : 0 <= Py.len pre
                   <= Py.len (pre ++ query ++ post) - Py.len query)
      by (unfold Py.len; rewrite !length_app; lia).
    specialize (Hmo (Py.len pre) Hpre).
    rewrite (proj2 (l1_window_zero query _ (Py.len pre))) in Hmo
      by apply excerpt_window.
    assert (Hd : (0 <= d)%Q).
    { destruct (Z_le_gt_dec (Py.len query) (Py.len (nth v references [])))
        as [Hl|Hg].
      - destruct (bmp_value_argmin _ _ Hl) as (o' & Eo' & _).
        rewrite Eo' in Hbv. injection Hbv as _ <-. apply l1_window_nonneg.
      - unfold bmp_value, best_match_position in Hbv.
        rewrite best_match_position_too_long in Hbv by assumption.
        discriminate. }
    apply Qle_antisym; [|assumption].
    eapply Qle_trans; [exact Hle | exact Hmo]. }
  assert (Hlv : Py.len query <= Py.len (nth v references [])).
  { destruct (Z_le_gt_dec (Py.len query) (Py.len (nth v references [])))
      as [Hl|Hg]; [assumption|].
    unfold bmp_value, best_match_position in Hbv.
    rewrite best_match_position_too_long in Hbv by assumption. discriminate. }
  destruct (bmp_value_argmin _ _ Hlv) as (o & Eo & Ho & _).
  rewrite Eo in Hbv. injection Hbv as <- <-.
  exists (Z.of_nat v), o, (l1_window query (nth v references []) o).
  rewrite Nat2Z.id.
  split; [assumption|]. split; [assumption|].
  split; [unfold Py.len; lia|]. split; [assumption|].
  split; [now apply l1_window_zero|].
  intros i o' Hi Ho' Hw. apply l1_window_zero in Hw.
  destruct (Hmin (Z.to_nat i) ltac:(lia)) as (_ & Hlt).
  specialize (Hlt ltac:(lia)).
  assert (Hli : Py.len query <= Py.len (nth (Z.to_nat i) references []))
    by lia.
  destruct (bmp_value_argmin _ _ Hli) as (oi & Ei & _ & Hmi).
  rewrite Ei in Hlt. cbn [snd flt] in Hlt.
  specialize (Hmi o' Ho'). rewrite Hw in Hmi. rewrite Hzero in Hlt.
  apply (Qlt_not_le _ _ Hlt Hmi).
Qed.

Lemma find_best_video_finds_excerpt_witness :
  exists v f d,
    find_best_video [1#10; 2#10]%Q [[9#10]; [5#10; 1#10; 2#10]; [1#10; 2#10]]%Q
    = Ok (v, f, Fin d)
    /\ (d == 0)%Q /\ 0 <= v < 3.
Proof.
  destruct (find_best_video_finds_excerpt
              [1#10; 2#10]%Q [[9#10]; [5#10; 1#10; 2#10]; [1#10; 2#10]]%Q)
    as (v & f & d & H & Hd & Hv & _).
  - exists [5#10]%Q, []. simpl. auto.
  - exists v, f, d. auto.
Defined.

(** ** The matcher: a window beyond the reference *)

Lemma mapM_Raise_inv {A B : Type} (f : A -> result B) (l : list A) (e : exn) :
  mapM f l = Raise e -> exists x, In x l /\ f x = Raise e.
Proof.
  induction l as [|y l IH]; simpl; intros H; [discriminate|].
  destruct (f y) as [b|e1] eqn:Ey; cbn [bind] in H.
  - destruct (mapM f l) as [bs|e2]; cbn [bind] in H; [discriminate|].
    destruct (IH H) as (x & Hin & Hx). eauto.
  - injection H as ->. eauto.
Qed.

Lemma index_raises {A : Type} (l : list A) (i : Z) (e : exn) :
  Py.index l i = Raise e -> e = IndexError.
Proof.
  unfold Py.index.
  destruct ((if i <? 0 then i + Py.len l else i) <? 0);
    [now intros [= <-]|].
  destruct (nth_error l _); [discriminate | now intros [= <-]].
Qed.

Lemma index_beyond {A : Type} (l : list A) (i : Z) :
  Py.len l <= i -> Py.index l i = Raise IndexError.
Proof.
  intros Hi. unfold Py.index, Py.len in *.
  destruct (Z.ltb_spec i 0); [lia|].
  destruct (Z.ltb_spec i 0); [lia|].
  destruct (nth_error l (Z.to_nat i)) eqn:E; [|reflexivity].
  assert (Hs : nth_error l (Z.to_nat i) <> None) by congruence.
  apply nth_error_Some in Hs. lia.
Qed.

(** X6.  [_l1_distance] does not truncate a window that runs beyond the end
    of the reference: for a query that is not empty and an offset that is
    not negative, it ends in [IndexError]. *)
Theorem l1_distance_beyond_reference (query reference : list Q) (offset : Z) :
  query <> [] ->
  0 <= offset ->
  Py.len reference < offset + Py.len query ->
  _l1_distance query reference offset = Raise IndexError.
Proof.
  intros Hq Ho Hlen. unfold _l1_distance.
  set (f := fun '(j, q) => r <- Py.index reference (offset + j) ;;
                           Ok (Qabs (q - r))).
  set (k := (List.length query - 1)%nat).
  assert (Hk : (k < List.length query)%nat)
    by (destruct query; [congruence | subst k; simpl; lia]).
  destruct (mapM_raises f (Py.enumerate query)
              (Z.of_nat k, nth k query 0%Q) IndexError) as (e & He).
  - rewrite <- (enumerate_nth query k 0 0%Q Hk).
    apply nth_In. now rewrite enumerate_length.
  - unfold f. rewrite index_beyond; [reflexivity|].
    unfold Py.len in *. subst k. lia.
  - rewrite He. cbn [bind]. f_equal.
    apply mapM_Raise_inv in He as ([j q] & _ & Hx). unfold f in Hx.
    destruct (Py.index reference (offset + j)) as [r|e1] eqn:Ei;
      cbn [bind] in Hx; [discriminate|].
    injection Hx as <-. now apply index_raises in Ei.
Qed.

Lemma l1_distance_beyond_reference_witness :
  _l1_distance [1#10; 2#10]%Q [5#10; 1#10; 2#10]%Q 2 = Raise IndexError.
Proof.
  apply (l1_distance_beyond_reference [1#10; 2#10]%Q [5#10; 1#10; 2#10]%Q 2);
    [discriminate | lia | reflexivity].
Defined.

(** ** The script: building the index *)

Lemma for_each_app {A : Type} (l1 l2 : list A) (body : A -> prog unit)
    (w : world) :
  for_each (l1 ++ l2) body w
  = match for_each l1 body w with
    | Return _ w1 => for_each l2 body w1
    | Abort s w1 => Abort s w1
    end.
Proof.
  revert w. induction l1 as [|x l1 IH]; intros w; [reflexivity|].
  cbn [app for_each]. unfold bind_prog.
  destruct (body x w) as [[] w1|s w1]; [apply IH | reflexivity].
Qed.

Lemma save_fingerprint_io_Ok (json_dumps : list Q -> string)
    (f : list Q) (i : Z) (d : Fs.path) (w : world) (fs' : Fs.t) :
  save_fingerprint json_dumps f i d (w_fs w) = Ok fs' ->
  save_fingerprint_io json_dumps f i d w
  = Return tt (World fs' (w_stdout w) (w_player w)).
Proof.
  unfold save_fingerprint, save_fingerprint_io, bind_prog, update_fs.
  intros H. apply bind_Ok_inv in H as (fs1 & Hmk & Hw).
  rewrite Hmk. cbn [w_fs w_stdout w_player]. now rewrite Hw.
Qed.

Lemma written_absent (json_dumps : list Q -> string) (fs : Fs.t)
    (d : Fs.path) (db : list (Z * list Q)) (i : Z) :
  written json_dumps fs d db -> ~ In i (map fst db) ->
  Fs.lookup fs (_path_for i d) = None.
Proof.
  intros (_ & Hlist & _) Hnot.
  destruct (Fs.lookup fs (_path_for i d)) as [n|] eqn:L; [|reflexivity].
  exfalso. apply Hnot.
  unfold _path_for in L. apply lookup_Some_In, In_children in L.
  assert (Hg : In (_path_for i d) (map (fun r => _path_for (fst r) d) db)).
  { rewrite <- Hlist. unfold _path_for. apply in_map, filter_In.
    split; [assumption | apply record_name_matches]. }
  apply in_map_iff in Hg as ([j g] & Hj & Hg). cbn [fst] in Hj.
  apply path_for_inj_all in Hj. subst j. apply (in_map fst) in Hg. exact Hg.
Qed.

Lemma save_fingerprint_exists_foreign (json_dumps : list Q -> string)
    (f : list Q) (i : Z) (d p : Fs.path) (fs fs' : Fs.t) :
  save_fingerprint json_dumps f i d fs = Ok fs' ->
  foreign_to d p ->
  Fs.exists_ fs' p = Fs.exists_ fs p.
Proof.
  intros Hsave (Hrec & Hpre).
  destruct (save_fingerprint_effect _ _ _ _ _ _ Hsave) as (_ & _ & Hother & _).
  unfold Fs.exists_, Fs.stat. destruct p as [|c q]; [reflexivity|].
  destruct (Hother (c :: q) (Hrec i)) as [->|(_ & _ & k & _ & E)];
    [reflexivity | now apply Hpre in E].
Qed.

Lemma flat_map_ext_in {A B : Type} (f g : A -> list B) (l : list A) :
  (forall x, In x l -> f x = g x) -> flat_map f l = flat_map g l.
Proof.
  induction l as [|x l IH]; intros H; simpl; [reflexivity|].
  rewrite (H x) by now left. rewrite IH by (intros; apply H; now right).
  reflexivity.
Qed.

(** The loop of [build_index]: it goes through when every audio file that
    exists decodes to at least one sample, and it writes one record for
    each of these files. *)
Lemma build_index_loop (librosa_load : string -> result (list Q * Z))
    (json_dumps : list Q -> string) (l : list (Z * Fs.path)) :
  forall (w : world) (db : list (Z * list Q)),
    written json_dumps (w_fs w) FINGERPRINT_DIR db ->
    (forall c, Fs.lookup (w_fs w) FINGERPRINT_DIR <> Some (Fs.File c)) ->
    (db <> [] -> Fs.stat (w_fs w) FINGERPRINT_DIR = Some Fs.Dir) ->
    NoDup (map fst db ++ map fst l) ->
    Forall (fun r => 0 <= fst r /\ foreign_to FINGERPRINT_DIR (snd r)) l ->
    (forall i p, In (i, p) l -> Fs.exists_ (w_fs w) p = true ->
       exists y sr, librosa_load (path_str p) = Ok (y, sr)
                    /\ 0 < sr /\ 0 < Py.len y) ->
    exists w',
      for_each l
        (fun '(idx, audio_path) =>
           present <~ read_fs (fun fs => Fs.exists_ fs audio_path) ;;
           if negb present then
             print ("  [SKIP] " ++ path_str audio_path ++ " not found.")
                   newline
           else
             'tt <~ print ("  Indexing video " ++ str idx ++ ": "
                           ++ path_name audio_path) "" ;;
             fingerprint <~ extract_fingerprint_io librosa_load audio_path ;;
             'tt <~ save_fingerprint_io json_dumps fingerprint idx
                      FINGERPRINT_DIR ;;
             print ("  (" ++ str (Py.len fingerprint) ++ " seconds)")
                   newline) w
      = Return tt w'
      /\ written json_dumps (w_fs w') FINGERPRINT_DIR
           (db ++ flat_map
                    (fun '(idx, audio_path) =>
                       if Fs.exists_ (w_fs w) audio_path then
                         match extract_fingerprint librosa_load
                                 (path_str audio_path) with
                         | Ok fingerprint => [(idx, fingerprint)]
                         | Raise _ => []
                         end
                       else []) l)
      /\ (forall c, Fs.lookup (w_fs w') FINGERPRINT_DIR <> Some (Fs.File c))
      /\ (db ++ flat_map
                  (fun '(idx, audio_path) =>
                     if Fs.exists_ (w_fs w) audio_path then
                       match extract_fingerprint librosa_load
                               (path_str audio_path) with
                       | Ok fingerprint => [(idx, fingerprint)]
                       | Raise _ => []
                       end
                     else []) l <> [] ->
          Fs.stat (w_fs w') FINGERPRINT_DIR = Some Fs.Dir)
      /\ w_player w' = w_player w
      /\ (forall p, foreign_to FINGERPRINT_DIR p ->
            Fs.exists_ (w_fs w') p = Fs.exists_ (w_fs w) p).
Proof.
  induction l as [|[i p] l IH]; intros w db Hw Hfile Hdir Hnd Hl Hdec.
  - exists w. cbn [for_each flat_map]. rewrite app_nil_r.
    split; [reflexivity|]. split; [assumption|]. split; [assumption|].
    split; [assumption|]. split; reflexivity.
  - inversion Hl as [|? ? (Hi & Hforeign) Hl']; subst. cbn [fst snd] in *.
    cbn [for_each flat_map]. unfold bind_prog at 1.
    unfold bind_prog at 1, read_fs at 1.
    destruct (Fs.exists_ (w_fs w) p) eqn:Ex; cbn [negb].
    + (* the audio file exists: it is indexed *)
      destruct (Hdec i p (or_introl eq_refl) Ex) as (y & sr & Hload & Hsr & Hy).
      destruct (extract_fingerprint_nonempty _ _ _ _ Hload Hsr Hy)
        as (fp & Hfp & _).
      rewrite Hfp.
      assert (Hnew : ~ In i (map fst db)).
      { intros Hin. cbn [map fst] in Hnd.
        apply NoDup_remove_2 in Hnd. apply Hnd, in_or_app. now left. }
      destruct (save_fingerprint_total json_dumps fp i FINGERPRINT_DIR (w_fs w))
        as (fs' & Hsave).
      { intros k c Hk. simpl in Hk. assert (k = 1%nat) as -> by lia.
        apply Hfile. }
      { rewrite (written_absent _ _ _ _ _ Hw Hnew). discriminate. }
      destruct (save_fingerprint_written _ _ _ _ _ _ _ Hw Hi Hsave)
        as (Hw' & Hd').
      rewrite db_save_new in Hw' by assumption.
      unfold bind_prog, print at 1, extract_fingerprint_io, lift.
      cbn [w_fs w_stdout w_player]. rewrite Hfp.
      rewrite (save_fingerprint_io_Ok json_dumps fp i FINGERPRINT_DIR _ fs')
        by exact Hsave.
      unfold print at 1. cbn [w_fs w_stdout w_player].
      match goal with |- exists w', for_each _ _ ?w1 = _ /\ _ =>
        destruct (IH w1 (db ++ [(i, fp)])) as (w' & Hrun & Hwr & Hf & Hs & Hp & He)
      end; cbn [w_fs w_stdout w_player].
      * exact Hw'.
      * intros c E. simpl in Hd'. congruence.
      * intros _. exact Hd'.
      * rewrite map_app, <- app_assoc. exact Hnd.
      * exact Hl'.
      * intros j q Hin Hq. apply (Hdec j q); [now right|].
        rewrite Forall_forall in Hl'. destruct (Hl' (j, q) Hin) as (_ & Hfq).
        cbn [snd] in Hfq.
        now rewrite <- (save_fingerprint_exists_foreign _ _ _ _ _ _ _ Hsave Hfq).
      * cbn [w_fs w_stdout w_player] in *.
        assert (Hsame :
          flat_map (fun '(idx, audio_path) =>
                      if Fs.exists_ fs' audio_path then
                        match extract_fingerprint librosa_load
                                (path_str audio_path) with
                        | Ok fingerprint => [(idx, fingerprint)]
                        | Raise _ => []
                        end
                      else []) l
          = flat_map (fun '(idx, audio_path) =>
                        if Fs.exists_ (w_fs w) audio_path then
                          match extract_fingerprint librosa_load
                                  (path_str audio_path) with
                          | Ok fingerprint => [(idx, fingerprint)]
                          | Raise _ => []
                          end
                        else []) l).
        { apply flat_map_ext_in. intros [j q] Hin.
          rewrite Forall_forall in Hl'. destruct (Hl' (j, q) Hin) as (_ & Hfq).
          cbn [snd] in Hfq.
          now rewrite (save_fingerprint_exists_foreign _ _ _ _ _ _ _ Hsave Hfq). }
        rewrite Hsame, <- app_assoc in Hwr, Hs. cbn [app] in Hwr, Hs.
        exists w'. split; [exact Hrun|]. split; [exact Hwr|].
        split; [exact Hf|]. split; [exact Hs|]. split; [exact Hp|].
        intros q Hq. rewrite (He q Hq).
        now apply (save_fingerprint_exists_foreign _ _ _ _ _ _ _ Hsave).
    + (* the audio file is missing: it is skipped *)
      unfold print at 1. cbn [w_fs w_stdout w_player app].
      match goal with |- exists w', for_each _ _ ?w1 = _ /\ _ =>
        destruct (IH w1 db) as (w' & Hrun & Hwr & Hf & Hs & Hp & He)
      end; cbn [w_fs w_stdout w_player]; try assumption.
      * cbn [map fst] in Hnd. now apply NoDup_remove_1 in Hnd.
      * intros j q Hin Hq. apply (Hdec j q); [now right | assumption].
      * cbn [w_fs w_stdout w_player] in *. exists w'.
        split; [exact Hrun|]. split; [exact Hwr|]. split; [exact Hf|].
        split; [exact Hs|]. split; [exact Hp | exact He].
Qed.

Lemma wav_is_not_json (s t : string) : (s ++ ".wav" <> t ++ ".json")%string.
Proof.
  revert t. induction s as [|a s IH]; intros [|b t] E; simpl in E.
  - discriminate.
  - inversion E as [[Ha Et]]. apply (f_equal String.length) in Et.
    rewrite string_length_app in Et. simpl in Et. lia.
  - inversion E as [[Ha Et]]. apply (f_equal String.length) in Et.
    rewrite string_length_app in Et. simpl in Et.
    destruct s; [discriminate | simpl in Et; lia].
  - inversion E as [[Ha Et]]. now apply IH in Et.
Qed.

(** The audio files of the reference videos are never touched by a save
    into [FINGERPRINT_DIR]. *)
Lemma audio_path_foreign (audio_dir : Fs.path) (i : Z) :
  foreign_to FINGERPRINT_DIR (Fs.join audio_dir ("video" ++ str i ++ ".wav")).
Proof.
  split.
  - intros j E. unfold _path_for, Fs.join in E.
    apply app_inj_tail in E as (_ & E). simpl in E. injection E as E.
    now apply wav_is_not_json in E.
  - intros [|k] E.
    + now apply join_nonempty in E.
    + unfold FINGERPRINT_DIR in E. cbn [firstn] in E.
      rewrite firstn_nil in E. unfold Fs.join in E.
      change ["fingerprints"%string] with ([] ++ ["fingerprints"%string]) in E.
      apply app_inj_tail in E as (_ & E). discriminate.
Qed.

Lemma iter_video_paths_unfold (video_dir : Fs.path) (count : Z)
    (extension : string) :
  iter_video_paths video_dir count extension
  = map (fun k => (1 + Z.of_nat k,
                   Fs.join video_dir
                     ("video" ++ str (1 + Z.of_nat k) ++ extension)%string))
        (seq 0 (Z.to_nat count)).
Proof.
  unfold iter_video_paths, range2. rewrite map_map.
  replace (count + 1 - 1) with count by lia. reflexivity.
Qed.

Lemma iter_video_paths_In (video_dir : Fs.path) (count : Z)
    (extension : string) (i : Z) (p : Fs.path) :
  In (i, p) (iter_video_paths video_dir count extension) ->
  1 <= i <= count
  /\ p = Fs.join video_dir ("video" ++ str i ++ extension)%string.
Proof.
  unfold iter_video_paths. rewrite in_map_iff.
  intros (j & E & Hj). injection E as <- <-. apply range2_In in Hj.
  split; [lia | reflexivity].
Qed.

Lemma iter_video_paths_keys (video_dir : Fs.path) (count : Z)
    (extension : string) :
  map fst (iter_video_paths video_dir count extension) = range2 1 (count + 1).
Proof.
  unfold iter_video_paths. rewrite map_map. cbn [fst]. apply map_id.
Qed.

Lemma range2_sorted (a b : Z) : StronglySorted Z.lt (range2 a b).
Proof.
  unfold range2. generalize (Z.to_nat (b - a)) as n. generalize O as s.
  intros s n. revert s. induction n as [|n IH]; intros s; simpl.
  - constructor.
  - constructor; [apply IH|].
    apply Forall_forall. intros x Hx. apply in_map_iff in Hx as (j & <- & Hj).
    apply in_seq in Hj. lia.
Qed.

Lemma flat_map_keys_sorted {A B : Type} (f : Z * A -> list (Z * B))
    (l : list (Z * A)) :
  (forall x, f x = [] \/ exists v, f x = [(fst x, v)]) ->
  StronglySorted Z.lt (map fst l) ->
  StronglySorted Z.lt (map fst (flat_map f l))
  /\ incl (map fst (flat_map f l)) (map fst l).
Proof.
  intros Hf. induction l as [|x l IH]; simpl; intros Hs.
  - split; [constructor | apply incl_refl].
  - inversion Hs as [|? ? Hs' Hall]; subst.
    destruct (IH Hs') as (IH1 & IH2).
    destruct (Hf x) as [->|(v & ->)]; simpl.
    + split; [assumption | now apply incl_tl].
    + split.
      * constructor; [assumption|].
        rewrite Forall_forall in *. intros k Hk. apply Hall, IH2, Hk.
      * intros k [<-|Hk]; [now left | right; now apply IH2].
Qed.

Lemma indexed_sorted (librosa_load : string -> result (list Q * Z))
    (fs : Fs.t) (audio_dir : Fs.path) (count : Z) :
  StronglySorted Z.lt (map fst (indexed librosa_load fs audio_dir count)).
Proof.
  unfold indexed. apply flat_map_keys_sorted.
  - intros [i p]. destruct (Fs.exists_ fs p); [|now left].
    destruct (extract_fingerprint librosa_load (path_str p)); [|now left].
    right. eauto.
  - rewrite iter_video_paths_keys. apply range2_sorted.
Qed.

Lemma indexed_fingerprint (librosa_load : string -> result (list Q * Z))
    (fs : Fs.t) (audio_dir : Fs.path) (count : Z) (i : Z) (fp : list Q) :
  In (i, fp) (indexed librosa_load fs audio_dir count) ->
  exists p, In (i, p) (iter_video_paths audio_dir count ".wav")
            /\ Fs.exists_ fs p = true
            /\ extract_fingerprint librosa_load (path_str p) = Ok fp.
Proof.
  unfold indexed. rewrite in_flat_map. intros ([j p] & Hin & H).
  destruct (Fs.exists_ fs p) eqn:Ex; [|contradiction].
  destruct (extract_fingerprint librosa_load (path_str p)) as [f|] eqn:Ef;
    [|contradiction].
  destruct H as [E|[]]. injection E as -> ->. eauto.
Qed.

Lemma build_index_loop_ready (audio_dir : Fs.path) (count : Z) :
  NoDup (map fst (@nil (Z * list Q))
         ++ map fst (iter_video_paths audio_dir count ".wav"))
  /\ Forall (fun r => 0 <= fst r /\ foreign_to FINGERPRINT_DIR (snd r))
            (iter_video_paths audio_dir count ".wav").
Proof.
  split.
  - cbn [map app]. rewrite iter_video_paths_keys. apply range2_NoDup.
  - apply Forall_forall. intros [i p] Hin.
    apply iter_video_paths_In in Hin as (Hi & ->). cbn [fst snd].
    split; [lia | apply audio_path_foreign].
Qed.

(** X16.  An index build followed by a load: from a directory without
    records (and which is no regular file), when every audio file
    [video<i>.wav] that exists decodes to at least one sample, [build_index]
    returns, without opening the player, and [load_all_fingerprints] then
    gives the fingerprints of the audio files that exist, in ascending
    order of their indices; the missing files are skipped. *)
Theorem build_index_then_load_all
    (librosa_load : string -> result (list Q * Z))
    (json_dumps : list Q -> string) (json_loads : string -> result (list Q))
    (audio_dir : Fs.path) (count : Z) (w : world) :
  written json_dumps (w_fs w) FINGERPRINT_DIR [] ->
  (forall c, Fs.lookup (w_fs w) FINGERPRINT_DIR <> Some (Fs.File c)) ->
  (forall i p, In (i, p) (iter_video_paths audio_dir count ".wav") ->
     Fs.exists_ (w_fs w) p = true ->
     exists y sr, librosa_load (path_str p) = Ok (y, sr)
                  /\ 0 < sr /\ 0 < Py.len y) ->
  (forall f, fingerprint f -> json_loads (json_dumps f) = Ok f) ->
  exists w',
    build_index librosa_load json_dumps audio_dir count w = Return tt w'
    /\ load_all_fingerprints json_loads FINGERPRINT_DIR (w_fs w')
       = Ok (map snd (indexed librosa_load (w_fs w) audio_dir count))
    /\ w_player w' = w_player w.
Proof.
  intros Hw Hfile Hdec Hjson.
  destruct (build_index_loop_ready audio_dir count) as (Hnd & Hl).
  unfold build_index, bind_prog. unfold print at 1.
  match goal with |- context [for_each _ _ ?w1] =>
    destruct (build_index_loop librosa_load json_dumps
                (iter_video_paths audio_dir count ".wav") w1 [])
      as (w2 & Hrun & Hwr & _ & Hdir & Hp & _)
  end; cbn [w_fs w_stdout w_player]; try assumption; [congruence|].
  unfold bind_prog in Hrun. cbn [w_fs w_stdout w_player app] in *.
  rewrite Hrun. unfold print.
  eexists. split; [reflexivity|]. cbn [w_fs w_player].
  split; [|assumption].
  fold (indexed librosa_load (w_fs w) audio_dir count) in Hwr, Hdir.
  destruct (load_all_holds json_dumps json_loads FINGERPRINT_DIR (w_fs w2)
              (indexed librosa_load (w_fs w) audio_dir count))
    as (out & -> & Hperm & Hsorted).
  - apply written_holds; [assumption|].
    destruct (indexed librosa_load (w_fs w) audio_dir count);
      [now left | right; apply Hdir; discriminate].
  - intros i fp Hin. apply Hjson.
    apply indexed_fingerprint in Hin as (p & _ & _ & Hfp).
    now apply extract_fingerprint_fingerprint in Hfp.
  - do 2 f_equal. apply strictly_sorted_unique; try assumption.
    apply indexed_sorted.
Qed.

Lemma build_index_then_load_all_witness :
  exists w',
    build_index decode_audio Json.dumps ["audio"]%string 3
      (World fs_audio [] []) = Return tt w'
    /\ load_all_fingerprints Json.loads FINGERPRINT_DIR (w_fs w')
       = Ok (map snd (indexed decode_audio fs_audio ["audio"]%string 3))
    /\ w_player w' = [].
Proof.
  apply (build_index_then_load_all decode_audio Json.dumps Json.loads
           ["audio"]%string 3 (World fs_audio [] [])).
  - split; [constructor|]. split; [reflexivity|]. intros i fp [].
  - intros c. discriminate.
  - intros i p Hin Hex. vm_compute in Hin.
    destruct Hin as [E|[E|[E|[]]]]; injection E as <- <-.
    + exists [1#4; -3#4; 1#10; 1#20; 9#10]%Q, 2.
      split; [reflexivity | split; reflexivity].
    + discriminate Hex.
    + exists [1#2; -1; 1#4; 1#8]%Q, 1.
      split; [reflexivity | split; reflexivity].
  - intros f Hf. now apply json_round_trip.
Defined.

(** ** The script: an audio file without samples *)

Lemma iter_video_paths_split (video_dir : Fs.path) (count k : Z)
    (extension : string) :
  1 <= k <= count ->
  exists rest,
    iter_video_paths video_dir count extension
    = iter_video_paths video_dir (k - 1) extension
      ++ (k, Fs.join video_dir ("video" ++ str k ++ extension)%string) :: rest.
Proof.
  intros Hk. rewrite !iter_video_paths_unfold.
  replace (Z.to_nat count)
    with (Z.to_nat (k - 1) + S (Z.to_nat (count - k)))%nat by lia.
  rewrite seq_app, map_app. cbn [seq map].
  replace (1 + Z.of_nat (0 + Z.to_nat (k - 1))) with k by lia.
  eexists. reflexivity.
Qed.

Lemma extract_fingerprint_no_sample
    (librosa_load : string -> result (list Q * Z)) (audio_path : string)
    (sr : Z) :
  librosa_load audio_path = Ok ([], sr) -> 0 < sr ->
  extract_fingerprint librosa_load audio_path = Raise IndexError.
Proof.
  intros Hload Hsr. unfold extract_fingerprint. rewrite Hload.
  cbn [bind]. change (Py.len []) with 0. rewrite (range3_pos _ _ Hsr).
  reflexivity.
Qed.

Lemma build_index_loop_abort (librosa_load : string -> result (list Q * Z))
    (json_dumps : list Q -> string) (l rest : list (Z * Fs.path))
    (i : Z) (p : Fs.path) (sr : Z) (w : world) :
  written json_dumps (w_fs w) FINGERPRINT_DIR [] ->
  (forall c, Fs.lookup (w_fs w) FINGERPRINT_DIR <> Some (Fs.File c)) ->
  NoDup (map fst l) ->
  Forall (fun r => 0 <= fst r /\ foreign_to FINGERPRINT_DIR (snd r)) l ->
  (forall i p, In (i, p) l -> Fs.exists_ (w_fs w) p = true ->
     exists y sr, librosa_load (path_str p) = Ok (y, sr)
                  /\ 0 < sr /\ 0 < Py.len y) ->
  foreign_to FINGERPRINT_DIR p ->
  Fs.exists_ (w_fs w) p = true ->
  librosa_load (path_str p) = Ok ([], sr) ->
  0 < sr ->
  exists w',
    for_each (l ++ (i, p) :: rest)
      (fun '(idx, audio_path) =>
         present <~ read_fs (fun fs => Fs.exists_ fs audio_path) ;;
         if negb present then
           print ("  [SKIP] " ++ path_str audio_path ++ " not found.")
                 newline
         else
           'tt <~ print ("  Indexing video " ++ str idx ++ ": "
                         ++ path_name audio_path) "" ;;
           fingerprint <~ extract_fingerprint_io librosa_load audio_path ;;
           'tt <~ save_fingerprint_io json_dumps fingerprint idx
                    FINGERPRINT_DIR ;;
           print ("  (" ++ str (Py.len fingerprint) ++ " seconds)")
                 newline) w
    = Abort (Exception IndexError) w'
    /\ written json_dumps (w_fs w') FINGERPRINT_DIR
         (flat_map
            (fun '(idx, audio_path) =>
               if Fs.exists_ (w_fs w) audio_path then
                 match extract_fingerprint librosa_load
                         (path_str audio_path) with
                 | Ok fingerprint => [(idx, fingerprint)]
                 | Raise _ => []
                 end
               else []) l)
    /\ w_player w' = w_player w.
Proof.
  intros Hw Hfile Hnd Hl Hdec Hforeign Hex Hload Hsr.
  rewrite for_each_app.
  destruct (build_index_loop librosa_load json_dumps l w [])
    as (w1 & Hrun & Hwr & _ & _ & Hp & Hsame);
    try assumption; [congruence|].
  cbn [app] in Hwr. rewrite Hrun. cbn [for_each].
  unfold bind_prog at 1. unfold bind_prog at 1, read_fs at 1.
  rewrite (Hsame p Hforeign), Hex. cbn [negb].
  unfold bind_prog at 1, print at 1. unfold bind_prog at 1.
  unfold extract_fingerprint_io, lift.
  rewrite (extract_fingerprint_no_sample _ _ _ Hload Hsr).
  eexists. split; [reflexivity|]. cbn [w_fs w_player]. now split.
Qed.

(** X17.  An audio file without samples stops the index build: when
    [video<k>.wav] exists and decodes to no sample, while the audio files
    before it decode to at least one, [build_index] ends in [IndexError];
    the records of the videos before [k] are then written, none of the
    later videos is indexed, and the player was not opened. *)
Theorem build_index_stops_at_empty_audio
    (librosa_load : string -> result (list Q * Z))
    (json_dumps : list Q -> string)
    (audio_dir : Fs.path) (count k sr : Z) (w : world) :
  written json_dumps (w_fs w) FINGERPRINT_DIR [] ->
  (forall c, Fs.lookup (w_fs w) FINGERPRINT_DIR <> Some (Fs.File c)) ->
  1 <= k <= count ->
  (forall i p, In (i, p) (iter_video_paths audio_dir (k - 1) ".wav") ->
     Fs.exists_ (w_fs w) p = true ->
     exists y sr, librosa_load (path_str p) = Ok (y, sr)
                  /\ 0 < sr /\ 0 < Py.len y) ->
  Fs.exists_ (w_fs w) (Fs.join audio_dir ("video" ++ str k ++ ".wav")) = true ->
  librosa_load (path_str (Fs.join audio_dir ("video" ++ str k ++ ".wav")))
  = Ok ([], sr) ->
  0 < sr ->
  exists w',
    build_index librosa_load json_dumps audio_dir count w
    = Abort (Exception IndexError) w'
    /\ written json_dumps (w_fs w') FINGERPRINT_DIR
         (indexed librosa_load (w_fs w) audio_dir (k - 1))
    /\ w_player w' = w_player w.
Proof.
  intros Hw Hfile Hk Hdec Hex Hload Hsr.
  destruct (iter_video_paths_split audio_dir count k ".wav" Hk)
    as (rest & Hsplit).
  destruct (build_index_loop_ready audio_dir (k - 1)) as (Hnd & Hl).
  unfold build_index. rewrite Hsplit. unfold bind_prog, print at 1.
  match goal with |- context [for_each _ _ ?w1] =>
    destruct (build_index_loop_abort librosa_load json_dumps
                (iter_video_paths audio_dir (k - 1) ".wav") rest k
                (Fs.join audio_dir ("video" ++ str k ++ ".wav")) sr w1)
      as (w2 & Hrun & Hwr & Hp)
  end; cbn [w_fs w_stdout w_player]; try assumption;
    [apply audio_path_foreign|].
  unfold bind_prog in Hrun. cbn [w_fs w_stdout w_player app] in *.
  rewrite Hrun. exists w2. split; [reflexivity|]. now split.
Qed.

Lemma build_index_stops_at_empty_audio_witness :
  exists w',
    build_index decode_silent Json.dumps ["audio"]%string 3
      (World fs_audio [] [])
    = Abort (Exception IndexError) w'
    /\ written Json.dumps (w_fs w') FINGERPRINT_DIR
         (indexed decode_silent fs_audio ["audio"]%string (3 - 1))
    /\ w_player w' = [].
Proof.
  apply (build_index_stops_at_empty_audio decode_silent Json.dumps
           ["audio"]%string 3 3 22050 (World fs_audio [] [])).
  - split; [constructor|]. split; [reflexivity|]. intros i fp [].
  - intros c. discriminate.
  - lia.
  - intros i p Hin Hex. vm_compute in Hin.
    destruct Hin as [E|[E|[]]]; injection E as <- <-.
    + exists [1#4; -3#4; 1#10; 1#20; 9#10]%Q, 2.
      split; [reflexivity | split; reflexivity].
    + discriminate Hex.
  - reflexivity.
  - reflexivity.
  - lia.
Defined.

(** ** The script: answering a query *)

Lemma run_query_launches (librosa_load : string -> result (list Q * Z))
    (json_loads : string -> result (list Q)) (qt_exec : string -> Z -> Z)
    (query_audio query_video : Fs.path) (w : world)
    (references : list (list Q)) (query_fp : list Q) (v f : Z) (d : pyfloat) :
  load_all_fingerprints json_loads FINGERPRINT_DIR (w_fs w) = Ok references ->
  references <> [] ->
  extract_fingerprint librosa_load (path_str query_audio) = Ok query_fp ->
  find_best_video query_fp references = Ok (v, f, d) ->
  exists w',
    run_query librosa_load json_loads qt_exec query_audio query_video w
    = Abort (SystemExit
               (ExitCode (qt_exec ("video" ++ str (v + 1) ++ ".mp4")%string f)))
            w'
    /\ w_player w'
       = w_player w ++ [(("video" ++ str (v + 1) ++ ".mp4")%string, f)]
    /\ w_fs w' = w_fs w.
Proof.
  intros Hload Hne Hq Hbest.
  unfold run_query, bind_prog, load_all_fingerprints_io, lift.
  rewrite Hload. destruct references as [|r0 rs]; [congruence|].
  unfold print at 1 2. unfold extract_fingerprint_io, lift.
  cbn [w_fs]. rewrite Hq. unfold print at 1. rewrite Hbest.
  unfold print, _launch_player. cbn [w_fs w_stdout w_player].
  eexists. split; [reflexivity|]. cbn [w_fs w_player]. now split.
Qed.

(** X18.  [run_query] never returns to its caller and never writes the file
    system: in every world it ends either in an exception or an exit
    message, the player not having been opened, or in the exit code of the
    player, opened exactly once. *)
Theorem run_query_never_returns
    (librosa_load : string -> result (list Q * Z))
    (json_loads : string -> result (list Q)) (qt_exec : string -> Z -> Z)
    (query_audio query_video : Fs.path) (w : world) :
  exists s w',
    run_query librosa_load json_loads qt_exec query_audio query_video w
    = Abort s w'
    /\ w_fs w' = w_fs w
    /\ ((w_player w' = w_player w /\ forall n, s <> SystemExit (ExitCode n))
        \/ exists video frame,
             s = SystemExit (ExitCode (qt_exec video frame))
             /\ w_player w' = w_player w ++ [(video, frame)]).
Proof.
  destruct (load_all_fingerprints json_loads FINGERPRINT_DIR (w_fs w))
    as [references|e] eqn:Hload.
  2:{ unfold run_query, bind_prog, load_all_fingerprints_io, lift.
      rewrite Hload. do 2 eexists. split; [reflexivity|].
      split; [reflexivity|]. left. split; [reflexivity | discriminate]. }
  destruct references as [|r0 rs].
  { unfold run_query, bind_prog, load_all_fingerprints_io, lift, sys_exit.
    rewrite Hload. do 2 eexists. split; [reflexivity|].
    split; [reflexivity|]. left. split; [reflexivity | discriminate]. }
  destruct (extract_fingerprint librosa_load (path_str query_audio))
    as [query_fp|e] eqn:Hq.
  2:{ unfold run_query, bind_prog, load_all_fingerprints_io, lift.
      rewrite Hload. unfold print at 1 2. unfold extract_fingerprint_io, lift.
      rewrite Hq. do 2 eexists. split; [reflexivity|].
      split; [reflexivity|]. left. split; [reflexivity | discriminate]. }
  destruct (find_best_video query_fp (r0 :: rs)) as [[[v f] d]|e] eqn:Hbest.
  - destruct (run_query_launches librosa_load json_loads qt_exec query_audio
                query_video w _ _ _ _ _ Hload ltac:(discriminate) Hq Hbest)
      as (w' & Hrun & Hp & Hfs).
    do 2 eexists. split; [exact Hrun|]. split; [exact Hfs|].
    right. eauto.
  - unfold run_query, bind_prog, load_all_fingerprints_io, lift.
    rewrite Hload. unfold print at 1 2. unfold extract_fingerprint_io, lift.
    cbn [w_fs]. rewrite Hq. unfold print at 1. rewrite Hbest.
    do 2 eexists. split; [reflexivity|].
    split; [reflexivity|]. left. split; [reflexivity | discriminate].
Qed.

(** X19.  The sentinel of the matcher reaches the player: when the database
    is not empty but every reference is shorter than the query,
    [find_best_video] has found no candidate and [run_query], which does not
    look at the sentinel, opens the player on [video0.mp4] at second [-1]. *)
Theorem run_query_plays_sentinel
    (librosa_load : string -> result (list Q * Z))
    (json_loads : string -> result (list Q)) (qt_exec : string -> Z -> Z)
    (query_audio query_video : Fs.path) (w : world)
    (references : list (list Q)) (query_fp : list Q) :
  load_all_fingerprints json_loads FINGERPRINT_DIR (w_fs w) = Ok references ->
  references <> [] ->
  extract_fingerprint librosa_load (path_str query_audio) = Ok query_fp ->
  (forall ref, In ref references -> Py.len ref < Py.len query_fp) ->
  exists w',
    run_query librosa_load json_loads qt_exec query_audio query_video w
    = Abort (SystemExit (ExitCode (qt_exec "video0.mp4"%string (-1)))) w'
    /\ w_player w' = w_player w ++ [("video0.mp4"%string, -1)].
Proof.
  intros Hload Hne Hq Hshort.
  assert (Hbest : find_best_video query_fp references = Ok (-1, -1, Inf)).
  { unfold find_best_video. apply find_best_video_keeps.
    intros i ref Hin. apply in_combine_r in Hin.
    specialize (Hshort ref Hin). lia. }
  destruct (run_query_launches librosa_load json_loads qt_exec query_audio
              query_video w _ _ _ _ _ Hload Hne Hq Hbest)
    as (w' & Hrun & Hp & _).
  exists w'. split; assumption.
Qed.

Lemma run_query_plays_sentinel_witness :
  exists w',
    run_query decode_audio Json.loads (fun _ _ => 0)
      ["audio"; "video3.wav"]%string ["query.mp4"]%string
      (World fs_312 [] [])
    = Abort (SystemExit (ExitCode 0)) w'
    /\ w_player w' = [("video0.mp4"%string, -1)].
Proof.
  apply (run_query_plays_sentinel decode_audio Json.loads (fun _ _ => 0)
           ["audio"; "video3.wav"]%string ["query.mp4"]%string
           (World fs_312 [] [])
           [[1#10]; [2#10; 0#10]; [3#10; 3#10]]%Q [5#10; 10#10; 2#10]%Q).
  - reflexivity.
  - discriminate.
  - reflexivity.
  - intros ref [<-|[<-|[<-|[]]]]; reflexivity.
Defined.

Lemma sorted_position (l : list Z) :
  forall (b : Z) (v : nat),
    StronglySorted Z.lt l -> (forall x, In x l -> b <= x) ->
    (v < List.length l)%nat ->
    b + Z.of_nat v <= nth v l 0
    /\ (nth v l 0 = b + Z.of_nat v
        <-> forall j, b <= j <= nth v l 0 -> In j l).
Proof.
  induction l as [|x l IH]; intros b v Hs Hb Hv; [simpl in Hv; lia|].
  inversion Hs as [|? ? Hs' Hall]; subst. rewrite Forall_forall in Hall.
  assert (Hbx : b <= x) by (apply Hb; now left).
  assert (Hx1 : forall y, In y l -> x + 1 <= y)
    by (intros y Hy; apply Hall in Hy; lia).
  destruct v as [|v]; cbn [nth].
  - split; [lia|]. split.
    + intros E j Hj. left. lia.
    + intros H. destruct (H b ltac:(lia)) as [E|Hin]; [lia|].
      apply Hall in Hin. lia.
  - simpl in Hv.
    destruct (IH (x + 1) v Hs' Hx1 ltac:(lia)) as (Hge & Hiff).
    split; [lia|]. split.
    + intros E. assert (x = b) by lia. subst x. intros j Hj.
      destruct (Z.eq_dec j b) as [->|Hne]; [now left|].
      right. apply Hiff; lia.
    + intros H. destruct (H b ltac:(lia)) as [E|Hin];
        [|apply Hall in Hin; lia].
      subst x. assert (nth v l 0 = b + 1 + Z.of_nat v); [|lia].
      apply Hiff. intros j Hj.
      destruct (H j ltac:(lia)) as [E|Hin]; [lia | assumption].
Qed.

(** X20.  The position of a fingerprint in the list that
    [load_all_fingerprints] returns is not the index of its video.  When
    the directory holds a database of indices at least 1, the fingerprint
    at position [v] (from 0) is the one of a record whose index is at least
    [v + 1], and is [v + 1] (the number that [run_query] gives to the video
    of position [v]) exactly when no index from 1 up to the index of the
    record is missing from the directory. *)
Theorem load_all_fingerprints_positions
    (json_dumps : list Q -> string) (json_loads : string -> result (list Q))
    (d : Fs.path) (fs : Fs.t) (db : list (Z * list Q)) :
  holds json_dumps fs d db ->
  (forall i fp, In (i, fp) db -> 1 <= i /\ json_loads (json_dumps fp) = Ok fp) ->
  exists out,
    load_all_fingerprints json_loads d fs = Ok (map snd out)
    /\ Permutation out db
    /\ forall v i fp,
         (v < List.length out)%nat -> nth v out (0, []) = (i, fp) ->
         In (i, fp) db
         /\ nth v (map snd out) [] = fp
         /\ Z.of_nat v + 1 <= i
         /\ (i = Z.of_nat v + 1
             <-> forall j, 1 <= j <= i -> In j (map fst db)).
Proof.
  intros Hholds Hdb.
  destruct (load_all_holds json_dumps json_loads d fs db Hholds)
    as (out & Hload & Hperm & Hsorted).
  { intros i fp Hin. now destruct (Hdb i fp Hin). }
  exists out. split; [assumption|]. split; [assumption|].
  intros v i fp Hv Er.
  assert (Hin : In (i, fp) db).
  { apply (Permutation_in _ Hperm). rewrite <- Er. now apply nth_In. }
  pose proof (map_nth snd out (0, []) v) as Hnth.
  cbn [snd] in Hnth. rewrite Er in Hnth. cbn [snd] in Hnth.
  pose proof (map_nth fst out (0, []) v) as Hkey.
  cbn [fst] in Hkey. rewrite Er in Hkey. cbn [fst] in Hkey.
  destruct (sorted_position (map fst out) 1 v Hsorted) as (Hge & Hiff).
  { intros x Hx. apply in_map_iff in Hx as ([j g] & <- & Hjg).
    apply (Permutation_in _ Hperm) in Hjg. now destruct (Hdb j g Hjg). }
  { now rewrite length_map. }
  rewrite Hkey in Hge, Hiff.
  split; [assumption|]. split; [assumption|]. split; [lia|].
  rewrite (Z.add_comm (Z.of_nat v) 1), Hiff. split.
  - intros H j Hj.
    eapply Permutation_in; [apply Permutation_map, Hperm|]. now apply H.
  - intros H j Hj.
    eapply Permutation_in; [apply Permutation_map, Permutation_sym, Hperm|].
    now apply H.
Qed.

Lemma load_all_fingerprints_positions_witness :
  exists out,
    load_all_fingerprints Json.loads FINGERPRINT_DIR fs_13 = Ok (map snd out)
    /\ Permutation out [(3, [3#10; 3#10]%Q); (1, [1#10]%Q)]
    /\ forall v i fp,
         (v < List.length out)%nat -> nth v out (0, []) = (i, fp) ->
         In (i, fp) [(3, [3#10; 3#10]%Q); (1, [1#10]%Q)]
         /\ nth v (map snd out) [] = fp
         /\ Z.of_nat v + 1 <= i
         /\ (i = Z.of_nat v + 1
             <-> forall j, 1 <= j <= i ->
                   In j (map fst [(3, [3#10; 3#10]%Q); (1, [1#10]%Q)])).
Proof.
  apply (load_all_fingerprints_positions Json.dumps Json.loads
           FINGERPRINT_DIR fs_13 [(3, [3#10; 3#10]%Q); (1, [1#10]%Q)]).
  - destruct (save_all_written Json.dumps
                [(3, [3#10; 3#10]%Q); (1, [1#10]%Q)] FINGERPRINT_DIR
                [] fs_13 []) as (Hw & Hd).
    + apply written_empty.
    + repeat constructor; simpl; lia.
    + reflexivity.
    + apply written_holds; [exact Hw|]. right. apply Hd. discriminate.
  - intros i fp [E|[E|[]]]; injection E as <- <-;
      (split; [lia | reflexivity]).
Defined.
